(** * keybag-client: token lifecycle and request interception

    A shallow embedding of the session code of the client:
      - the token utilities (the module imported as [./authTokenUtils]):
        [getCookieByName], [getCsrfToken], [getAuthToken];
      - the HTTP client (the module imported as [./axiosInstance]): its own
        [getCookieByName] and [getCsrfToken], [processQueue], the request
        interceptor and the response interceptor that coordinates the token
        refresh;
      - the session guard (the component [PrivateRoute]): [fetchToken],
        [checkAuth] and what the component renders.

    Module-level variables of the page ([authTokenCache], the two
    [csrfTokenCache]s, [isRefreshing], [failedQueue],
    [axiosInstance.defaults.headers]) live in one record, [World], together
    with the parts of the browser the code touches ([document.cookie],
    [window.location.href]) and the list of effects performed so far.
    Code between two [await]s is a function in a state-and-exception monad
    over [World].  The response interceptor, [getAuthToken] and [checkAuth],
    whose [await]s other tasks are interleaved with, are split at those
    [await]s into the part run at the call and the parts run when the awaited
    promise settles; the calls left suspended are kept in [World].
    [getAuthToken] is also given as one function that runs to its end against
    the answers of the backend, which is what its pieces do when nothing comes
    between them. *)

From Stdlib Require Import ZArith Ascii.
From stdpp Require Import base strings list gmap pretty.

Open Scope string_scope.
Open Scope list_scope.

(** ** JavaScript values used by the code *)

Module Js.

(** Truthiness of a [string | null | undefined]: [None] stands for
    [null]/[undefined], and the empty string is falsy as well. *)
Definition truthy (v : option string) : bool :=
  match v with
  | Some s => negb (String.eqb s "")
  | None => false
  end.

(** [if (v) { f v } else { otherwise }] *)
Definition if_truthy {A} (v : option string) (f : string -> A) (otherwise : A) : A :=
  match v with
  | Some s => if truthy v then f s else otherwise
  | None => otherwise
  end.

(** [s.split(sep)] for a non-empty separator [sep]: [skip] counts the
    characters of a separator occurrence still to pass over, [cur] is the piece
    read so far. *)
Fixpoint split_from (sep : string) (skip : nat) (cur : string) (s : string)
  : list string :=
  match s with
  | EmptyString => [cur]
  | String c rest =>
      match skip with
      | S k => split_from sep k cur rest
      | O =>
          if String.prefix sep s
          then cur :: split_from sep (String.length sep - 1) "" rest
          else split_from sep 0 (cur +:+ String c "") rest
      end
  end.

Definition split (sep : string) (s : string) : list string :=
  split_from sep 0 "" s.

(** Errors the modelled code can raise. *)
Inductive Exn :=
| URIError                 (* decodeURIComponent on a malformed escape *)
| TypeError                (* property read on null/undefined, failed fetch *)
| SyntaxError              (* response.json() on a body that is not JSON *)
| Error (message : string) (* new Error(message) *).

(** *** decodeURIComponent

    Strings are byte strings (UTF-8).  Every [%XX] escape is replaced by its
    byte; a byte below 0x80 stands alone, any other escaped byte must start a
    well-formed UTF-8 sequence whose continuation bytes are escapes too.
    Anything else is a URIError ([None]). *)

Definition hex_digit (c : ascii) : option N :=
  let n := N_of_ascii c in
  if (48 <=? n)%N && (n <=? 57)%N then Some (n - 48)%N
  else if (65 <=? n)%N && (n <=? 70)%N then Some (n - 55)%N
  else if (97 <=? n)%N && (n <=? 102)%N then Some (n - 87)%N
  else None.

Definition hex_byte (h l : ascii) : option N :=
  match hex_digit h, hex_digit l with
  | Some a, Some b => Some (16 * a + b)%N
  | _, _ => None
  end.

Definition in_range (lo hi b : N) : bool := (lo <=? b)%N && (b <=? hi)%N.

(** For a leading byte: how many continuation bytes follow, and the range
    of the first of them (which excludes overlong forms, surrogates and code
    points above U+10FFFF). *)
Definition utf8_lead (b : N) : option (nat * N * N) :=
  if in_range 194 223 b then Some (1, 128%N, 191%N)
  else if (b =? 224)%N then Some (2, 160%N, 191%N)
  else if (b =? 237)%N then Some (2, 128%N, 159%N)
  else if in_range 225 239 b then Some (2, 128%N, 191%N)
  else if (b =? 240)%N then Some (3, 144%N, 191%N)
  else if in_range 241 243 b then Some (3, 128%N, 191%N)
  else if (b =? 244)%N then Some (3, 128%N, 143%N)
  else None.

(** [need] continuation bytes are still due, the next one within [lo..hi]. *)
Fixpoint decode (need : nat) (lo hi : N) (s : string) : option string :=
  match s with
  | EmptyString => if need is O then Some "" else None
  | String "%"%char (String h (String l rest)) =>
      match hex_byte h l with
      | None => None
      | Some b =>
          match need with
          | O =>
              if (b <? 128)%N
              then String (ascii_of_N b) <$> decode 0 128 191 rest
              else
                match utf8_lead b with
                | Some (n, lo', hi') =>
                    String (ascii_of_N b) <$> decode n lo' hi' rest
                | None => None
                end
          | S k =>
              if in_range lo hi b
              then String (ascii_of_N b) <$> decode k 128 191 rest
              else None
          end
      end
  | String "%"%char _ => None
  | String c rest =>
      if need is O then String c <$> decode 0 128 191 rest else None
  end.

Definition decodeURIComponent (s : string) : option string :=
  decode 0 128 191 s.

End Js.

(** ** The page: module variables, browser state, effects *)

(** [ExtendedAxiosRequestConfig]: a request description with the one-shot
    [_retry] marker ([_retry?: boolean]; left out reads as [false]). *)
Record ExtendedAxiosRequestConfig := {
  url : string;
  method : string;
  headers : gmap string string;
  _retry : bool;
}.

Definition set_retry (b : bool) (c : ExtendedAxiosRequestConfig) :=
  {| url := url c; method := method c; headers := headers c; _retry := b |}.

Definition set_header (k v : string) (c : ExtendedAxiosRequestConfig) :=
  {| url := url c; method := method c; headers := <[k := v]> (headers c);
     _retry := _retry c |}.

(** The error a rejected request hands to the response interceptor:
    [axios.isAxiosError(error)], [error.response?.status] and [error.config]. *)
Record AxiosError := {
  isAxiosError : bool;
  response_status : option Z;
  config : ExtendedAxiosRequestConfig;
}.

Definition set_config (c : ExtendedAxiosRequestConfig) (e : AxiosError) :=
  {| isAxiosError := isAxiosError e; response_status := response_status e;
     config := c |}.

(** What the code does to the outside, in the order it does it.  A promise
    returned by the response interceptor is named by a number. *)
Inductive Effect :=
| CookieRead                                     (* document.cookie *)
| ConsoleLog (message : string)
| ConsoleError (message : string)
| Fetch (url : string) (headers : gmap string string)
                                                 (* fetch(url, {method: 'GET', credentials: 'include', headers}) *)
| SetTimeout (ms : Z)                            (* await new Promise(r => setTimeout(r, ms)) *)
| Post (url : string)                            (* axios.post(url, {}, {withCredentials: true}) *)
| Resolved (promise : nat) (token : string)      (* prom.resolve(token) *)
| Rejected (promise : nat) (error : AxiosError)  (* prom.reject(error), Promise.reject(error) *)
| Replayed (promise : nat) (request : ExtendedAxiosRequestConfig)
                                                 (* return axiosInstance(originalRequest) *)
| LocationAssign (href : string)                 (* window.location.href = href *).

(** A response-interceptor call suspended at [await axios.post(...)]: the
    promise it returned and its [error] (whose [config] is [originalRequest]). *)
Record Suspended := {
  handler_promise : nat;
  handler_error : AxiosError;
}.

(** A call of [getAuthToken] suspended at an [await]: its local variables
    and what it waits for -- the answer to its [fetch] (response and body), or
    the timer of its retry delay. *)
Inductive Waiting :=
| ForFetch
| ForTimer.

Record TokenCall := {
  call_attempt : nat;
  call_csrfToken : option string;
  call_retryDelay : Z;
  call_waiting : Waiting;
}.

Record World := {
  baseURL : string;                        (* REACT_APP_BACKEND_URL || 'http://localhost:3000' *)
  document_cookie : string;
  location_href : string;
  authTokenCache : option string;          (* authTokenUtils *)
  csrfTokenCache_utils : option string;    (* authTokenUtils *)
  csrfTokenCache_axios : option string;    (* axiosInstance *)
  isRefreshing : bool;                     (* axiosInstance *)
  failedQueue : list nat;                  (* axiosInstance: the queued {resolve, reject} pairs *)
  defaults_headers : gmap string string;   (* axiosInstance.defaults.headers *)
  awaiting_refresh : list Suspended;
  awaiting_token : list TokenCall;
  promises : nat;                          (* interceptor promises created so far *)
  trace : list Effect;
}.

Definition set_location_href (v : string) (w : World) : World :=
  {| baseURL := baseURL w; document_cookie := document_cookie w;
     location_href := v; authTokenCache := authTokenCache w;
     csrfTokenCache_utils := csrfTokenCache_utils w;
     csrfTokenCache_axios := csrfTokenCache_axios w;
     isRefreshing := isRefreshing w; failedQueue := failedQueue w;
     defaults_headers := defaults_headers w;
     awaiting_refresh := awaiting_refresh w;
     awaiting_token := awaiting_token w; promises := promises w;
     trace := trace w |}.

Definition set_authTokenCache (v : option string) (w : World) : World :=
  {| baseURL := baseURL w; document_cookie := document_cookie w;
     location_href := location_href w; authTokenCache := v;
     csrfTokenCache_utils := csrfTokenCache_utils w;
     csrfTokenCache_axios := csrfTokenCache_axios w;
     isRefreshing := isRefreshing w; failedQueue := failedQueue w;
     defaults_headers := defaults_headers w;
     awaiting_refresh := awaiting_refresh w;
     awaiting_token := awaiting_token w; promises := promises w;
     trace := trace w |}.

Definition set_csrfTokenCache_utils (v : option string) (w : World) : World :=
  {| baseURL := baseURL w; document_cookie := document_cookie w;
     location_href := location_href w; authTokenCache := authTokenCache w;
     csrfTokenCache_utils := v;
     csrfTokenCache_axios := csrfTokenCache_axios w;
     isRefreshing := isRefreshing w; failedQueue := failedQueue w;
     defaults_headers := defaults_headers w;
     awaiting_refresh := awaiting_refresh w;
     awaiting_token := awaiting_token w; promises := promises w;
     trace := trace w |}.

Definition set_csrfTokenCache_axios (v : option string) (w : World) : World :=
  {| baseURL := baseURL w; document_cookie := document_cookie w;
     location_href := location_href w; authTokenCache := authTokenCache w;
     csrfTokenCache_utils := csrfTokenCache_utils w;
     csrfTokenCache_axios := v;
     isRefreshing := isRefreshing w; failedQueue := failedQueue w;
     defaults_headers := defaults_headers w;
     awaiting_refresh := awaiting_refresh w;
     awaiting_token := awaiting_token w; promises := promises w;
     trace := trace w |}.

Definition set_isRefreshing (v : bool) (w : World) : World :=
  {| baseURL := baseURL w; document_cookie := document_cookie w;
     location_href := location_href w; authTokenCache := authTokenCache w;
     csrfTokenCache_utils := csrfTokenCache_utils w;
     csrfTokenCache_axios := csrfTokenCache_axios w;
     isRefreshing := v; failedQueue := failedQueue w;
     defaults_headers := defaults_headers w;
     awaiting_refresh := awaiting_refresh w;
     awaiting_token := awaiting_token w; promises := promises w;
     trace := trace w |}.

Definition set_failedQueue (v : list nat) (w : World) : World :=
  {| baseURL := baseURL w; document_cookie := document_cookie w;
     location_href := location_href w; authTokenCache := authTokenCache w;
     csrfTokenCache_utils := csrfTokenCache_utils w;
     csrfTokenCache_axios := csrfTokenCache_axios w;
     isRefreshing := isRefreshing w; failedQueue := v;
     defaults_headers := defaults_headers w;
     awaiting_refresh := awaiting_refresh w;
     awaiting_token := awaiting_token w; promises := promises w;
     trace := trace w |}.

Definition set_defaults_headers (v : gmap string string) (w : World) : World :=
  {| baseURL := baseURL w; document_cookie := document_cookie w;
     location_href := location_href w; authTokenCache := authTokenCache w;
     csrfTokenCache_utils := csrfTokenCache_utils w;
     csrfTokenCache_axios := csrfTokenCache_axios w;
     isRefreshing := isRefreshing w; failedQueue := failedQueue w;
     defaults_headers := v;
     awaiting_refresh := awaiting_refresh w;
     awaiting_token := awaiting_token w; promises := promises w;
     trace := trace w |}.

Definition set_awaiting_refresh (v : list Suspended) (w : World) : World :=
  {| baseURL := baseURL w; document_cookie := document_cookie w;
     location_href := location_href w; authTokenCache := authTokenCache w;
     csrfTokenCache_utils := csrfTokenCache_utils w;
     csrfTokenCache_axios := csrfTokenCache_axios w;
     isRefreshing := isRefreshing w; failedQueue := failedQueue w;
     defaults_headers := defaults_headers w;
     awaiting_refresh := v;
     awaiting_token := awaiting_token w; promises := promises w;
     trace := trace w |}.

Definition set_awaiting_token (v : list TokenCall) (w : World) : World :=
  {| baseURL := baseURL w; document_cookie := document_cookie w;
     location_href := location_href w; authTokenCache := authTokenCache w;
     csrfTokenCache_utils := csrfTokenCache_utils w;
     csrfTokenCache_axios := csrfTokenCache_axios w;
     isRefreshing := isRefreshing w; failedQueue := failedQueue w;
     defaults_headers := defaults_headers w;
     awaiting_refresh := awaiting_refresh w;
     awaiting_token := v; promises := promises w;
     trace := trace w |}.

Definition set_promises (v : nat) (w : World) : World :=
  {| baseURL := baseURL w; document_cookie := document_cookie w;
     location_href := location_href w; authTokenCache := authTokenCache w;
     csrfTokenCache_utils := csrfTokenCache_utils w;
     csrfTokenCache_axios := csrfTokenCache_axios w;
     isRefreshing := isRefreshing w; failedQueue := failedQueue w;
     defaults_headers := defaults_headers w;
     awaiting_refresh := awaiting_refresh w;
     awaiting_token := awaiting_token w; promises := v;
     trace := trace w |}.

Definition set_trace (v : list Effect) (w : World) : World :=
  {| baseURL := baseURL w; document_cookie := document_cookie w;
     location_href := location_href w; authTokenCache := authTokenCache w;
     csrfTokenCache_utils := csrfTokenCache_utils w;
     csrfTokenCache_axios := csrfTokenCache_axios w;
     isRefreshing := isRefreshing w; failedQueue := failedQueue w;
     defaults_headers := defaults_headers w;
     awaiting_refresh := awaiting_refresh w;
     awaiting_token := awaiting_token w; promises := promises w;
     trace := v |}.

(** Performing effects appends them to the trace. *)
Definition emit_all (es : list Effect) (w : World) : World :=
  set_trace (trace w ++ es) w.

Definition emit (e : Effect) (w : World) : World := emit_all [e] w.

(** A freshly loaded page: empty caches, no refresh, nothing done yet. *)
Definition page_load (base cookie href : string) : World :=
  {| baseURL := base; document_cookie := cookie; location_href := href;
     authTokenCache := None; csrfTokenCache_utils := None;
     csrfTokenCache_axios := None; isRefreshing := false; failedQueue := [];
     defaults_headers := {[ "Content-Type" := "application/json" ]};
     awaiting_refresh := []; awaiting_token := []; promises := 0; trace := [] |}.

(** ** Code that runs without being interleaved: state and exceptions *)

Inductive Completion (A : Type) :=
| Normal (a : A)
| Throw (e : Js.Exn).
Arguments Normal {A} a.
Arguments Throw {A} e.

Definition Task (A : Type) : Type := World -> Completion A * World.

Definition ret {A} (a : A) : Task A := fun w => (Normal a, w).

Definition throw {A} (e : Js.Exn) : Task A := fun w => (Throw e, w).

Definition bind {A B} (c : Task A) (k : A -> Task B) : Task B :=
  fun w =>
    match c w with
    | (Normal a, w') => k a w'
    | (Throw e, w') => (Throw e, w')
    end.

(** [try { body } catch (e) { handler e }] *)
Definition try_catch {A} (body : Task A) (handler : Js.Exn -> Task A) : Task A :=
  fun w =>
    match body w with
    | (Normal a, w') => (Normal a, w')
    | (Throw e, w') => handler e w'
    end.

Definition gets {A} (f : World -> A) : Task A := fun w => (Normal (f w), w).

Definition modify (f : World -> World) : Task unit := fun w => (Normal tt, f w).

Definition perform (e : Effect) : Task unit := modify (emit e).

Declare Scope task_scope.
Delimit Scope task_scope with task.
Notation "x <- c ;; k" := (bind c (fun x => k))
  (at level 100, c at next level, right associativity) : task_scope.
Notation "c ;; k" := (bind c (fun _ => k))
  (at level 100, right associativity) : task_scope.
Open Scope task_scope.

(** ** CSRF token lookup (the same code in both modules, one cache each) *)

(** The loop of [getCookieByName] over [document.cookie.split("; ")]:
    [const [key, value] = cookie.split("=")], and the first cookie whose key is
    [name] decides.  A cookie without ["="] has [value === undefined], which
    [decodeURIComponent] turns into the string ["undefined"]. *)
Fixpoint find_cookie (name : string) (cookies : list string)
  : Completion (option string) :=
  match cookies with
  | [] => Normal None
  | cookie :: rest =>
      let parts := Js.split "=" cookie in
      if bool_decide (parts !! 0%nat = Some name)
      then match Js.decodeURIComponent (default "undefined" (parts !! 1%nat)) with
           | Some v => Normal (Some v)
           | None => Throw Js.URIError
           end
      else find_cookie name rest
  end.

Definition getCookieByName (name : string) : Task (option string) :=
  fun w =>
    (find_cookie name (Js.split "; " (document_cookie w)), emit CookieRead w).

Section CsrfLookup.
(** The module's own [csrfTokenCache]. *)
Variable csrfTokenCache : World -> option string.
Variable set_csrfTokenCache : option string -> World -> World.

Definition getCsrfToken_in : Task (option string) :=
  cached <- gets csrfTokenCache;;
  if Js.truthy cached then
    perform (ConsoleLog "Returning cached CSRF token:");;
    ret cached
  else
    csrfToken <- getCookieByName "XSRF-TOKEN";;
    if Js.truthy csrfToken then
      modify (set_csrfTokenCache csrfToken);;
      perform (ConsoleLog "Extracted CSRF token from cookies:");;
      gets csrfTokenCache
    else
      perform (ConsoleError "CSRF token not found in cookies");;
      ret None.
End CsrfLookup.

(** ** The token utilities: authTokenUtils *)

(** What the backend answers to one [fetch]: the promise rejects, or a response
    arrives with [response.ok] and a body that [response.json()] cannot parse,
    parses to [null], or parses to a value whose [token] property is given
    ([None]: the property read gives [undefined]).  A token is a string, as
    the code's types say. *)
Inductive JsonBody :=
| NotJson
| JsonNull
| JsonObject (token : option string).

Inductive FetchOutcome :=
| FetchRejected
| FetchResponse (ok : bool) (body : JsonBody).

Module AuthTokenUtils.

Definition getCsrfToken : Task (option string) :=
  getCsrfToken_in csrfTokenCache_utils set_csrfTokenCache_utils.

Definition maxRetries : nat := 2.

(** The [try] block of one loop iteration: up to [await fetch(...)], and from
    the answer on. *)
Definition send_fetch (csrfToken : option string) : Task unit :=
  let headers : gmap string string :=
    Js.if_truthy csrfToken (fun t => {[ "X-CSRF-Token" := t ]}) ∅ in
  base <- gets baseURL;;
  perform (Fetch (base +:+ "/auth/get-token") headers).

Definition receive_fetch (answer : FetchOutcome) : Task (option string) :=
  match answer with
  | FetchRejected => throw Js.TypeError
  | FetchResponse ok body =>
      if negb ok then throw (Js.Error "Failed to fetch token")
      else
        match body with
        | NotJson => throw Js.SyntaxError
        | JsonNull => throw Js.TypeError
        | JsonObject token =>
            modify (set_authTokenCache token);;
            gets authTokenCache
        end
  end.

Definition try_fetch (csrfToken : option string) (answer : FetchOutcome)
  : Task (option string) :=
  send_fetch csrfToken;;
  receive_fetch answer.

(** The [catch] block, [attempt] already incremented, up to its [await]; it
    tells whether it set the timer. *)
Definition after_failure (attempt : nat) (retryDelay : Z) : Task bool :=
  perform (ConsoleError
             ("Attempt " +:+ pretty attempt +:+ " - Error fetching token:"));;
  if (attempt <? maxRetries)%nat then
    perform (ConsoleLog ("Retrying in " +:+ pretty retryDelay +:+ "ms..."));;
    perform (SetTimeout retryDelay);;
    ret true
  else ret false.

(** The code after the loop. *)
Definition after_loop : Task (option string) :=
  perform (ConsoleError "Max retries reached. Could not fetch token.");;
  ret None.

(** [while (attempt < maxRetries) { try ... catch ... }] and the code after
    it, run without a break.  [remaining] is [maxRetries - attempt]: the loop
    test holds exactly when it is not zero.  [server k] is the backend's answer
    to the fetch made when [attempt] is [k]. *)
Fixpoint retry_loop (remaining attempt : nat) (csrfToken : option string)
    (retryDelay : Z) (server : nat -> FetchOutcome) : Task (option string) :=
  match remaining with
  | O => after_loop
  | S remaining' =>
      try_catch (try_fetch csrfToken (server attempt))
        (fun error =>
           let attempt := S attempt in
           after_failure attempt retryDelay;;
           retry_loop remaining' attempt csrfToken retryDelay server)
  end.

(** A call of [getAuthToken] that nothing else is interleaved with. *)
Definition getAuthToken (retryDelay : Z) (server : nat -> FetchOutcome)
  : Task (option string) :=
  cached <- gets authTokenCache;;
  if Js.truthy cached then ret cached
  else
    let attempt := 0 in
    csrfToken <- getCsrfToken;;
    retry_loop (maxRetries - attempt) attempt csrfToken retryDelay server.

(** The same call piece by piece, from one [await] to the next, for when
    other tasks run while it is suspended.  (Two suspensions are not kept
    apart from what follows them: after [await getCsrfToken()], whose promise is
    already settled, and between the response and [await response.json()], the
    call reads or writes no variable of the page before it goes on.) *)
Inductive CallState :=
| Returns (result : Completion (option string))
| Awaits (call : TokenCall).

(** The loop test, and what follows it up to the next [await]. *)
Definition loop_head (attempt : nat) (csrfToken : option string) (retryDelay : Z)
    (w : World) : CallState * World :=
  if (attempt <? maxRetries)%nat then
    (Awaits {| call_attempt := attempt; call_csrfToken := csrfToken;
               call_retryDelay := retryDelay; call_waiting := ForFetch |},
     snd (send_fetch csrfToken w))
  else
    let (result, w) := after_loop w in (Returns result, w).

Definition begin (retryDelay : Z) (w : World) : CallState * World :=
  if Js.truthy (authTokenCache w) then (Returns (Normal (authTokenCache w)), w)
  else
    let attempt := 0 in
    match getCsrfToken w with
    | (Normal csrfToken, w) => loop_head attempt csrfToken retryDelay w
    | (Throw e, w) => (Returns (Throw e), w)
    end.

Definition fetch_settled (call : TokenCall) (answer : FetchOutcome) (w : World)
  : CallState * World :=
  match receive_fetch answer w with
  | (Normal token, w) => (Returns (Normal token), w)
  | (Throw error, w) =>
      let attempt := S (call_attempt call) in
      match after_failure attempt (call_retryDelay call) w with
      | (Normal true, w) =>
          (Awaits {| call_attempt := attempt;
                     call_csrfToken := call_csrfToken call;
                     call_retryDelay := call_retryDelay call;
                     call_waiting := ForTimer |}, w)
      | (_, w) => loop_head attempt (call_csrfToken call) (call_retryDelay call) w
      end
  end.

Definition timer_fired (call : TokenCall) (w : World) : CallState * World :=
  loop_head (call_attempt call) (call_csrfToken call) (call_retryDelay call) w.

(** A suspended call driven to its end by the answers of [server], at most
    [steps] resumptions. *)
Fixpoint drive (steps : nat) (server : nat -> FetchOutcome) (state : CallState)
    (w : World) : option (Completion (option string) * World) :=
  match state with
  | Returns result => Some (result, w)
  | Awaits call =>
      match steps with
      | O => None
      | S steps' =>
          let (state', w') :=
            match call_waiting call with
            | ForFetch => fetch_settled call (server (call_attempt call)) w
            | ForTimer => timer_fired call w
            end in
          drive steps' server state' w'
      end
  end.

End AuthTokenUtils.

(** ** The HTTP client: axiosInstance *)

(** What [await axios.post(refresh)] gives: the promise rejects, or a response
    arrives whose [data] is [null]/[undefined] or a value whose [token]
    property is given ([None]: the property read gives [undefined]).  A token
    is a string, as the type [{ token: string }] says. *)
Inductive ResponseData :=
| DataNullish
| DataObject (token : option string).

Inductive PostResult :=
| PostRejected
| PostFulfilled (data : ResponseData).

Module AxiosInstance.

Definition getCsrfToken : Task (option string) :=
  getCsrfToken_in csrfTokenCache_axios set_csrfTokenCache_axios.

(** [failedQueue.forEach(...)], then [failedQueue = []]. *)
Definition processQueue (error : option AxiosError) (token : option string)
    (w : World) : World :=
  let settle (prom : nat) : list Effect :=
    Js.if_truthy token (fun t => [Resolved prom t])
      match error with
      | Some e => [Rejected prom e]
      | None => []
      end in
  set_failedQueue [] (emit_all (flat_map settle (failedQueue w)) w).

(** The request interceptor's first handler; [getAuthToken()] is called
    with its default delay. *)
Definition onRequest (config : ExtendedAxiosRequestConfig)
    (server : nat -> FetchOutcome) : Task ExtendedAxiosRequestConfig :=
  try_catch
    (csrfToken <- getCsrfToken;;
     authToken <- AuthTokenUtils.getAuthToken 1000 server;;
     let config :=
       Js.if_truthy csrfToken (fun t => set_header "X-CSRF-Token" t config) config in
     let config :=
       Js.if_truthy authToken
         (fun t => set_header "Authorization" ("Bearer " +:+ t) config) config in
     ret config)
    (fun error =>
       perform (ConsoleError "Error in request interceptor:");;
       throw error).

Definition refresh_url (w : World) : string := baseURL w +:+ "/auth/refresh-token".

(** The response interceptor's error handler, from its call to its first
    [await] or [return].  It yields the promise it returned. *)
Definition onRejected (error : AxiosError) (w : World) : nat * World :=
  let promise := promises w in
  let w := set_promises (S promise) w in
  let originalRequest := config error in
  if isAxiosError error
     && bool_decide (response_status error = Some 498%Z)
     && negb (_retry originalRequest)
  then
    if isRefreshing w then
      (promise, set_failedQueue (failedQueue w ++ [promise]) w)
    else
      let originalRequest := set_retry true originalRequest in
      let error := set_config originalRequest error in
      let w := set_isRefreshing true w in
      let w := emit (Post (refresh_url w)) w in
      (promise,
       set_awaiting_refresh
         (awaiting_refresh w
            ++ [{| handler_promise := promise; handler_error := error |}]) w)
  else
    (promise, emit (Rejected promise error) w).

(** The [catch] block. *)
Definition on_refresh_error (error : AxiosError) (w : World) : World :=
  let w := processQueue (Some error) None w in
  let w := emit (ConsoleError "Token refresh failed:") w in
  emit (LocationAssign "/login") (set_location_href "/login" w).

(** The rest of the handler, run when the awaited [axios.post] settles. *)
Definition resume (s : Suspended) (result : PostResult) (w : World) : World :=
  let promise := handler_promise s in
  let error := handler_error s in
  let originalRequest := config error in
  let finally := set_isRefreshing false in
  let reject (w : World) := emit (Rejected promise error) w in
  match result with
  | PostFulfilled (DataObject token) =>
      Js.if_truthy token
        (fun t =>
           let bearer := "Bearer " +:+ t in
           let w := set_defaults_headers
                      (<["Authorization" := bearer]> (defaults_headers w)) w in
           let originalRequest := set_header "Authorization" bearer originalRequest in
           let w := processQueue None token w in
           let w := emit (Replayed promise originalRequest) w in
           finally w)
        (reject (finally w))
  | PostFulfilled DataNullish => reject (finally (on_refresh_error error w))
  | PostRejected => reject (finally (on_refresh_error error w))
  end.

End AxiosInstance.

(** ** The page as a whole *)

(** What can happen next on the page: a request of [axiosInstance] is
    rejected with [error]; the refresh call of the [k]-th suspended handler
    settles; some code calls [getAuthToken] or the request interceptor and the
    call runs to its end, against the backend answers [server], before
    anything else happens; [getAuthToken] is called and may be left suspended;
    the fetch, or the timer, of the [k]-th suspended call of [getAuthToken]
    settles; some code calls one of the two [getCsrfToken]. *)
Inductive Event :=
| ResponseError (error : AxiosError)
| RefreshSettled (k : nat) (result : PostResult)
| CallGetAuthToken (retryDelay : Z) (server : nat -> FetchOutcome)
| TokenCallBegins (retryDelay : Z)
| TokenFetchSettled (k : nat) (answer : FetchOutcome)
| TokenTimerFired (k : nat)
| CallGetCsrfToken_utils
| CallGetCsrfToken_axios
| CallOnRequest (config : ExtendedAxiosRequestConfig) (server : nat -> FetchOutcome).

(** The calls of [getAuthToken] left suspended after one of them ran from
    one [await] to the next: [others], and that call itself unless it
    returned. *)
Definition suspend_or_finish (others : list TokenCall)
    (now : AuthTokenUtils.CallState * World) : World :=
  match now with
  | (AuthTokenUtils.Awaits call, w) => set_awaiting_token (others ++ [call]) w
  | (AuthTokenUtils.Returns _, w) => set_awaiting_token others w
  end.

Definition step (ev : Event) (w : World) : option World :=
  match ev with
  | ResponseError error => Some (snd (AxiosInstance.onRejected error w))
  | RefreshSettled k result =>
      match awaiting_refresh w !! k with
      | Some s =>
          Some (AxiosInstance.resume s result
                  (set_awaiting_refresh (delete k (awaiting_refresh w)) w))
      | None => None
      end
  | CallGetAuthToken retryDelay server =>
      Some (snd (AuthTokenUtils.getAuthToken retryDelay server w))
  | TokenCallBegins retryDelay =>
      Some (suspend_or_finish (awaiting_token w) (AuthTokenUtils.begin retryDelay w))
  | TokenFetchSettled k answer =>
      match awaiting_token w !! k with
      | Some call =>
          match call_waiting call with
          | ForFetch =>
              Some (suspend_or_finish (delete k (awaiting_token w))
                      (AuthTokenUtils.fetch_settled call answer w))
          | ForTimer => None
          end
      | None => None
      end
  | TokenTimerFired k =>
      match awaiting_token w !! k with
      | Some call =>
          match call_waiting call with
          | ForTimer =>
              Some (suspend_or_finish (delete k (awaiting_token w))
                      (AuthTokenUtils.timer_fired call w))
          | ForFetch => None
          end
      | None => None
      end
  | CallGetCsrfToken_utils => Some (snd (AuthTokenUtils.getCsrfToken w))
  | CallGetCsrfToken_axios => Some (snd (AxiosInstance.getCsrfToken w))
  | CallOnRequest config server => Some (snd (AxiosInstance.onRequest config server w))
  end.

Fixpoint run (evs : list Event) (w : World) : option World :=
  match evs with
  | [] => Some w
  | ev :: evs' =>
      match step ev w with
      | Some w' => run evs' w'
      | None => None
      end
  end.

Definition reachable (w : World) : Prop :=
  exists base cookie href evs, run evs (page_load base cookie href) = Some w.

(** ** The session guard: PrivateRoute *)

Module PrivateRoute.

(** What awaiting [axiosInstance.get(...)] gives: it rejects (with an axios
    error or with something else), or a response arrives. *)
Inductive GetResult :=
| GetRejected (axiosError : bool)
| GetFulfilled (status : Z) (data : ResponseData).

Inductive Action :=
| Get (url : string) (headers : gmap string string)
                                 (* axiosInstance.get(url, {headers, withCredentials: true}) *)
| Navigate (to : string)         (* navigate(to) *)
| LogError (message : string)    (* console.error(message, ...) *).

(** Where [checkAuth] is suspended. *)
Inductive Phase :=
| AwaitingToken   (* in fetchToken, at await axiosInstance.get('/auth/get-token') *)
| AwaitingCheck   (* at await axiosInstance.get('/account/check-auth') *)
| Finished.

Record Guard := {
  isAuthenticated : option bool;   (* useState<boolean | null>(null) *)
  isMounted : bool;
  phase : Phase;
  actions : list Action;
}.

Definition setIsAuthenticated (b : bool) (g : Guard) : Guard :=
  {| isAuthenticated := Some b; isMounted := isMounted g; phase := phase g;
     actions := actions g |}.

Definition set_phase (p : Phase) (g : Guard) : Guard :=
  {| isAuthenticated := isAuthenticated g; isMounted := isMounted g; phase := p;
     actions := actions g |}.

Definition act (a : Action) (g : Guard) : Guard :=
  {| isAuthenticated := isAuthenticated g; isMounted := isMounted g;
     phase := phase g; actions := actions g ++ [a] |}.

(** The first render and the effect: [checkAuth()] runs up to the request of
    [fetchToken]. *)
Definition activate : Guard :=
  {| isAuthenticated := None; isMounted := true; phase := AwaitingToken;
     actions := [Get "/auth/get-token" ∅] |}.

(** The effect's cleanup. *)
Definition deactivate (g : Guard) : Guard :=
  {| isAuthenticated := isAuthenticated g; isMounted := false; phase := phase g;
     actions := actions g |}.

(** The rest of [fetchToken]: its result, and the guard after its logging. *)
Definition fetchToken (r : GetResult) (g : Guard) : option string * Guard :=
  match r with
  | GetFulfilled status data =>
      if bool_decide (status = 200%Z) then
        match data with
        | DataObject token => (token, g)
        | DataNullish => (None, act (LogError "Unexpected error:") g)
        end
      else (None, act (LogError "Unexpected error:") g)
  | GetRejected true => (None, act (LogError "Error fetching token:") g)
  | GetRejected false => (None, act (LogError "Unexpected error:") g)
  end.

(** [checkAuth] from the result of [fetchToken] to its next [await]. *)
Definition on_token (r : GetResult) (g : Guard) : Guard :=
  let (authToken, g) := fetchToken r g in
  Js.if_truthy authToken
    (fun t =>
       set_phase AwaitingCheck
         (act (Get "/account/check-auth" {[ "Authorization" := "Bearer " +:+ t ]}) g))
    (let g := act (LogError "Access denied: Token not found") g in
     let g := if isMounted g then setIsAuthenticated false g else g in
     set_phase Finished (act (Navigate "/login") g)).

(** [checkAuth] after the check request settled. *)
Definition on_check (r : GetResult) (g : Guard) : Guard :=
  match r with
  | GetFulfilled _ _ =>
      set_phase Finished (if isMounted g then setIsAuthenticated true g else g)
  | GetRejected _ =>
      let g := act (LogError "Access denied: You are not logged in") g in
      set_phase Finished
        (if isMounted g
         then act (Navigate "/login") (setIsAuthenticated false g)
         else g)
  end.

Inductive GuardEvent :=
| TokenSettled (r : GetResult)
| CheckSettled (r : GetResult)
| Unmount.

(** A settlement that no suspended [checkAuth] waits for changes nothing. *)
Definition guard_step (ev : GuardEvent) (g : Guard) : Guard :=
  match ev, phase g with
  | TokenSettled r, AwaitingToken => on_token r g
  | CheckSettled r, AwaitingCheck => on_check r g
  | Unmount, _ => deactivate g
  | _, _ => g
  end.

Definition guard_run (evs : list GuardEvent) (g : Guard) : Guard :=
  foldl (fun g ev => guard_step ev g) g evs.

Inductive View :=
| Loading          (* <div>Loading...</div> *)
| Children         (* <>{children}</> *)
| Nothing          (* null *).

Definition render (g : Guard) : View :=
  match isAuthenticated g with
  | None => Loading
  | Some true => Children
  | Some false => Nothing
  end.

End PrivateRoute.

(** ** Vocabulary for the statements *)

(** The promise an effect settles, if it settles one. *)
Definition settles (e : Effect) : option nat :=
  match e with
  | Resolved p _ | Rejected p _ | Replayed p _ => Some p
  | _ => None
  end.

Definition settled (p : nat) (t : list Effect) : bool :=
  existsb (fun e => bool_decide (settles e = Some p)) t.

Definition is_post (e : Effect) : bool :=
  match e with Post _ => true | _ => false end.

Definition is_fetch (e : Effect) : bool :=
  match e with Fetch _ _ => true | _ => false end.

Definition is_cookie_read (e : Effect) : bool :=
  match e with CookieRead => true | _ => false end.

Definition is_replay (e : Effect) : bool :=
  match e with Replayed _ _ => true | _ => false end.

Definition count (f : Effect -> bool) (t : list Effect) : nat :=
  length (List.filter f t).

(** The condition under which the response interceptor deals with an error. *)
Definition refresh_condition (error : AxiosError) : bool :=
  isAxiosError error
  && bool_decide (response_status error = Some 498%Z)
  && negb (_retry (config error)).

(** A [fetch] attempt of [getAuthToken] that ends in its [catch] block. *)
Definition attempt_fails (answer : FetchOutcome) : bool :=
  match answer with
  | FetchRejected => true
  | FetchResponse ok body =>
      negb ok || match body with JsonObject _ => false | _ => true end
  end.

Definition is_refresh_settled (ev : Event) : bool :=
  match ev with RefreshSettled _ _ => true | _ => false end.

(** Events of the refresh coordinator (the response interceptor). *)
Definition is_coordinator_event (ev : Event) : bool :=
  match ev with ResponseError _ | RefreshSettled _ _ => true | _ => false end.

(** Events that run [getAuthToken], or a piece of it. *)
Definition calls_getAuthToken (ev : Event) : bool :=
  match ev with
  | CallGetAuthToken _ _ | TokenCallBegins _ | TokenFetchSettled _ _
  | TokenTimerFired _ | CallOnRequest _ _ => true
  | _ => false
  end.

(** In the world [w], the event [ev] is a call of [getAuthToken], or the last
    piece of one, that returns the token [T]. *)
Definition call_returns (T : string) (ev : Event) (w : World) : Prop :=
  match ev with
  | CallGetAuthToken retryDelay server =>
      fst (AuthTokenUtils.getAuthToken retryDelay server w) = Normal (Some T)
  | TokenCallBegins retryDelay =>
      fst (AuthTokenUtils.begin retryDelay w)
      = AuthTokenUtils.Returns (Normal (Some T))
  | TokenFetchSettled k answer =>
      exists call,
        awaiting_token w !! k = Some call
        /\ fst (AuthTokenUtils.fetch_settled call answer w)
           = AuthTokenUtils.Returns (Normal (Some T))
  | _ => False
  end.

(** The key of a cookie, as [getCookieByName] reads it. *)
Definition cookie_key (cookie : string) : option string :=
  Js.split "=" cookie !! 0%nat.

Definition cookie_value (cookie : string) : option string :=
  Js.split "=" cookie !! 1%nat.

(** Effects of the token functions: they settle no promise and make no
    refresh call. *)
Definition token_effect (e : Effect) : bool :=
  match e with
  | CookieRead | ConsoleLog _ | ConsoleError _ | Fetch _ _ | SetTimeout _ => true
  | _ => false
  end.

(** The task [c] takes every world to one related to it by [R]. *)
Definition keeps (R : World -> World -> Prop) {A} (c : Task A) : Prop :=
  forall w, R w (snd (c w)).

(** [w'] differs from [w] at most in the three token caches and by token
    effects added to the trace. *)
Definition token_frame (w w' : World) : Prop :=
  baseURL w' = baseURL w /\ document_cookie w' = document_cookie w
  /\ location_href w' = location_href w /\ isRefreshing w' = isRefreshing w
  /\ failedQueue w' = failedQueue w /\ defaults_headers w' = defaults_headers w
  /\ awaiting_refresh w' = awaiting_refresh w /\ promises w' = promises w
  /\ exists es, trace w' = trace w ++ es /\ forallb token_effect es = true.

(** [w'] has the CSRF caches of [w]. *)
Definition csrf_frame (w w' : World) : Prop :=
  csrfTokenCache_utils w' = csrfTokenCache_utils w
  /\ csrfTokenCache_axios w' = csrfTokenCache_axios w.

(** [w'] has the auth token cache of [w]. *)
Definition auth_frame (w w' : World) : Prop := authTokenCache w' = authTokenCache w.

(** The response interceptor never touches a token cache, the cookie or the
    backend address. *)
Definition tokens_frame (w w' : World) : Prop :=
  authTokenCache w' = authTokenCache w
  /\ csrfTokenCache_utils w' = csrfTokenCache_utils w
  /\ csrfTokenCache_axios w' = csrfTokenCache_axios w
  /\ document_cookie w' = document_cookie w
  /\ baseURL w' = baseURL w.

(** The request of one attempt. *)
Definition token_request (csrfToken : option string) (w : World) : Effect :=
  Fetch (baseURL w +:+ "/auth/get-token")
    (Js.if_truthy csrfToken (fun t => {[ "X-CSRF-Token" := t ]}) ∅).

(** A cookie string in which [getCookieByName "XSRF-TOKEN"] finds the token [v]:
    the first cookie with that key carries a value that decodes to [v]. *)
Definition cookie_holds (cookie_string : string) (v : string) : Prop :=
  exists before c after,
    Js.split "; " cookie_string = before ++ c :: after
    /\ Forall (fun c' => cookie_key c' ≠ Some "XSRF-TOKEN") before
    /\ cookie_key c = Some "XSRF-TOKEN"
    /\ Js.decodeURIComponent (default "undefined" (cookie_value c)) = Some v.

(** No cookie has the key [XSRF-TOKEN]. *)
Definition cookie_missing (cookie_string : string) : Prop :=
  Forall (fun c => cookie_key c ≠ Some "XSRF-TOKEN") (Js.split "; " cookie_string).

(** What one copy of [getCsrfToken], with its cache, does. *)
Definition csrf_lookup_contract (getCsrfToken : Task (option string))
    (cache : World -> option string) (set_cache : option string -> World -> World)
  : Prop :=
  (* cached: returned as it is; the cookie is not read *)
  (forall w, Js.truthy (cache w) = true ->
     getCsrfToken w
     = (Normal (cache w), emit (ConsoleLog "Returning cached CSRF token:") w))
  (* not cached, cookie present: decoded, cached and returned *)
  /\ (forall w v, Js.truthy (cache w) = false ->
        cookie_holds (document_cookie w) v -> v ≠ "" ->
        getCsrfToken w
        = (Normal (Some v),
           emit (ConsoleLog "Extracted CSRF token from cookies:")
             (set_cache (Some v) (emit CookieRead w))))
  (* not cached, cookie missing: absent, logged, nothing thrown or cached *)
  /\ (forall w, Js.truthy (cache w) = false ->
        cookie_missing (document_cookie w) ->
        getCsrfToken w
        = (Normal None,
           emit (ConsoleError "CSRF token not found in cookies")
             (emit CookieRead w)))
  (* once this copy has returned a token, each later call of it is a cache hit *)
  /\ (forall w t w1, getCsrfToken w = (Normal (Some t), w1) ->
        forall evs w2, run evs w1 = Some w2 ->
        getCsrfToken w2
        = (Normal (Some t), emit (ConsoleLog "Returning cached CSRF token:") w2)).

Definition cookie_reads (w : World) : nat := count is_cookie_read (trace w).

(** The number of copies of [getCsrfToken] whose cache holds a token. *)
Definition cached_copies (w : World) : nat :=
  (if Js.truthy (csrfTokenCache_utils w) then 1 else 0)
  + (if Js.truthy (csrfTokenCache_axios w) then 1 else 0).

(** From [w] to [w'] the cookie is read once for each cache that is filled.
    [v] is the token the cookie holds. *)
Definition reads_fill_caches (v : string) (w w' : World) : Prop :=
  cookie_holds (document_cookie w) v ->
  document_cookie w' = document_cookie w
  /\ cookie_reads w' + cached_copies w = cookie_reads w + cached_copies w'.

(** What holds of the coordinator's state in every world the page can reach. *)
Record coordinator_inv (w : World) : Prop := {
  (* a refresh call is awaited exactly while [isRefreshing] is set, and then
     by one handler only *)
  inv_single_flight :
    length (awaiting_refresh w) = if isRefreshing w then 1 else 0;
  (* promises are numbered below [promises w] *)
  inv_queue_bound : Forall (fun p => p < promises w) (failedQueue w);
  inv_awaiting_bound :
    Forall (fun s => handler_promise s < promises w) (awaiting_refresh w);
  inv_trace_bound :
    Forall (fun e => forall p, settles e = Some p -> p < promises w) (trace w);
  (* a queued promise is still pending and is not the awaiting handler's *)
  inv_queue_pending : Forall (fun p => settled p (trace w) = false) (failedQueue w);
  inv_queue_apart :
    Forall (fun s => handler_promise s ∉ failedQueue w) (awaiting_refresh w);
  (* the request of an awaiting handler is marked as retried *)
  inv_awaiting_retried :
    Forall (fun s => _retry (config (handler_error s)) = true) (awaiting_refresh w);
}.

(** The refresh call rejects, or its response has no body to destructure. *)
Definition refresh_fails (result : PostResult) : bool :=
  match result with
  | PostRejected | PostFulfilled DataNullish => true
  | PostFulfilled (DataObject _) => false
  end.

(** A refresh call answered with an object without (non-empty) token. *)
Definition tokenless (ev : Event) : bool :=
  match ev with
  | RefreshSettled _ (PostFulfilled (DataObject token)) => negb (Js.truthy token)
  | _ => false
  end.

Definition is_navigate (a : PrivateRoute.Action) : bool :=
  match a with PrivateRoute.Navigate _ => true | _ => false end.

Definition is_get (a : PrivateRoute.Action) : bool :=
  match a with PrivateRoute.Get _ _ => true | _ => false end.

(** The answer to the token request with which [fetchToken] returns [t]. *)
Definition token_answer (t : string) : PrivateRoute.GetResult :=
  PrivateRoute.GetFulfilled 200 (DataObject (Some t)).

(** The character [c] does not occur in [s]. *)
Fixpoint lacks (c : ascii) (s : string) : bool :=
  match s with
  | EmptyString => true
  | String a rest => negb (Ascii.eqb a c) && lacks c rest
  end.

(** The first cookie with the key [XSRF-TOKEN] carries a value that
    [decodeURIComponent] rejects. *)
Definition cookie_malformed (cookie_string : string) : Prop :=
  exists before c after,
    Js.split "; " cookie_string = before ++ c :: after
    /\ Forall (fun c' => cookie_key c' ≠ Some "XSRF-TOKEN") before
    /\ cookie_key c = Some "XSRF-TOKEN"
    /\ Js.decodeURIComponent (default "undefined" (cookie_value c)) = None.

Definition is_timeout (e : Effect) : bool :=
  match e with SetTimeout _ => true | _ => false end.

Definition is_redirect (e : Effect) : bool :=
  match e with LocationAssign _ => true | _ => false end.

(** A refresh call that ends in the [catch] block. *)
Definition is_failed_refresh (ev : Event) : bool :=
  match ev with RefreshSettled _ result => refresh_fails result | _ => false end.

(** How often the trace [t] settles the promise [p]. *)
Definition settlements (p : nat) (t : list Effect) : nat :=
  count (fun e => bool_decide (settles e = Some p)) t.

(** No promise was settled twice, and none that is still waiting -- in the
    queue or for the refresh call -- was settled at all. *)
Record settle_once_inv (w : World) : Prop := {
  once_trace : forall p, settlements p (trace w) <= 1;
  once_queue : NoDup (failedQueue w);
  once_awaiting :
    Forall (fun s => settled (handler_promise s) (trace w) = false)
      (awaiting_refresh w);
}.

(** A refresh call answered with the (non-empty) token [t]. *)
Definition refreshed_with (t : string) (ev : Event) : Prop :=
  t ≠ "" /\ exists k, ev = RefreshSettled k (PostFulfilled (DataObject (Some t))).

(** What holds of a guard however its requests end and whenever it is
    deactivated. *)
Definition guard_inv (g : PrivateRoute.Guard) : Prop :=
  let gets := List.filter is_get (PrivateRoute.actions g) in
  let navigations := List.filter is_navigate (PrivateRoute.actions g) in
  match PrivateRoute.phase g with
  | PrivateRoute.AwaitingToken =>
      length gets = 1 /\ navigations = [] /\ PrivateRoute.isAuthenticated g = None
  | PrivateRoute.AwaitingCheck =>
      length gets = 2 /\ navigations = [] /\ PrivateRoute.isAuthenticated g = None
  | PrivateRoute.Finished =>
      length gets <= 2
      /\ match PrivateRoute.isAuthenticated g with
         | Some true => length gets = 2 /\ navigations = []
         | Some false => navigations = [PrivateRoute.Navigate "/login"]
         | None => length navigations <= 1
         end
  end.

(** The requests a suspended call of [getAuthToken] can still make. *)
Definition fetches_left (call : TokenCall) : nat :=
  match call_waiting call with
  | ForFetch => AuthTokenUtils.maxRetries - S (call_attempt call)
  | ForTimer => AuthTokenUtils.maxRetries - call_attempt call
  end.

Definition fetches_due (w : World) : nat :=
  list_sum (map fetches_left (awaiting_token w)).

(** Events in which a call of [getAuthToken] starts. *)
Definition starts_token_call (ev : Event) : bool :=
  match ev with
  | CallGetAuthToken _ _ | TokenCallBegins _ | CallOnRequest _ _ => true
  | _ => false
  end.

(** The request [request] is one that failed with an error of [errors], marked
    as retried and with the token of a refresh as its [Authorization]. *)
Definition replay_of (errors : list AxiosError)
    (request : ExtendedAxiosRequestConfig) : Prop :=
  exists error t,
    In error errors /\ t ≠ ""
    /\ request
       = set_header "Authorization" ("Bearer " +:+ t) (set_retry true (config error)).

(** What the modules send and where they navigate, for the backend at [base]
    and the errors [errors] handed to the response interceptor: the token
    request, with at most the CSRF header; the refresh call; the replay of a
    request that failed; and the login view. *)
Definition well_addressed (base : string) (errors : list AxiosError) (e : Effect) :
    Prop :=
  match e with
  | Fetch url headers =>
      url = base +:+ "/auth/get-token"
      /\ (headers = ∅ \/ exists t, t ≠ "" /\ headers = {[ "X-CSRF-Token" := t ]})
  | Post url => url = base +:+ "/auth/refresh-token"
  | Replayed _ request => replay_of errors request
  | LocationAssign href => href = "/login"
  | _ => True
  end.

(** The handler [s] waits for the refresh call it made for an error of
    [errors], whose request it has marked as retried. *)
Definition awaits_for (errors : list AxiosError) (s : Suspended) : Prop :=
  exists error,
    In error errors
    /\ handler_error s = set_config (set_retry true (config error)) error.

(** The errors with which the trace [t] rejects promises, in order. *)
Definition rejections (t : list Effect) : list AxiosError :=
  omap (fun e => match e with Rejected _ error => Some error | _ => None end) t.

(** The errors the events [evs] hand to the response interceptor, in order. *)
Definition response_errors (evs : list Event) : list AxiosError :=
  omap (fun ev => match ev with ResponseError error => Some error | _ => None end) evs.

(** No error of [evs] is an expired session on a request not yet retried. *)
Definition no_expiry (evs : list Event) : Prop :=
  Forall (fun error => refresh_condition error = false) (response_errors evs).

(** Reading a field of an updated world. *)
Ltac wsimpl :=
  cbn [emit emit_all set_trace set_location_href set_authTokenCache
    set_csrfTokenCache_utils set_csrfTokenCache_axios set_isRefreshing
    set_failedQueue set_defaults_headers set_awaiting_refresh set_awaiting_token
    set_promises baseURL document_cookie location_href authTokenCache
    csrfTokenCache_utils csrfTokenCache_axios isRefreshing failedQueue
    defaults_headers awaiting_refresh awaiting_token promises trace fst snd].

(** The same for an equation between worlds a few updates deep: the updates are
    unfolded to records first. *)
Ltac wunfold :=
  unfold emit, emit_all, set_trace, set_location_href, set_authTokenCache,
    set_csrfTokenCache_utils, set_csrfTokenCache_axios, set_isRefreshing,
    set_failedQueue, set_defaults_headers, set_awaiting_refresh,
    set_awaiting_token, set_promises;
  wsimpl.

(** For a scenario [exists w, run evs (page_load ..) = Some w /\ ..]: runs the
    events, gives the world reached as the witness and records, as [Hreach],
    that the page can reach it. *)
Ltac run_scenario Hreach :=
  lazymatch goal with
  | |- exists w, run ?evs (page_load ?b ?c ?h) = Some w /\ _ =>
      let r := eval vm_compute in (run evs (page_load b c h)) in
      lazymatch r with
      | Some ?w1 =>
          exists w1; split; [vm_compute; reflexivity|];
          assert (Hreach : reachable w1)
            by (exists b, c, h, evs; vm_compute; reflexivity)
      end
  end.

(** Arithmetic on the requests suspended calls can still make. *)
Ltac fetch_lia :=
  unfold fetches_left in *; cbn [call_waiting call_attempt] in *;
  change AuthTokenUtils.maxRetries with 2 in *; lia.

(** * Properties *)

(** ** Examples of the JavaScript primitives *)

Example split_cookies :
  Js.split "; " "a=1; XSRF-TOKEN=abc123; b=" = ["a=1"; "XSRF-TOKEN=abc123"; "b="].
Proof. reflexivity. Qed.

Example split_keeps_every_piece :
  Js.split "=" "k=v=w" = ["k"; "v"; "w"] /\ Js.split "=" "k" = ["k"]
  /\ Js.split "; " "" = [""].
Proof. repeat split; reflexivity. Qed.

Example decode_escapes :
  Js.decodeURIComponent "abc%20123%2F" = Some "abc 123/"
  /\ Js.decodeURIComponent "%C3%A9"
     = Some (String (ascii_of_N 195) (String (ascii_of_N 169) ""))
  /\ Js.decodeURIComponent "abc%" = None
  /\ Js.decodeURIComponent "%zz" = None
  /\ Js.decodeURIComponent "%E9" = None
  /\ Js.decodeURIComponent "%C0%80" = None.
Proof. repeat split; reflexivity. Qed.

Lemma truthy_Some (s : string) : s ≠ "" -> Js.truthy (Some s) = true.
Proof.
  intros Hs. simpl. destruct (String.eqb_spec s ""); [contradiction | reflexivity].
Qed.

Lemma truthy_inv (v : option string) :
  Js.truthy v = true -> exists s, v = Some s /\ s ≠ "".
Proof.
  destruct v as [s|]; simpl; [|discriminate].
  destruct (String.eqb_spec s ""); [discriminate|]. eauto.
Qed.

Lemma if_truthy_true {A} (v : option string) (s : string) (f : string -> A) (o : A) :
  v = Some s -> s ≠ "" -> Js.if_truthy v f o = f s.
Proof. intros -> Hs. unfold Js.if_truthy. by rewrite truthy_Some. Qed.

Lemma if_truthy_false {A} (v : option string) (f : string -> A) (o : A) :
  Js.truthy v = false -> Js.if_truthy v f o = o.
Proof. intros Hv. unfold Js.if_truthy. destruct v; [by rewrite Hv | done]. Qed.

(** ** Frames: what a piece of code leaves alone *)

Section Frames.
Variable R : World -> World -> Prop.
Hypothesis R_refl : forall w, R w w.
Hypothesis R_trans : forall w1 w2 w3, R w1 w2 -> R w2 w3 -> R w1 w3.

#[local] Abbreviation keeps := (keeps R).

Lemma keeps_ret {A} (a : A) : keeps (ret a).
Proof. intros w. apply R_refl. Qed.

Lemma keeps_bind {A B} (c : Task A) (k : A -> Task B) :
  keeps c -> (forall a, keeps (k a)) -> keeps (bind c k).
Proof.
  intros Hc Hk w. unfold bind. specialize (Hc w).
  destruct (c w) as [[a|e] w1]; simpl in *; [|done].
  eapply R_trans; [exact Hc | apply Hk].
Qed.

Lemma keeps_try_catch {A} (body : Task A) (handler : Js.Exn -> Task A) :
  keeps body -> (forall e, keeps (handler e)) -> keeps (try_catch body handler).
Proof.
  intros Hb Hh w. unfold try_catch. specialize (Hb w).
  destruct (body w) as [[a|e] w1]; simpl in *; [done|].
  eapply R_trans; [exact Hb | apply Hh].
Qed.
End Frames.

Lemma token_frame_refl w : token_frame w w.
Proof. repeat split. exists []. by rewrite app_nil_r. Qed.

Lemma token_frame_trans w1 w2 w3 :
  token_frame w1 w2 -> token_frame w2 w3 -> token_frame w1 w3.
Proof.
  intros (?&?&?&?&?&?&?&?&es1&Ht1&He1) (?&?&?&?&?&?&?&?&es2&Ht2&He2).
  repeat split; try congruence.
  exists (es1 ++ es2). rewrite Ht2, Ht1, app_assoc. split; [done|].
  by rewrite forallb_app, He1, He2.
Qed.

Lemma csrf_frame_refl w : csrf_frame w w.
Proof. done. Qed.

Lemma csrf_frame_trans w1 w2 w3 :
  csrf_frame w1 w2 -> csrf_frame w2 w3 -> csrf_frame w1 w3.
Proof. intros [? ?] [? ?]. split; congruence. Qed.

Lemma token_frame_emit (e : Effect) w : token_effect e = true -> token_frame w (emit e w).
Proof.
  intros He. repeat split. exists [e]. split; [done|]. simpl. by rewrite He.
Qed.

(** ** The CSRF lookup *)

Lemma find_cookie_absent (name : string) (cookies : list string) :
  Forall (fun c => cookie_key c ≠ Some name) cookies ->
  find_cookie name cookies = Normal None.
Proof.
  induction 1 as [|c cookies Hc _ IH]; simpl; [done|].
  unfold cookie_key in Hc. by rewrite bool_decide_eq_false_2.
Qed.

Lemma find_cookie_present (name : string) (before after : list string) (c : string) :
  Forall (fun c => cookie_key c ≠ Some name) before ->
  cookie_key c = Some name ->
  find_cookie name (before ++ c :: after)
  = match Js.decodeURIComponent (default "undefined" (cookie_value c)) with
    | Some v => Normal (Some v)
    | None => Throw Js.URIError
    end.
Proof.
  intros Hb Hc. induction Hb as [|b before Hk _ IH]; simpl.
  - unfold cookie_key in Hc. by rewrite bool_decide_eq_true_2.
  - unfold cookie_key in Hk. by rewrite bool_decide_eq_false_2.
Qed.

Section CsrfLookupFacts.
Variable csrfTokenCache : World -> option string.
Variable set_csrfTokenCache : option string -> World -> World.
Hypothesis get_set : forall v w, csrfTokenCache (set_csrfTokenCache v w) = v.
Hypothesis get_emit : forall es w, csrfTokenCache (emit_all es w) = csrfTokenCache w.

#[local] Abbreviation getCsrfToken := (getCsrfToken_in csrfTokenCache set_csrfTokenCache).

Lemma getCsrfToken_in_hit w :
  Js.truthy (csrfTokenCache w) = true ->
  getCsrfToken w
  = (Normal (csrfTokenCache w), emit (ConsoleLog "Returning cached CSRF token:") w).
Proof.
  intros Hc. unfold getCsrfToken_in, bind, gets. simpl. by rewrite Hc.
Qed.

Lemma getCsrfToken_in_miss w :
  Js.truthy (csrfTokenCache w) = false ->
  getCsrfToken w
  = match find_cookie "XSRF-TOKEN" (Js.split "; " (document_cookie w)) with
    | Normal v =>
        if Js.truthy v
        then (Normal v,
              emit (ConsoleLog "Extracted CSRF token from cookies:")
                (set_csrfTokenCache v (emit CookieRead w)))
        else (Normal None,
              emit (ConsoleError "CSRF token not found in cookies")
                (emit CookieRead w))
    | Throw e => (Throw e, emit CookieRead w)
    end.
Proof.
  intros Hc. unfold getCsrfToken_in, bind, gets, getCookieByName. simpl.
  rewrite Hc.
  destruct (find_cookie _ _) as [v|e]; [|done].
  destruct (Js.truthy v); [|done].
  unfold modify, perform, modify, ret. simpl.
  unfold emit at 1. by rewrite get_emit, get_set.
Qed.
End CsrfLookupFacts.

Lemma utils_getCsrfToken_hit w :
  Js.truthy (csrfTokenCache_utils w) = true ->
  AuthTokenUtils.getCsrfToken w
  = (Normal (csrfTokenCache_utils w), emit (ConsoleLog "Returning cached CSRF token:") w).
Proof. apply getCsrfToken_in_hit. Qed.

Lemma utils_getCsrfToken_miss w :
  Js.truthy (csrfTokenCache_utils w) = false ->
  AuthTokenUtils.getCsrfToken w
  = match find_cookie "XSRF-TOKEN" (Js.split "; " (document_cookie w)) with
    | Normal v =>
        if Js.truthy v
        then (Normal v,
              emit (ConsoleLog "Extracted CSRF token from cookies:")
                (set_csrfTokenCache_utils v (emit CookieRead w)))
        else (Normal None,
              emit (ConsoleError "CSRF token not found in cookies")
                (emit CookieRead w))
    | Throw e => (Throw e, emit CookieRead w)
    end.
Proof. apply getCsrfToken_in_miss; done. Qed.

Lemma axios_getCsrfToken_hit w :
  Js.truthy (csrfTokenCache_axios w) = true ->
  AxiosInstance.getCsrfToken w
  = (Normal (csrfTokenCache_axios w), emit (ConsoleLog "Returning cached CSRF token:") w).
Proof. apply getCsrfToken_in_hit. Qed.

Lemma axios_getCsrfToken_miss w :
  Js.truthy (csrfTokenCache_axios w) = false ->
  AxiosInstance.getCsrfToken w
  = match find_cookie "XSRF-TOKEN" (Js.split "; " (document_cookie w)) with
    | Normal v =>
        if Js.truthy v
        then (Normal v,
              emit (ConsoleLog "Extracted CSRF token from cookies:")
                (set_csrfTokenCache_axios v (emit CookieRead w)))
        else (Normal None,
              emit (ConsoleError "CSRF token not found in cookies")
                (emit CookieRead w))
    | Throw e => (Throw e, emit CookieRead w)
    end.
Proof. apply getCsrfToken_in_miss; done. Qed.

(** Either lookup leaves the coordinator and the auth token cache alone. *)
Lemma utils_getCsrfToken_frame w :
  let w' := snd (AuthTokenUtils.getCsrfToken w) in
  token_frame w w' /\ auth_frame w w'
  /\ csrfTokenCache_axios w' = csrfTokenCache_axios w.
Proof.
  unfold token_frame, auth_frame.
  destruct (Js.truthy (csrfTokenCache_utils w)) eqn:Hc.
  - rewrite utils_getCsrfToken_hit by done. wsimpl. repeat split. eauto.
  - rewrite utils_getCsrfToken_miss by done.
    destruct (find_cookie _ _) as [v|e]; [destruct (Js.truthy v)|]; wsimpl;
      repeat split; rewrite <- ?app_assoc; eauto.
Qed.

Lemma axios_getCsrfToken_frame w :
  let w' := snd (AxiosInstance.getCsrfToken w) in
  token_frame w w' /\ auth_frame w w'
  /\ csrfTokenCache_utils w' = csrfTokenCache_utils w.
Proof.
  unfold token_frame, auth_frame.
  destruct (Js.truthy (csrfTokenCache_axios w)) eqn:Hc.
  - rewrite axios_getCsrfToken_hit by done. wsimpl. repeat split. eauto.
  - rewrite axios_getCsrfToken_miss by done.
    destruct (find_cookie _ _) as [v|e]; [destruct (Js.truthy v)|]; wsimpl;
      repeat split; rewrite <- ?app_assoc; eauto.
Qed.

(** ** getAuthToken *)

Lemma try_fetch_fails csrfToken answer w :
  attempt_fails answer = true ->
  exists e, AuthTokenUtils.try_fetch csrfToken answer w
            = (Throw e, emit (token_request csrfToken w) w).
Proof.
  intros Hf. unfold AuthTokenUtils.try_fetch, bind, gets, perform, modify, throw.
  destruct answer as [|[] body]; simpl in *; eauto.
  destruct body; simpl in *; eauto. discriminate.
Qed.

Lemma try_fetch_cases csrfToken answer w :
  (attempt_fails answer = true
   /\ exists e, AuthTokenUtils.try_fetch csrfToken answer w
                = (Throw e, emit (token_request csrfToken w) w))
  \/ (exists token, answer = FetchResponse true (JsonObject token)
      /\ AuthTokenUtils.try_fetch csrfToken answer w
         = (Normal token,
            set_authTokenCache token (emit (token_request csrfToken w) w))).
Proof.
  destruct (attempt_fails answer) eqn:Hf.
  - left. split; [done|]. by apply try_fetch_fails.
  - right. destruct answer as [|[] []]; try discriminate. eauto.
Qed.

(** The loop touches the auth token cache and the trace, nothing else. *)
Lemma try_fetch_frame csrfToken answer w :
  let w' := snd (AuthTokenUtils.try_fetch csrfToken answer w) in
  token_frame w w' /\ csrf_frame w w'.
Proof.
  unfold token_frame, csrf_frame.
  destruct (try_fetch_cases csrfToken answer w) as [[_ [e ->]]|[token [_ ->]]];
    wsimpl; repeat split; eauto.
Qed.

Lemma emit_as_emit_all (e : Effect) (w : World) : emit e w = emit_all [e] w.
Proof. reflexivity. Qed.

Lemma emit_all_emit_all (es1 es2 : list Effect) (w : World) :
  emit_all es2 (emit_all es1 w) = emit_all (es1 ++ es2) w.
Proof. wunfold. by rewrite app_assoc. Qed.

Lemma after_failure_retries attempt retryDelay w :
  (attempt <? AuthTokenUtils.maxRetries)%nat = true ->
  AuthTokenUtils.after_failure attempt retryDelay w
  = (Normal true,
     emit_all
       [ ConsoleError ("Attempt " +:+ pretty attempt +:+ " - Error fetching token:");
         ConsoleLog ("Retrying in " +:+ pretty retryDelay +:+ "ms...");
         SetTimeout retryDelay ] w).
Proof.
  intros Hlt. unfold AuthTokenUtils.after_failure, bind, perform, modify, ret.
  rewrite Hlt. by rewrite !emit_as_emit_all, !emit_all_emit_all.
Qed.

Lemma after_failure_stops attempt retryDelay w :
  (attempt <? AuthTokenUtils.maxRetries)%nat = false ->
  AuthTokenUtils.after_failure attempt retryDelay w
  = (Normal false,
     emit (ConsoleError ("Attempt " +:+ pretty attempt
                         +:+ " - Error fetching token:")) w).
Proof.
  intros Hlt. unfold AuthTokenUtils.after_failure, bind, perform, modify, ret.
  by rewrite Hlt.
Qed.

Lemma retry_loop_frame remaining : forall attempt csrfToken retryDelay server,
  keeps (fun w w' => token_frame w w' /\ csrf_frame w w')
    (AuthTokenUtils.retry_loop remaining attempt csrfToken retryDelay server).
Proof.
  assert (Hrefl : forall w, token_frame w w /\ csrf_frame w w)
    by (split; [apply token_frame_refl | apply csrf_frame_refl]).
  assert (Htrans : forall w1 w2 w3,
             token_frame w1 w2 /\ csrf_frame w1 w2 ->
             token_frame w2 w3 /\ csrf_frame w2 w3 ->
             token_frame w1 w3 /\ csrf_frame w1 w3)
    by (intros ??? [??] [??]; split;
          [eapply token_frame_trans | eapply csrf_frame_trans]; eassumption).
  assert (Hperform : forall e, token_effect e = true ->
             keeps (fun w w' => token_frame w w' /\ csrf_frame w w') (perform e)).
  { intros e He w. split; [by apply token_frame_emit | done]. }
  induction remaining as [|remaining IH]; intros attempt csrfToken retryDelay server;
    simpl.
  - unfold AuthTokenUtils.after_loop. apply keeps_bind; auto using keeps_ret.
  - apply keeps_try_catch; auto.
    + intros w. apply try_fetch_frame.
    + intros e. apply keeps_bind; auto.
      unfold AuthTokenUtils.after_failure. apply keeps_bind; auto. intros _.
      destruct (_ <? _)%nat; auto using keeps_ret.
      apply keeps_bind; auto. intros _. apply keeps_bind; auto using keeps_ret.
Qed.

Lemma getAuthToken_cached retryDelay server w t :
  authTokenCache w = Some t -> t ≠ "" ->
  AuthTokenUtils.getAuthToken retryDelay server w = (Normal (Some t), w).
Proof.
  intros Hc Ht. unfold AuthTokenUtils.getAuthToken, bind, gets.
  by rewrite Hc, truthy_Some.
Qed.

Lemma getAuthToken_uncached retryDelay server w :
  Js.truthy (authTokenCache w) = false ->
  AuthTokenUtils.getAuthToken retryDelay server w
  = match AuthTokenUtils.getCsrfToken w with
    | (Normal csrfToken, w1) =>
        AuthTokenUtils.retry_loop AuthTokenUtils.maxRetries 0 csrfToken retryDelay
          server w1
    | (Throw e, w1) => (Throw e, w1)
    end.
Proof.
  intros Hc. unfold AuthTokenUtils.getAuthToken, bind, gets. by rewrite Hc.
Qed.

Lemma getAuthToken_frame retryDelay server w :
  let w' := snd (AuthTokenUtils.getAuthToken retryDelay server w) in
  token_frame w w'
  /\ csrfTokenCache_axios w' = csrfTokenCache_axios w
  /\ (Js.truthy (csrfTokenCache_utils w) = true ->
      csrfTokenCache_utils w' = csrfTokenCache_utils w)
  /\ (Js.truthy (authTokenCache w) = true -> w' = w).
Proof.
  destruct (Js.truthy (authTokenCache w)) eqn:Hc.
  - destruct (truthy_inv _ Hc) as (t & Ht & Hne).
    rewrite (getAuthToken_cached _ _ _ _ Ht Hne). simpl.
    split; [apply token_frame_refl | auto].
  - rewrite getAuthToken_uncached by done.
    pose proof (utils_getCsrfToken_frame w) as (Hf & _ & Hax).
    assert (Hhit : Js.truthy (csrfTokenCache_utils w) = true ->
                   csrfTokenCache_utils (snd (AuthTokenUtils.getCsrfToken w))
                   = csrfTokenCache_utils w).
    { intros Hu. by rewrite utils_getCsrfToken_hit. }
    destruct (AuthTokenUtils.getCsrfToken w) as [[csrfToken|e] w1];
      cbv zeta in *; cbn [snd] in *.
    + pose proof (retry_loop_frame AuthTokenUtils.maxRetries 0 csrfToken retryDelay
                    server w1) as [Hl [Hu Ha]].
      split; [eapply token_frame_trans; eassumption|].
      split; [congruence|]. split; [|done].
      intros Htr. rewrite Hu. auto.
    + split; [done|]. split; [done|]. split; [done|]. done.
Qed.

(** What a call returns, when truthy, is what the cache then holds. *)
Lemma retry_loop_result remaining : forall attempt csrfToken retryDelay server w v w',
  AuthTokenUtils.retry_loop remaining attempt csrfToken retryDelay server w
  = (Normal v, w') ->
  Js.truthy v = true -> authTokenCache w' = v.
Proof.
  induction remaining as [|remaining IH]; intros attempt csrfToken retryDelay server
    w v w'; simpl.
  - unfold bind, perform, modify, ret. intros [= <- <-]. discriminate.
  - unfold try_catch.
    destruct (try_fetch_cases csrfToken (server attempt) w)
      as [[_ [e ->]]|[token [_ ->]]].
    + unfold AuthTokenUtils.after_failure, bind, perform, ret.
      destruct (_ <? _)%nat; simpl; apply IH.
    + intros [= <- <-]. done.
Qed.

Lemma getAuthToken_result retryDelay server w v w' :
  AuthTokenUtils.getAuthToken retryDelay server w = (Normal v, w') ->
  Js.truthy v = true -> authTokenCache w' = v.
Proof.
  destruct (Js.truthy (authTokenCache w)) eqn:Hc.
  - destruct (truthy_inv _ Hc) as (t & Ht & Hne).
    rewrite (getAuthToken_cached _ _ _ _ Ht Hne). by intros [= <- <-].
  - rewrite getAuthToken_uncached by done.
    destruct (AuthTokenUtils.getCsrfToken w) as [[csrfToken|e] w1]; [|done].
    apply retry_loop_result.
Qed.

Lemma count_app (f : Effect -> bool) (t1 t2 : list Effect) :
  count f (t1 ++ t2) = count f t1 + count f t2.
Proof. unfold count. by rewrite List.filter_app, length_app. Qed.

Lemma count_token_effects (f : Effect -> bool) (es : list Effect) :
  (forall e, token_effect e = true -> f e = false) ->
  forallb token_effect es = true -> count f es = 0.
Proof.
  intros Hf. induction es as [|e es IH]; [done|]. simpl.
  intros [He Hes]%andb_true_iff. unfold count in *. simpl.
  rewrite (Hf e He). auto.
Qed.

Lemma utils_getCsrfToken_no_fetch w :
  count is_fetch (trace (snd (AuthTokenUtils.getCsrfToken w)))
  = count is_fetch (trace w).
Proof.
  destruct (Js.truthy (csrfTokenCache_utils w)) eqn:Hc.
  - rewrite utils_getCsrfToken_hit by done. wsimpl. rewrite count_app.
    unfold count. simpl. lia.
  - rewrite utils_getCsrfToken_miss by done.
    destruct (find_cookie _ _) as [v|e]; [destruct (Js.truthy v)|]; wsimpl;
      rewrite !count_app; unfold count; simpl; lia.
Qed.

(** C4.  With an empty auth token cache and a backend whose every answer
    fails, [getAuthToken] makes exactly two requests to the token endpoint
    (never more than two), waits [retryDelay] once, between the first and
    the second attempt and not after the second, and returns [null]
    ([Normal None]) instead of throwing.  The effects are listed in full, from
    the world [w1] in which the CSRF lookup ended.  (When the CSRF lookup itself
    raises -- a malformed cookie escape -- no attempt is made at all.) *)
Theorem getAuthToken_gives_up_after_two_attempts
    (retryDelay : Z) (server : nat -> FetchOutcome) (w : World) :
  Js.truthy (authTokenCache w) = false ->
  (forall k, attempt_fails (server k) = true) ->
  match AuthTokenUtils.getCsrfToken w with
  | (Normal csrfToken, w1) =>
      AuthTokenUtils.getAuthToken retryDelay server w
      = (Normal None,
         emit_all
           [ token_request csrfToken w1;
             ConsoleError "Attempt 1 - Error fetching token:";
             ConsoleLog ("Retrying in " +:+ pretty retryDelay +:+ "ms...");
             SetTimeout retryDelay;
             token_request csrfToken w1;
             ConsoleError "Attempt 2 - Error fetching token:";
             ConsoleError "Max retries reached. Could not fetch token." ] w1)
      /\ count is_fetch (trace (snd (AuthTokenUtils.getAuthToken retryDelay server w)))
         = count is_fetch (trace w) + 2
  | (Throw e, w1) =>
      AuthTokenUtils.getAuthToken retryDelay server w = (Throw e, w1)
      /\ count is_fetch (trace w1) = count is_fetch (trace w)
  end.
Proof.
  intros Hcache Hfail.
  rewrite getAuthToken_uncached by done.
  pose proof (utils_getCsrfToken_no_fetch w) as Hcsrf.
  destruct (AuthTokenUtils.getCsrfToken w) as [[csrfToken|e] w1];
    cbn [snd] in Hcsrf; [|done].
  assert (Hloop :
    AuthTokenUtils.retry_loop AuthTokenUtils.maxRetries 0 csrfToken retryDelay
      server w1
    = (Normal None,
       emit_all
         [ token_request csrfToken w1;
           ConsoleError "Attempt 1 - Error fetching token:";
           ConsoleLog ("Retrying in " +:+ pretty retryDelay +:+ "ms...");
           SetTimeout retryDelay;
           token_request csrfToken w1;
           ConsoleError "Attempt 2 - Error fetching token:";
           ConsoleError "Max retries reached. Could not fetch token." ] w1)).
  { cbn [AuthTokenUtils.retry_loop AuthTokenUtils.maxRetries].
    unfold try_catch at 1.
    destruct (try_fetch_fails csrfToken (server 0) w1 (Hfail 0)) as [e1 ->].
    unfold bind at 1. rewrite after_failure_retries by done.
    unfold try_catch at 1.
    match goal with
    | |- context [AuthTokenUtils.try_fetch csrfToken (server 1) ?w2] =>
        destruct (try_fetch_fails csrfToken (server 1) w2 (Hfail 1)) as [e2 ->]
    end.
    unfold bind at 1. rewrite after_failure_stops by done.
    unfold AuthTokenUtils.after_loop, bind, perform, modify, ret.
    rewrite !emit_as_emit_all, !emit_all_emit_all. reflexivity. }
  rewrite Hloop. split; [done|]. cbn [snd]. wsimpl.
  rewrite count_app, Hcsrf. reflexivity.
Qed.

(** The spec's scenario: [/auth/get-token] fails twice. *)
Lemma getAuthToken_gives_up_scenario :
  let w := page_load "http://localhost:3000" "XSRF-TOKEN=abc123" "/" in
  let request :=
    Fetch "http://localhost:3000/auth/get-token" {[ "X-CSRF-Token" := "abc123" ]} in
  Js.truthy (authTokenCache w) = false
  /\ fst (AuthTokenUtils.getAuthToken 1000 (fun _ => FetchRejected) w) = Normal None
  /\ trace (snd (AuthTokenUtils.getAuthToken 1000 (fun _ => FetchRejected) w))
     = [ CookieRead; ConsoleLog "Extracted CSRF token from cookies:";
         request; ConsoleError "Attempt 1 - Error fetching token:";
         ConsoleLog "Retrying in 1000ms..."; SetTimeout 1000;
         request; ConsoleError "Attempt 2 - Error fetching token:";
         ConsoleError "Max retries reached. Could not fetch token." ].
Proof.
  pose proof (getAuthToken_gives_up_after_two_attempts 1000
                (fun _ => FetchRejected)
                (page_load "http://localhost:3000" "XSRF-TOKEN=abc123" "/")
                eq_refl (fun _ => eq_refl)) as H.
  cbv zeta. split; [reflexivity|].
  rewrite utils_getCsrfToken_miss in H by reflexivity.
  destruct H as [-> _]. split; reflexivity.
Defined.

(** ** getAuthToken, from one await to the next *)

Lemma loop_head_unfold attempt csrfToken retryDelay w :
  AuthTokenUtils.loop_head attempt csrfToken retryDelay w
  = if (attempt <? AuthTokenUtils.maxRetries)%nat
    then (AuthTokenUtils.Awaits
            {| call_attempt := attempt; call_csrfToken := csrfToken;
               call_retryDelay := retryDelay; call_waiting := ForFetch |},
          emit (token_request csrfToken w) w)
    else (AuthTokenUtils.Returns (Normal None),
          emit (ConsoleError "Max retries reached. Could not fetch token.") w).
Proof. unfold AuthTokenUtils.loop_head. by destruct (_ <? _)%nat. Qed.

Lemma receive_fetch_cases answer w :
  (attempt_fails answer = true
   /\ exists e, AuthTokenUtils.receive_fetch answer w = (Throw e, w))
  \/ (exists token, answer = FetchResponse true (JsonObject token)
      /\ AuthTokenUtils.receive_fetch answer w
         = (Normal token, set_authTokenCache token w)).
Proof.
  destruct answer as [|[] []]; simpl; eauto.
Qed.

Lemma begin_cached retryDelay w t :
  authTokenCache w = Some t -> t ≠ "" ->
  AuthTokenUtils.begin retryDelay w = (AuthTokenUtils.Returns (Normal (Some t)), w).
Proof.
  intros Hc Ht. unfold AuthTokenUtils.begin. by rewrite Hc, truthy_Some.
Qed.

Lemma begin_uncached retryDelay w :
  Js.truthy (authTokenCache w) = false ->
  AuthTokenUtils.begin retryDelay w
  = match AuthTokenUtils.getCsrfToken w with
    | (Normal csrfToken, w1) => AuthTokenUtils.loop_head 0 csrfToken retryDelay w1
    | (Throw e, w1) => (AuthTokenUtils.Returns (Throw e), w1)
    end.
Proof. intros Hc. unfold AuthTokenUtils.begin. by rewrite Hc. Qed.

(** What a resumed call does, case by case. *)
Lemma fetch_settled_succeeds call token w :
  AuthTokenUtils.fetch_settled call (FetchResponse true (JsonObject token)) w
  = (AuthTokenUtils.Returns (Normal token), set_authTokenCache token w).
Proof. reflexivity. Qed.

Lemma fetch_settled_retries call answer w :
  attempt_fails answer = true ->
  (S (call_attempt call) <? AuthTokenUtils.maxRetries)%nat = true ->
  AuthTokenUtils.fetch_settled call answer w
  = (AuthTokenUtils.Awaits
       {| call_attempt := S (call_attempt call);
          call_csrfToken := call_csrfToken call;
          call_retryDelay := call_retryDelay call;
          call_waiting := ForTimer |},
     emit_all
       [ ConsoleError ("Attempt " +:+ pretty (S (call_attempt call))
                       +:+ " - Error fetching token:");
         ConsoleLog ("Retrying in " +:+ pretty (call_retryDelay call) +:+ "ms...");
         SetTimeout (call_retryDelay call) ] w).
Proof.
  intros Hf Hlt. unfold AuthTokenUtils.fetch_settled.
  destruct (receive_fetch_cases answer w) as [[_ [e ->]]|[token [-> _]]];
    [|done].
  cbv zeta. by rewrite after_failure_retries.
Qed.

Lemma fetch_settled_gives_up call answer w :
  attempt_fails answer = true ->
  (S (call_attempt call) <? AuthTokenUtils.maxRetries)%nat = false ->
  AuthTokenUtils.fetch_settled call answer w
  = (AuthTokenUtils.Returns (Normal None),
     emit_all
       [ ConsoleError ("Attempt " +:+ pretty (S (call_attempt call))
                       +:+ " - Error fetching token:");
         ConsoleError "Max retries reached. Could not fetch token." ] w).
Proof.
  intros Hf Hlt. unfold AuthTokenUtils.fetch_settled.
  destruct (receive_fetch_cases answer w) as [[_ [e ->]]|[token [-> _]]];
    [|done].
  cbv zeta. rewrite after_failure_stops, loop_head_unfold, Hlt by done.
  by rewrite !emit_as_emit_all, emit_all_emit_all.
Qed.

Lemma fetch_settled_cases call answer w :
  (exists token,
      answer = FetchResponse true (JsonObject token)
      /\ AuthTokenUtils.fetch_settled call answer w
         = (AuthTokenUtils.Returns (Normal token), set_authTokenCache token w))
  \/ (attempt_fails answer = true
      /\ exists (state : AuthTokenUtils.CallState) (es : list Effect),
           AuthTokenUtils.fetch_settled call answer w = (state, emit_all es w)
           /\ forallb token_effect es = true
           /\ count is_cookie_read es = 0).
Proof.
  destruct (attempt_fails answer) eqn:Hf.
  - right. split; [done|].
    destruct (S (call_attempt call) <? AuthTokenUtils.maxRetries)%nat eqn:Hlt.
    + rewrite fetch_settled_retries by done. by eexists _, _.
    + rewrite fetch_settled_gives_up by done. by eexists _, _.
  - left. destruct answer as [|[] []]; try discriminate. eauto.
Qed.

Lemma retry_loop_unfold remaining attempt csrfToken retryDelay server w :
  AuthTokenUtils.retry_loop (S remaining) attempt csrfToken retryDelay server w
  = match AuthTokenUtils.receive_fetch (server attempt)
            (emit (token_request csrfToken w) w) with
    | (Normal token, w1) => (Normal token, w1)
    | (Throw _, w1) =>
        match AuthTokenUtils.after_failure (S attempt) retryDelay w1 with
        | (Normal _, w2) =>
            AuthTokenUtils.retry_loop remaining (S attempt) csrfToken retryDelay
              server w2
        | (Throw e, w2) => (Throw e, w2)
        end
    end.
Proof. reflexivity. Qed.

Lemma drive_fetch steps server call w :
  call_waiting call = ForFetch ->
  AuthTokenUtils.drive (S steps) server (AuthTokenUtils.Awaits call) w
  = let now := AuthTokenUtils.fetch_settled call (server (call_attempt call)) w in
    AuthTokenUtils.drive steps server (fst now) (snd now).
Proof.
  intros Hw. cbn [AuthTokenUtils.drive]. rewrite Hw.
  by destruct (AuthTokenUtils.fetch_settled _ _ _).
Qed.

Lemma drive_timer steps server call w :
  call_waiting call = ForTimer ->
  AuthTokenUtils.drive (S steps) server (AuthTokenUtils.Awaits call) w
  = let now := AuthTokenUtils.timer_fired call w in
    AuthTokenUtils.drive steps server (fst now) (snd now).
Proof.
  intros Hw. cbn [AuthTokenUtils.drive]. rewrite Hw.
  by destruct (AuthTokenUtils.timer_fired _ _).
Qed.

(** Taken without a break, the pieces make up the call of [getAuthToken]:
    three resumptions are enough. *)
Lemma drive_getAuthToken retryDelay server w :
  AuthTokenUtils.drive 3 server (fst (AuthTokenUtils.begin retryDelay w))
    (snd (AuthTokenUtils.begin retryDelay w))
  = Some (AuthTokenUtils.getAuthToken retryDelay server w).
Proof.
  destruct (Js.truthy (authTokenCache w)) eqn:Hc.
  - destruct (truthy_inv _ Hc) as (t & Ht & Hne).
    by rewrite (begin_cached _ _ _ Ht Hne), (getAuthToken_cached _ _ _ _ Ht Hne).
  - rewrite begin_uncached, getAuthToken_uncached by done.
    destruct (AuthTokenUtils.getCsrfToken w) as [[csrfToken|e] w1]; [|done].
    rewrite loop_head_unfold.
    change AuthTokenUtils.maxRetries with 2. cbn [Nat.ltb Nat.leb fst snd].
    rewrite drive_fetch, !retry_loop_unfold by done. cbv zeta.
    cbn [call_attempt].
    set (w2 := emit (token_request csrfToken w1) w1).
    destruct (attempt_fails (server 0)) eqn:Hf0; cycle 1.
    { destruct (server 0) as [|[] []]; try discriminate.
      by rewrite fetch_settled_succeeds. }
    rewrite fetch_settled_retries by done.
    destruct (receive_fetch_cases (server 0) w2) as [[_ [e ->]]|[token [Hs _]]];
      [|by rewrite Hs in Hf0].
    rewrite after_failure_retries by done.
    cbn [fst snd call_attempt call_csrfToken call_retryDelay].
    rewrite drive_timer by done. unfold AuthTokenUtils.timer_fired.
    cbn [call_attempt call_csrfToken call_retryDelay]. rewrite loop_head_unfold.
    change AuthTokenUtils.maxRetries with 2. cbn [Nat.ltb Nat.leb fst snd].
    cbv zeta. cbn [fst snd].
    rewrite drive_fetch, retry_loop_unfold by done. cbv zeta. cbn [call_attempt].
    match goal with
    | |- context [AuthTokenUtils.receive_fetch (server 1) ?w4] => set (w3 := w4)
    end.
    destruct (attempt_fails (server 1)) eqn:Hf1; cycle 1.
    { destruct (server 1) as [|[] []]; try discriminate.
      by rewrite fetch_settled_succeeds. }
    rewrite fetch_settled_gives_up by done.
    destruct (receive_fetch_cases (server 1) w3) as [[_ [e' ->]]|[token [Hs _]]];
      [|by rewrite Hs in Hf1].
    rewrite after_failure_stops by done.
    cbn [fst snd call_attempt AuthTokenUtils.drive AuthTokenUtils.retry_loop].
    unfold AuthTokenUtils.after_loop, bind, perform, modify, ret.
    by rewrite !emit_as_emit_all, !emit_all_emit_all.
Qed.

(** ** How the page's events treat the token caches *)

(** The request interceptor, step by step. *)
Lemma onRequest_unfold config server w :
  AxiosInstance.onRequest config server w
  = match AxiosInstance.getCsrfToken w with
    | (Normal csrfToken, w1) =>
        match AuthTokenUtils.getAuthToken 1000 server w1 with
        | (Normal authToken, w2) =>
            let config :=
              Js.if_truthy csrfToken
                (fun t => set_header "X-CSRF-Token" t config) config in
            (Normal
               (Js.if_truthy authToken
                  (fun t => set_header "Authorization" ("Bearer " +:+ t) config)
                  config),
             w2)
        | (Throw e, w2) =>
            (Throw e, emit (ConsoleError "Error in request interceptor:") w2)
        end
    | (Throw e, w1) =>
        (Throw e, emit (ConsoleError "Error in request interceptor:") w1)
    end.
Proof.
  unfold AxiosInstance.onRequest, try_catch, bind.
  destruct (AxiosInstance.getCsrfToken w) as [[csrfToken|e] w1]; [|done].
  destruct (AuthTokenUtils.getAuthToken 1000 server w1) as [[authToken|e] w2]; done.
Qed.

Lemma onRequest_frame config server w :
  let w' := snd (AxiosInstance.onRequest config server w) in
  token_frame w w'
  /\ (Js.truthy (authTokenCache w) = true -> authTokenCache w' = authTokenCache w)
  /\ (Js.truthy (csrfTokenCache_utils w) = true ->
      csrfTokenCache_utils w' = csrfTokenCache_utils w)
  /\ (Js.truthy (csrfTokenCache_axios w) = true ->
      csrfTokenCache_axios w' = csrfTokenCache_axios w).
Proof.
  cbv zeta. rewrite onRequest_unfold.
  pose proof (axios_getCsrfToken_frame w) as (Hf & Ha & Hu).
  assert (Hhit : Js.truthy (csrfTokenCache_axios w) = true ->
                 csrfTokenCache_axios (snd (AxiosInstance.getCsrfToken w))
                 = csrfTokenCache_axios w).
  { intros Hx. by rewrite axios_getCsrfToken_hit. }
  destruct (AxiosInstance.getCsrfToken w) as [[csrfToken|e] w1];
    cbv zeta in *; cbn [snd] in *; unfold auth_frame in Ha.
  - pose proof (getAuthToken_frame 1000 server w1) as (Hf2 & Hax2 & Hu2 & Ha2).
    assert (Hframe : forall e w2, token_frame w1 w2 ->
               token_frame w (emit (ConsoleError e) w2)).
    { intros e w2 H12. eapply token_frame_trans; [exact Hf|].
      eapply token_frame_trans; [exact H12|]. by apply token_frame_emit. }
    destruct (AuthTokenUtils.getAuthToken 1000 server w1) as [[authToken|e] w2];
      cbv zeta in *; cbn [snd] in *.
    + split; [eapply token_frame_trans; eassumption|]. split; [|split].
      * intros Ht. rewrite Ha2 by congruence. done.
      * intros Ht. rewrite Hu2 by congruence. done.
      * intros Ht. rewrite Hax2. auto.
    + split; [auto|]. wsimpl. split; [|split].
      * intros Ht. rewrite Ha2 by congruence. done.
      * intros Ht. rewrite Hu2 by congruence. done.
      * intros Ht. rewrite Hax2. auto.
  - split; [|by wsimpl].
    eapply token_frame_trans; [exact Hf|]. by apply token_frame_emit.
Qed.

Lemma onRejected_tokens error w :
  tokens_frame w (snd (AxiosInstance.onRejected error w)).
Proof.
  unfold AxiosInstance.onRejected.
  destruct (_ && _ && _); [destruct (isRefreshing _)|]; done.
Qed.

Lemma resume_tokens s result w :
  tokens_frame w (AxiosInstance.resume s result w).
Proof.
  unfold AxiosInstance.resume, Js.if_truthy.
  destruct result as [|[|[token|]]]; try done.
  destruct (Js.truthy _); done.
Qed.

Lemma coordinator_step_tokens ev w w' :
  is_coordinator_event ev = true -> step ev w = Some w' -> tokens_frame w w'.
Proof.
  destruct ev; try discriminate; intros _; simpl.
  - intros [= <-]. apply onRejected_tokens.
  - destruct (awaiting_refresh w !! k) as [s|]; [|done]. intros [= <-].
    apply (resume_tokens s result (set_awaiting_refresh _ w)).
Qed.

Lemma loop_head_emits attempt csrfToken retryDelay w :
  exists state e,
    AuthTokenUtils.loop_head attempt csrfToken retryDelay w = (state, emit e w)
    /\ token_effect e = true /\ is_cookie_read e = false.
Proof.
  rewrite loop_head_unfold. destruct (_ <? _)%nat; by eexists _, _.
Qed.

Lemma emit_all_frame (es : list Effect) w :
  forallb token_effect es = true -> token_frame w (emit_all es w).
Proof. intros Hes. repeat split. by exists es. Qed.

Lemma begin_frame retryDelay w :
  let w' := snd (AuthTokenUtils.begin retryDelay w) in
  token_frame w w' /\ auth_frame w w'
  /\ csrfTokenCache_axios w' = csrfTokenCache_axios w
  /\ (Js.truthy (csrfTokenCache_utils w) = true ->
      csrfTokenCache_utils w' = csrfTokenCache_utils w).
Proof.
  destruct (Js.truthy (authTokenCache w)) eqn:Hc.
  - destruct (truthy_inv _ Hc) as (t & Ht & Hne).
    rewrite (begin_cached _ _ _ Ht Hne). simpl.
    split; [apply token_frame_refl | done].
  - rewrite begin_uncached by done.
    pose proof (utils_getCsrfToken_frame w) as (Hf & Ha & Hax).
    assert (Hhit : Js.truthy (csrfTokenCache_utils w) = true ->
                   csrfTokenCache_utils (snd (AuthTokenUtils.getCsrfToken w))
                   = csrfTokenCache_utils w).
    { intros Hu. by rewrite utils_getCsrfToken_hit. }
    destruct (AuthTokenUtils.getCsrfToken w) as [[csrfToken|e] w1];
      cbv zeta in *; cbn [snd] in *; [|done].
    destruct (loop_head_emits 0 csrfToken retryDelay w1) as (state & e & -> & He & _).
    cbn [snd]. split; [|done].
    eapply token_frame_trans; [exact Hf | by apply token_frame_emit].
Qed.

Lemma fetch_settled_frame call answer w :
  let w' := snd (AuthTokenUtils.fetch_settled call answer w) in
  token_frame w w' /\ csrf_frame w w'.
Proof.
  destruct (fetch_settled_cases call answer w)
    as [(token & _ & ->)|(_ & state & es & -> & Hes & _)]; cbn [snd].
  - split; [|done]. repeat split. exists []. by rewrite app_nil_r.
  - split; [by apply emit_all_frame | done].
Qed.

Lemma timer_fired_frame call w :
  let w' := snd (AuthTokenUtils.timer_fired call w) in
  token_frame w w' /\ csrf_frame w w' /\ auth_frame w w'.
Proof.
  unfold AuthTokenUtils.timer_fired.
  destruct (loop_head_emits (call_attempt call) (call_csrfToken call)
              (call_retryDelay call) w) as (state & e & -> & He & _).
  cbn [snd]. split; [by apply token_frame_emit | done].
Qed.

(** Which calls of [getAuthToken] are suspended does not matter to a frame. *)
Lemma suspend_or_finish_frame others now w :
  token_frame w (snd now) -> token_frame w (suspend_or_finish others now).
Proof. by destruct now as [[result|call] w1]. Qed.

(** The token functions leave alone what the coordinator works with. *)
Lemma token_step_frame ev w w' :
  is_coordinator_event ev = false -> step ev w = Some w' -> token_frame w w'.
Proof.
  destruct ev as [error|k result|retryDelay server|retryDelay|k answer|k| |
                  |config server]; try discriminate; intros _; simpl.
  - intros [= <-]. apply getAuthToken_frame.
  - intros [= <-]. apply suspend_or_finish_frame, begin_frame.
  - destruct (awaiting_token w !! k) as [call|]; [|done].
    destruct (call_waiting call); [|done]. intros [= <-].
    apply suspend_or_finish_frame, fetch_settled_frame.
  - destruct (awaiting_token w !! k) as [call|]; [|done].
    destruct (call_waiting call); [done|]. intros [= <-].
    apply suspend_or_finish_frame, timer_fired_frame.
  - intros [= <-]. apply utils_getCsrfToken_frame.
  - intros [= <-]. apply axios_getCsrfToken_frame.
  - intros [= <-]. apply onRequest_frame.
Qed.

(** A CSRF cache that holds a token keeps it, whatever happens on the page;
    the auth token cache changes only in events that run [getAuthToken]. *)
Lemma step_token_caches ev w w' :
  step ev w = Some w' ->
  (Js.truthy (csrfTokenCache_utils w) = true ->
   csrfTokenCache_utils w' = csrfTokenCache_utils w)
  /\ (Js.truthy (csrfTokenCache_axios w) = true ->
      csrfTokenCache_axios w' = csrfTokenCache_axios w)
  /\ (calls_getAuthToken ev = false -> authTokenCache w' = authTokenCache w).
Proof.
  destruct ev as [error|k result|retryDelay server|retryDelay|k answer|k| |
                  |config server].
  - intros Hs.
    destruct (coordinator_step_tokens (ResponseError error) _ _ eq_refl Hs)
      as (?&?&?&_).
    auto.
  - intros Hs.
    destruct (coordinator_step_tokens (RefreshSettled k result) _ _ eq_refl Hs)
      as (?&?&?&_).
    auto.
  - simpl. intros [= <-].
    pose proof (getAuthToken_frame retryDelay server w) as (_ & Hax & Hu & Ha).
    cbv zeta in *. repeat split; auto; done.
  - simpl. intros [= <-].
    pose proof (begin_frame retryDelay w) as (_ & _ & Hax & Hu).
    destruct (AuthTokenUtils.begin retryDelay w) as [[result|call] w1];
      cbv zeta in *; cbn [snd] in *; repeat split; auto; done.
  - simpl. destruct (awaiting_token w !! k) as [call|]; [|done].
    destruct (call_waiting call); [|done]. intros [= <-].
    pose proof (fetch_settled_frame call answer w) as (_ & Hu & Hax).
    destruct (AuthTokenUtils.fetch_settled call answer w) as [[result|call'] w1];
      cbv zeta in *; cbn [snd] in *; repeat split; auto; done.
  - simpl. destruct (awaiting_token w !! k) as [call|]; [|done].
    destruct (call_waiting call); [done|]. intros [= <-].
    pose proof (timer_fired_frame call w) as (_ & [Hu Hax] & _).
    destruct (AuthTokenUtils.timer_fired call w) as [[result|call'] w1];
      cbv zeta in *; cbn [snd] in *; repeat split; auto; done.
  - simpl. intros [= <-].
    pose proof (utils_getCsrfToken_frame w) as (_ & Ha & Hax). cbv zeta in *.
    repeat split; auto. intros Ht. by rewrite utils_getCsrfToken_hit.
  - simpl. intros [= <-].
    pose proof (axios_getCsrfToken_frame w) as (_ & Ha & Hu). cbv zeta in *.
    repeat split; auto. intros Ht. by rewrite axios_getCsrfToken_hit.
  - simpl. intros [= <-].
    pose proof (onRequest_frame config server w) as (_ & Ha & Hu & Hax).
    cbv zeta in *. repeat split; auto; done.
Qed.

Lemma run_token_caches evs : forall w w',
  run evs w = Some w' ->
  (Js.truthy (csrfTokenCache_utils w) = true ->
   csrfTokenCache_utils w' = csrfTokenCache_utils w)
  /\ (Js.truthy (csrfTokenCache_axios w) = true ->
      csrfTokenCache_axios w' = csrfTokenCache_axios w).
Proof.
  induction evs as [|ev evs IH]; intros w w'; simpl.
  - intros [= <-]. done.
  - destruct (step ev w) as [w1|] eqn:Hs; [|done]. intros Hr.
    destruct (step_token_caches _ _ _ Hs) as (Hu & Hx & _).
    destruct (IH _ _ Hr) as (Hu' & Hx').
    split; intros Ht.
    + rewrite Hu' by (rewrite Hu; done). auto.
    + rewrite Hx' by (rewrite Hx; done). auto.
Qed.

(** *** The auth token cache once a call has returned *)

(** The token functions of the HTTP client and the coordinator do not know of
    the suspended calls of [getAuthToken]. *)
Lemma utils_getCsrfToken_awaiting w :
  awaiting_token (snd (AuthTokenUtils.getCsrfToken w)) = awaiting_token w.
Proof.
  destruct (Js.truthy (csrfTokenCache_utils w)) eqn:Hc.
  - by rewrite utils_getCsrfToken_hit.
  - rewrite utils_getCsrfToken_miss by done.
    by destruct (find_cookie _ _) as [v|e]; [destruct (Js.truthy v)|].
Qed.

Lemma axios_getCsrfToken_awaiting w :
  awaiting_token (snd (AxiosInstance.getCsrfToken w)) = awaiting_token w.
Proof.
  destruct (Js.truthy (csrfTokenCache_axios w)) eqn:Hc.
  - by rewrite axios_getCsrfToken_hit.
  - rewrite axios_getCsrfToken_miss by done.
    by destruct (find_cookie _ _) as [v|e]; [destruct (Js.truthy v)|].
Qed.

Lemma onRejected_awaiting error w :
  awaiting_token (snd (AxiosInstance.onRejected error w)) = awaiting_token w.
Proof.
  unfold AxiosInstance.onRejected.
  destruct (_ && _ && _); [destruct (isRefreshing _)|]; done.
Qed.

Lemma resume_awaiting s result w :
  awaiting_token (AxiosInstance.resume s result w) = awaiting_token w.
Proof.
  unfold AxiosInstance.resume, Js.if_truthy.
  destruct result as [|[|[token|]]]; try done.
  destruct (Js.truthy _); done.
Qed.

(** While the cache holds a token and no call of [getAuthToken] is suspended,
    no event changes the cache or leaves a call suspended. *)
Lemma step_settled_cache ev w w' T :
  step ev w = Some w' ->
  authTokenCache w = Some T -> T ≠ "" -> awaiting_token w = [] ->
  authTokenCache w' = Some T /\ awaiting_token w' = [].
Proof.
  intros Hs Hc HT Hnone.
  destruct ev as [error|k result|retryDelay server|retryDelay|k answer|k| |
                  |config server]; simpl in Hs.
  - injection Hs as <-.
    destruct (onRejected_tokens error w) as (Ha & _).
    by rewrite Ha, onRejected_awaiting.
  - destruct (awaiting_refresh w !! k) as [s|]; [|done]. injection Hs as <-.
    destruct (resume_tokens s result (set_awaiting_refresh
                                        (delete k (awaiting_refresh w)) w))
      as (Ha & _).
    by rewrite Ha, resume_awaiting.
  - injection Hs as <-. by rewrite (getAuthToken_cached _ _ _ _ Hc HT).
  - injection Hs as <-. by rewrite (begin_cached _ _ _ Hc HT), Hnone.
  - by rewrite Hnone in Hs.
  - by rewrite Hnone in Hs.
  - injection Hs as <-.
    destruct (utils_getCsrfToken_frame w) as (_ & Ha & _).
    by rewrite Ha, utils_getCsrfToken_awaiting.
  - injection Hs as <-.
    destruct (axios_getCsrfToken_frame w) as (_ & Ha & _).
    by rewrite Ha, axios_getCsrfToken_awaiting.
  - injection Hs as <-. rewrite onRequest_unfold.
    pose proof (axios_getCsrfToken_frame w) as (_ & Ha & _).
    pose proof (axios_getCsrfToken_awaiting w) as Hw.
    destruct (AxiosInstance.getCsrfToken w) as [[csrfToken|e] w1];
      cbv zeta in *; cbn [snd] in *; unfold auth_frame in Ha.
    + rewrite (getAuthToken_cached 1000 server w1 T) by congruence.
      cbn [snd]. split; congruence.
    + wsimpl. split; congruence.
Qed.

Lemma run_settled_cache evs : forall w w' T,
  run evs w = Some w' ->
  authTokenCache w = Some T -> T ≠ "" -> awaiting_token w = [] ->
  authTokenCache w' = Some T /\ awaiting_token w' = [].
Proof.
  induction evs as [|ev evs IH]; intros w w' T; simpl.
  - by intros [= <-].
  - destruct (step ev w) as [w1|] eqn:Hs; [|done]. intros Hr Hc HT Hnone.
    destruct (step_settled_cache _ _ _ _ Hs Hc HT Hnone) as [Hc1 Hnone1].
    by apply (IH w1).
Qed.

(** A call that returns a token leaves it in the cache. *)
Lemma call_returns_cached T ev w w' :
  step ev w = Some w' -> call_returns T ev w -> T ≠ "" ->
  authTokenCache w' = Some T.
Proof.
  intros Hs Hret HT.
  destruct ev as [error|k result|retryDelay server|retryDelay|k answer|k| |
                  |config server]; simpl in Hs, Hret; try done.
  - injection Hs as <-.
    destruct (AuthTokenUtils.getAuthToken retryDelay server w) as [r w1] eqn:Hcall.
    cbn [fst snd] in *. subst r.
    by apply (getAuthToken_result _ _ _ _ _ Hcall), truthy_Some.
  - injection Hs as <-.
    destruct (Js.truthy (authTokenCache w)) eqn:Hc.
    + destruct (truthy_inv _ Hc) as (t & Ht & Hne).
      rewrite (begin_cached _ _ _ Ht Hne) in Hret |- *. simpl in *. congruence.
    + rewrite begin_uncached in Hret by done.
      destruct (AuthTokenUtils.getCsrfToken w) as [[csrfToken|e] w1]; [|done].
      rewrite loop_head_unfold in Hret. by destruct (_ <? _)%nat.
  - destruct Hret as (call & Hk & Hret). rewrite Hk in Hs.
    destruct (call_waiting call); [|done]. injection Hs as <-.
    destruct (fetch_settled_cases call answer w)
      as [(token & _ & Hf)|(Hfail & _)].
    + rewrite Hf in Hret |- *. simpl in *. congruence.
    + destruct (S (call_attempt call) <? AuthTokenUtils.maxRetries)%nat eqn:Hlt.
      * by rewrite fetch_settled_retries in Hret.
      * by rewrite fetch_settled_gives_up in Hret.
Qed.

(** C5, as amended.  [getAuthToken] has a caching fast path: when the auth token
    cache holds a (non-empty) token, a call returns that token at once and
    leaves the world as it was -- no request, no effect at all.  Hence, once a
    call has returned a non-empty token [T] at a moment when no other call of
    [getAuthToken] is suspended, every later call, after whatever else happens
    on the page, returns the same [T] and again changes nothing. *)
Theorem getAuthToken_cache_fast_path :
  (forall retryDelay server w t,
      authTokenCache w = Some t -> t ≠ "" ->
      AuthTokenUtils.getAuthToken retryDelay server w = (Normal (Some t), w)
      /\ AuthTokenUtils.begin retryDelay w
         = (AuthTokenUtils.Returns (Normal (Some t)), w))
  /\ (forall ev w w1 T,
         step ev w = Some w1 -> call_returns T ev w -> T ≠ "" ->
         awaiting_token w1 = [] ->
         forall evs w2, run evs w1 = Some w2 ->
         forall retryDelay server,
           AuthTokenUtils.getAuthToken retryDelay server w2 = (Normal (Some T), w2)
           /\ AuthTokenUtils.begin retryDelay w2
              = (AuthTokenUtils.Returns (Normal (Some T)), w2)
           /\ awaiting_token w2 = []).
Proof.
  split.
  - intros. split; [by apply getAuthToken_cached | by apply begin_cached].
  - intros ev w w1 T Hs Hret HT Hnone evs w2 Hrun retryDelay server.
    pose proof (call_returns_cached _ _ _ _ Hs Hret HT) as Hc.
    destruct (run_settled_cache _ _ _ _ Hrun Hc HT Hnone) as [Hc2 Hnone2].
    split; [by apply getAuthToken_cached|]. split; [by apply begin_cached | done].
Qed.

(** The spec's scenario: the cookie is [XSRF-TOKEN=abc123] and the token
    endpoint answers [{token: "T1"}]; the first call fetches ["T1"], the second
    returns it without any effect. *)
Lemma getAuthToken_cache_scenario :
  let w := page_load "http://localhost:3000" "XSRF-TOKEN=abc123" "/" in
  let server := fun _ : nat => FetchResponse true (JsonObject (Some "T1")) in
  let w1 := snd (AuthTokenUtils.getAuthToken 1000 server w) in
  fst (AuthTokenUtils.getAuthToken 1000 server w) = Normal (Some "T1")
  /\ count is_fetch (trace w1) = 1
  /\ AuthTokenUtils.getAuthToken 1000 (fun _ => FetchRejected) w1
     = (Normal (Some "T1"), w1).
Proof.
  cbv zeta. split; [reflexivity|]. split; [reflexivity|].
  apply (proj2 getAuthToken_cache_fast_path
           (CallGetAuthToken 1000
              (fun _ => FetchResponse true (JsonObject (Some "T1"))))
           (page_load "http://localhost:3000" "XSRF-TOKEN=abc123" "/")
           _ "T1" eq_refl eq_refl ltac:(discriminate) eq_refl [] _ eq_refl
           1000%Z (fun _ => FetchRejected)).
Defined.

(** Without the proviso C5 fails.  Two calls start while the cache is empty and
    both fetch.  The first to be answered returns ["TA"], and a call made
    then returns ["TA"] from the cache; when the other is answered it stores
    its own token, and a call made after that returns ["TB"]. *)
Lemma later_call_returns_another_token :
  let w := page_load "http://localhost:3000" "XSRF-TOKEN=abc123" "/" in
  let answer t := FetchResponse true (JsonObject (Some t)) in
  exists w0 w1 w2,
    run [TokenCallBegins 1000; TokenCallBegins 1000] w = Some w0
    /\ step (TokenFetchSettled 0 (answer "TA")) w0 = Some w1
    /\ call_returns "TA" (TokenFetchSettled 0 (answer "TA")) w0
    /\ (forall server,
          AuthTokenUtils.getAuthToken 1000 server w1 = (Normal (Some "TA"), w1))
    /\ run [TokenFetchSettled 0 (answer "TB")] w1 = Some w2
    /\ (forall server,
          AuthTokenUtils.getAuthToken 1000 server w2 = (Normal (Some "TB"), w2))
    /\ count is_fetch (trace w2) = 2.
Proof.
  intros w answer.
  pose (w0 := default w (run [TokenCallBegins 1000; TokenCallBegins 1000] w)).
  pose (w1 := default w (step (TokenFetchSettled 0 (answer "TA")) w0)).
  pose (w2 := default w (run [TokenFetchSettled 0 (answer "TB")] w1)).
  exists w0, w1, w2.
  split; [vm_compute; reflexivity|]. split; [vm_compute; reflexivity|].
  split.
  { exists {| call_attempt := 0; call_csrfToken := Some "abc123";
              call_retryDelay := 1000; call_waiting := ForFetch |}.
    split; vm_compute; reflexivity. }
  split.
  { intros server. apply getAuthToken_cached; [vm_compute; reflexivity | done]. }
  split; [vm_compute; reflexivity|]. split; [|vm_compute; reflexivity].
  intros server. apply getAuthToken_cached; [vm_compute; reflexivity | done].
Qed.

(** ** The CSRF lookup, copy by copy *)

Lemma find_cookie_holds cookie_string v :
  cookie_holds cookie_string v ->
  find_cookie "XSRF-TOKEN" (Js.split "; " cookie_string) = Normal (Some v).
Proof.
  intros (before & c & after & -> & Hb & Hc & Hv).
  by rewrite (find_cookie_present _ _ _ _ Hb Hc), Hv.
Qed.

Lemma utils_getCsrfToken_returned w t w1 :
  AuthTokenUtils.getCsrfToken w = (Normal (Some t), w1) ->
  csrfTokenCache_utils w1 = Some t /\ Js.truthy (Some t) = true.
Proof.
  destruct (Js.truthy (csrfTokenCache_utils w)) eqn:Hc.
  - rewrite utils_getCsrfToken_hit by done. intros [= Ht <-]. wsimpl.
    by rewrite Ht in *.
  - rewrite utils_getCsrfToken_miss by done.
    destruct (find_cookie _ _) as [v|e]; [|done].
    destruct (Js.truthy v) eqn:Hv; [|done]. intros [= -> <-]. done.
Qed.

Lemma axios_getCsrfToken_returned w t w1 :
  AxiosInstance.getCsrfToken w = (Normal (Some t), w1) ->
  csrfTokenCache_axios w1 = Some t /\ Js.truthy (Some t) = true.
Proof.
  destruct (Js.truthy (csrfTokenCache_axios w)) eqn:Hc.
  - rewrite axios_getCsrfToken_hit by done. intros [= Ht <-]. wsimpl.
    by rewrite Ht in *.
  - rewrite axios_getCsrfToken_miss by done.
    destruct (find_cookie _ _) as [v|e]; [|done].
    destruct (Js.truthy v) eqn:Hv; [|done]. intros [= -> <-]. done.
Qed.

(** *** How often the cookie is read *)

Lemma reads_fill_caches_refl v w : reads_fill_caches v w w.
Proof. intros _. split; [done | lia]. Qed.

Lemma reads_fill_caches_trans v w1 w2 w3 :
  reads_fill_caches v w1 w2 -> reads_fill_caches v w2 w3 ->
  reads_fill_caches v w1 w3.
Proof.
  intros H12 H23 Hv. destruct (H12 Hv) as [Hc12 Hn12].
  rewrite <- Hc12 in Hv. destruct (H23 Hv) as [Hc23 Hn23].
  split; [congruence | lia].
Qed.

Lemma utils_getCsrfToken_reads v w :
  v ≠ "" -> reads_fill_caches v w (snd (AuthTokenUtils.getCsrfToken w)).
Proof.
  intros Hne Hv. unfold cookie_reads, cached_copies.
  destruct (Js.truthy (csrfTokenCache_utils w)) eqn:Hc.
  - rewrite utils_getCsrfToken_hit by done. wsimpl. rewrite Hc, count_app.
    split; [done|]. unfold count at 2. simpl. lia.
  - rewrite utils_getCsrfToken_miss, (find_cookie_holds _ _ Hv), truthy_Some by done.
    wsimpl. rewrite truthy_Some, !count_app by done.
    split; [done|]. unfold count at 2 3. simpl. lia.
Qed.

Lemma axios_getCsrfToken_reads v w :
  v ≠ "" -> reads_fill_caches v w (snd (AxiosInstance.getCsrfToken w)).
Proof.
  intros Hne Hv. unfold cookie_reads, cached_copies.
  destruct (Js.truthy (csrfTokenCache_axios w)) eqn:Hc.
  - rewrite axios_getCsrfToken_hit by done. wsimpl. rewrite Hc, count_app.
    split; [done|]. unfold count at 2. simpl. lia.
  - rewrite axios_getCsrfToken_miss, (find_cookie_holds _ _ Hv), truthy_Some by done.
    wsimpl. rewrite truthy_Some, !count_app by done.
    split; [done|]. unfold count at 2 3. simpl. lia.
Qed.

(** The retry loop never reads the cookie. *)
Lemma retry_loop_reads_nothing remaining attempt csrfToken retryDelay server w :
  cookie_reads
    (snd (AuthTokenUtils.retry_loop remaining attempt csrfToken retryDelay server w))
  = cookie_reads w.
Proof.
  revert attempt w. unfold cookie_reads.
  induction remaining as [|remaining IH]; intros attempt w; simpl.
  - unfold AuthTokenUtils.after_loop, bind, perform, modify, ret. wsimpl.
    rewrite count_app. unfold count at 2. simpl. lia.
  - unfold try_catch.
    destruct (try_fetch_cases csrfToken (server attempt) w)
      as [[_ [e ->]]|[token [_ ->]]].
    + unfold AuthTokenUtils.after_failure, bind, perform, modify, ret.
      destruct (_ <? _)%nat; simpl; rewrite IH; wsimpl; rewrite !count_app;
        unfold count; simpl; lia.
    + wsimpl. rewrite count_app. unfold count at 2. simpl. lia.
Qed.

Lemma getAuthToken_reads v retryDelay server w :
  v ≠ "" ->
  reads_fill_caches v w (snd (AuthTokenUtils.getAuthToken retryDelay server w)).
Proof.
  intros Hne. destruct (Js.truthy (authTokenCache w)) eqn:Hc.
  - pose proof (getAuthToken_frame retryDelay server w) as (_ & _ & _ & Hsame).
    cbv zeta in Hsame. rewrite (Hsame Hc). apply reads_fill_caches_refl.
  - rewrite getAuthToken_uncached by done.
    pose proof (utils_getCsrfToken_reads v w Hne) as Hcsrf.
    destruct (AuthTokenUtils.getCsrfToken w) as [[csrfToken|e] w1];
      cbn [snd] in *; [|done].
    eapply reads_fill_caches_trans; [exact Hcsrf|]. intros _.
    pose proof (retry_loop_frame AuthTokenUtils.maxRetries 0 csrfToken retryDelay
                  server w1) as [(_ & Hcookie & _) [Hu Hx]].
    pose proof (retry_loop_reads_nothing AuthTokenUtils.maxRetries 0 csrfToken
                  retryDelay server w1) as Hreads.
    split; [done|]. unfold cached_copies. rewrite Hreads, Hu, Hx. lia.
Qed.

(** Neither does a resumed call. *)
Lemma emit_reads v (e : Effect) w :
  is_cookie_read e = false -> reads_fill_caches v w (emit e w).
Proof.
  intros He _. split; [done|]. unfold cookie_reads, cached_copies. wsimpl.
  rewrite count_app. unfold count at 2. simpl. rewrite He. simpl. lia.
Qed.

Lemma begin_reads v retryDelay w :
  v ≠ "" -> reads_fill_caches v w (snd (AuthTokenUtils.begin retryDelay w)).
Proof.
  intros Hne. destruct (Js.truthy (authTokenCache w)) eqn:Hc.
  - destruct (truthy_inv _ Hc) as (t & Ht & Hne').
    rewrite (begin_cached _ _ _ Ht Hne'). apply reads_fill_caches_refl.
  - rewrite begin_uncached by done.
    pose proof (utils_getCsrfToken_reads v w Hne) as Hcsrf.
    destruct (AuthTokenUtils.getCsrfToken w) as [[csrfToken|e] w1];
      cbn [snd] in *; [|done].
    destruct (loop_head_emits 0 csrfToken retryDelay w1) as (state & e & -> & _ & He).
    eapply reads_fill_caches_trans; [exact Hcsrf | by apply emit_reads].
Qed.

Lemma fetch_settled_reads v call answer w :
  reads_fill_caches v w (snd (AuthTokenUtils.fetch_settled call answer w)).
Proof.
  destruct (fetch_settled_cases call answer w)
    as [(token & _ & ->)|(_ & state & es & -> & _ & Hes)]; cbn [snd].
  - intros _. done.
  - intros _. split; [done|]. unfold cookie_reads, cached_copies. wsimpl.
    rewrite count_app, Hes. lia.
Qed.

Lemma timer_fired_reads v call w :
  reads_fill_caches v w (snd (AuthTokenUtils.timer_fired call w)).
Proof.
  unfold AuthTokenUtils.timer_fired.
  destruct (loop_head_emits (call_attempt call) (call_csrfToken call)
              (call_retryDelay call) w) as (state & e & -> & _ & He).
  by apply emit_reads.
Qed.

Lemma suspend_or_finish_reads v others now w :
  reads_fill_caches v w (snd now) ->
  reads_fill_caches v w (suspend_or_finish others now).
Proof. by destruct now as [[result|call] w1]. Qed.

Lemma onRequest_reads v config server w :
  v ≠ "" -> reads_fill_caches v w (snd (AxiosInstance.onRequest config server w)).
Proof.
  intros Hne. rewrite onRequest_unfold.
  pose proof (axios_getCsrfToken_reads v w Hne) as Hcsrf.
  assert (Hlog : forall e w1, reads_fill_caches v w1 (emit (ConsoleError e) w1)).
  { intros e w1 _. split; [done|]. unfold cookie_reads, cached_copies. wsimpl.
    rewrite count_app. unfold count at 2. simpl. lia. }
  destruct (AxiosInstance.getCsrfToken w) as [[csrfToken|e] w1]; cbn [snd] in *.
  - eapply reads_fill_caches_trans; [exact Hcsrf|].
    pose proof (getAuthToken_reads v 1000 server w1 Hne) as Hauth.
    destruct (AuthTokenUtils.getAuthToken 1000 server w1) as [[authToken|e] w2];
      cbn [snd] in *; [done|].
    eapply reads_fill_caches_trans; [exact Hauth | apply Hlog].
  - eapply reads_fill_caches_trans; [exact Hcsrf | apply Hlog].
Qed.

Lemma processQueue_reads error token w :
  cookie_reads (AxiosInstance.processQueue error token w) = cookie_reads w.
Proof.
  unfold cookie_reads, AxiosInstance.processQueue. wsimpl. rewrite count_app.
  match goal with |- _ + ?n = _ => assert (n = 0) as ->; [|lia] end.
  unfold count. induction (failedQueue w) as [|p q IH]; [done|].
  simpl. rewrite List.filter_app, length_app, IH.
  unfold Js.if_truthy. destruct token as [t|], error as [e|];
    try destruct (Js.truthy _); done.
Qed.

Lemma coordinator_step_reads ev w w' :
  is_coordinator_event ev = true -> step ev w = Some w' ->
  cookie_reads w' = cookie_reads w.
Proof.
  destruct ev as [error|k result| | | | | | |]; try discriminate; intros _; simpl.
  - intros [= <-]. unfold AxiosInstance.onRejected, cookie_reads.
    destruct (_ && _ && _); [destruct (isRefreshing _)|]; wsimpl;
      rewrite ?count_app; unfold count; simpl; lia.
  - destruct (awaiting_refresh w !! k) as [s|]; [|done]. intros [= <-].
    set (w0 := set_awaiting_refresh _ w).
    assert (cookie_reads w0 = cookie_reads w) as <- by done.
    assert (Hfail : cookie_reads
                      (emit (Rejected (handler_promise s) (handler_error s))
                         (set_isRefreshing false
                            (AxiosInstance.on_refresh_error (handler_error s) w0)))
                    = cookie_reads w0).
    { unfold AxiosInstance.on_refresh_error.
      pose proof (processQueue_reads (Some (handler_error s)) None w0) as Hq.
      unfold cookie_reads in *. wsimpl. rewrite !count_app, Hq.
      unfold count at 2 3 4. simpl. lia. }
    unfold AxiosInstance.resume, Js.if_truthy.
    destruct result as [|[|[token|]]]; try exact Hfail.
    + destruct (Js.truthy _).
      * unfold cookie_reads. wsimpl. rewrite count_app.
        match goal with
        | |- context [AxiosInstance.processQueue ?e ?t ?w1] =>
            pose proof (processQueue_reads e t w1) as Hq
        end.
        unfold cookie_reads in Hq. rewrite Hq. wsimpl.
        unfold count at 2. simpl. lia.
      * unfold cookie_reads. wsimpl. rewrite count_app. unfold count at 2.
        simpl. lia.
    + unfold cookie_reads. wsimpl. rewrite count_app. unfold count at 2.
      simpl. lia.
Qed.

Lemma step_reads v ev w w' :
  v ≠ "" -> step ev w = Some w' -> reads_fill_caches v w w'.
Proof.
  intros Hne Hs.
  destruct (is_coordinator_event ev) eqn:Hev.
  - intros _.
    destruct (coordinator_step_tokens _ _ _ Hev Hs) as (_ & Hu & Hx & Hc & _).
    split; [done|]. unfold cached_copies.
    rewrite Hu, Hx, (coordinator_step_reads _ _ _ Hev Hs). lia.
  - destruct ev as [error|k result|retryDelay server|retryDelay|k answer|k| |
                    |config server]; try discriminate; simpl in Hs.
    + injection Hs as <-. by apply getAuthToken_reads.
    + injection Hs as <-. by apply suspend_or_finish_reads, begin_reads.
    + destruct (awaiting_token w !! k) as [call|]; [|done].
      destruct (call_waiting call); [|done]. injection Hs as <-.
      apply suspend_or_finish_reads, fetch_settled_reads.
    + destruct (awaiting_token w !! k) as [call|]; [|done].
      destruct (call_waiting call); [done|]. injection Hs as <-.
      apply suspend_or_finish_reads, timer_fired_reads.
    + injection Hs as <-. by apply utils_getCsrfToken_reads.
    + injection Hs as <-. by apply axios_getCsrfToken_reads.
    + injection Hs as <-. by apply onRequest_reads.
Qed.

Lemma run_reads v evs : forall w w',
  v ≠ "" -> run evs w = Some w' -> reads_fill_caches v w w'.
Proof.
  induction evs as [|ev evs IH]; intros w w' Hne; simpl.
  - intros [= <-]. apply reads_fill_caches_refl.
  - destruct (step ev w) as [w1|] eqn:Hs; [|done]. intros Hr.
    eapply reads_fill_caches_trans; [by eapply step_reads | by apply IH].
Qed.

Lemma utils_csrf_lookup_contract :
  csrf_lookup_contract AuthTokenUtils.getCsrfToken csrfTokenCache_utils
    set_csrfTokenCache_utils.
Proof.
  repeat split.
  - apply utils_getCsrfToken_hit.
  - intros w v Hc Hv Hne.
    by rewrite utils_getCsrfToken_miss, (find_cookie_holds _ _ Hv), truthy_Some.
  - intros w Hc Hm.
    by rewrite utils_getCsrfToken_miss, (find_cookie_absent _ _ Hm).
  - intros w t w1 Hcall evs w2 Hrun.
    destruct (utils_getCsrfToken_returned _ _ _ Hcall) as [Hc Ht].
    destruct (run_token_caches _ _ _ Hrun) as (Hu & _).
    rewrite Hc in Hu. specialize (Hu Ht).
    rewrite utils_getCsrfToken_hit; rewrite Hu; done.
Qed.

Lemma axios_csrf_lookup_contract :
  csrf_lookup_contract AxiosInstance.getCsrfToken csrfTokenCache_axios
    set_csrfTokenCache_axios.
Proof.
  repeat split.
  - apply axios_getCsrfToken_hit.
  - intros w v Hc Hv Hne.
    by rewrite axios_getCsrfToken_miss, (find_cookie_holds _ _ Hv), truthy_Some.
  - intros w Hc Hm.
    by rewrite axios_getCsrfToken_miss, (find_cookie_absent _ _ Hm).
  - intros w t w1 Hcall evs w2 Hrun.
    destruct (axios_getCsrfToken_returned _ _ _ Hcall) as [Hc Ht].
    destruct (run_token_caches _ _ _ Hrun) as (_ & Hx).
    rewrite Hc in Hx. specialize (Hx Ht).
    rewrite axios_getCsrfToken_hit; rewrite Hx; done.
Qed.

(** C7, as amended.  Each of the two copies of [getCsrfToken] (the one of
    [authTokenUtils] and the one of [axiosInstance]) returns its own
    cached CSRF token when it has one, without reading the cookie; otherwise it
    reads the [XSRF-TOKEN] cookie, percent-decoded, caches and returns it, or
    returns absent -- logged, nothing thrown -- when the cookie is missing.
    Once a copy has returned a token, every later call of that copy is a
    cache hit.  The two caches are separate: on a page whose cookie holds a
    non-empty token the cookie is read once for each cache filled, so at most
    twice. *)
Theorem getCsrfToken_caches_per_copy :
  csrf_lookup_contract AuthTokenUtils.getCsrfToken csrfTokenCache_utils
    set_csrfTokenCache_utils
  /\ csrf_lookup_contract AxiosInstance.getCsrfToken csrfTokenCache_axios
       set_csrfTokenCache_axios
  /\ (forall base cookie href v evs w,
         cookie_holds cookie v -> v ≠ "" ->
         run evs (page_load base cookie href) = Some w ->
         cookie_reads w = cached_copies w /\ cookie_reads w <= 2).
Proof.
  split; [apply utils_csrf_lookup_contract|].
  split; [apply axios_csrf_lookup_contract|].
  intros base cookie href v evs w Hv Hne Hrun.
  destruct (run_reads v evs _ _ Hne Hrun Hv) as [_ Hn].
  change (cookie_reads (page_load base cookie href)) with 0 in Hn.
  change (cached_copies (page_load base cookie href)) with 0 in Hn.
  split; [lia|]. assert (cached_copies w <= 2); [|lia].
  unfold cached_copies. destruct (Js.truthy _), (Js.truthy _); lia.
Qed.

(** The contract at work: the cookie value is percent-decoded, and the second
    call of the same copy does not read the cookie. *)
Lemma getCsrfToken_scenario :
  let w := page_load "http://localhost:3000" "theme=dark; XSRF-TOKEN=abc%20123" "/" in
  let w1 := emit (ConsoleLog "Extracted CSRF token from cookies:")
              (set_csrfTokenCache_axios (Some "abc 123") (emit CookieRead w)) in
  AxiosInstance.getCsrfToken w = (Normal (Some "abc 123"), w1)
  /\ AxiosInstance.getCsrfToken w1
     = (Normal (Some "abc 123"), emit (ConsoleLog "Returning cached CSRF token:") w1).
Proof.
  cbv zeta.
  destruct getCsrfToken_caches_per_copy as (_ & (_ & Hfill & _ & Hagain) & _).
  assert (Hcall : AxiosInstance.getCsrfToken
                    (page_load "http://localhost:3000"
                       "theme=dark; XSRF-TOKEN=abc%20123" "/")
                  = (Normal (Some "abc 123"),
                     emit (ConsoleLog "Extracted CSRF token from cookies:")
                       (set_csrfTokenCache_axios (Some "abc 123")
                          (emit CookieRead
                             (page_load "http://localhost:3000"
                                "theme=dark; XSRF-TOKEN=abc%20123" "/"))))).
  { apply Hfill; [reflexivity | | discriminate].
    exists ["theme=dark"], "XSRF-TOKEN=abc%20123", [].
    repeat split; [|reflexivity..].
    constructor; [discriminate | constructor]. }
  split; [exact Hcall|].
  exact (Hagain _ _ _ Hcall [] _ eq_refl).
Defined.

(** C7 as stated fails: the two copies do not share a cache.  A single request
    passes through the request interceptor, which looks the CSRF token up with
    the copy of [axiosInstance] and then calls [getAuthToken], which looks it
    up with the copy of [authTokenUtils]: the cookie, although present, is
    read twice, and the second lookup is not a cache hit. *)
Lemma csrf_cookie_read_twice_by_one_request :
  let w := page_load "http://localhost:3000" "XSRF-TOKEN=abc123" "/" in
  let config := {| url := "/items"; method := "get"; headers := ∅; _retry := false |} in
  let server := fun _ : nat => FetchResponse true (JsonObject (Some "T1")) in
  exists w',
    run [CallOnRequest config server] w = Some w'
    /\ trace w'
       = [ CookieRead; ConsoleLog "Extracted CSRF token from cookies:";
           CookieRead; ConsoleLog "Extracted CSRF token from cookies:";
           Fetch "http://localhost:3000/auth/get-token"
             {[ "X-CSRF-Token" := "abc123" ]} ]
    /\ cookie_reads w' = 2
    /\ ~ cookie_reads w' <= 1.
Proof.
  cbv zeta. run_scenario Hreach. vm_compute.
  split; [reflexivity|]. split; [reflexivity|]. lia.
Qed.

(** ** The refresh coordinator *)

Lemma settled_app p t1 t2 : settled p (t1 ++ t2) = settled p t1 || settled p t2.
Proof. unfold settled. apply existsb_app. Qed.

Lemma settled_false p t :
  settled p t = false <-> Forall (fun e => settles e ≠ Some p) t.
Proof.
  unfold settled. induction t as [|e t IH]; simpl.
  - split; [constructor | done].
  - rewrite orb_false_iff, IH, Forall_cons, bool_decide_eq_false. done.
Qed.

Lemma token_effects_settle_nothing es :
  forallb token_effect es = true -> Forall (fun e => settles e = None) es.
Proof.
  induction es as [|e es IH]; simpl; [constructor|].
  intros [He Hes]%andb_true_iff. constructor; [|auto]. by destruct e.
Qed.

Lemma token_frame_inv w w' :
  token_frame w w' -> coordinator_inv w -> coordinator_inv w'.
Proof.
  intros (_ & _ & _ & Hr & Hq & _ & Ha & Hp & es & Ht & Hes)
    [Hsf Hqb Hab Htb Hqp Hqa Hret].
  apply token_effects_settle_nothing in Hes.
  split; rewrite ?Hr, ?Hq, ?Ha, ?Hp, ?Ht; try done.
  - apply Forall_app. split; [done|].
    eapply Forall_impl; [exact Hes|]. simpl. intros e -> p. discriminate.
  - eapply Forall_impl; [exact Hqp|]. simpl. intros p Hs.
    rewrite settled_app, Hs. simpl. apply settled_false.
    eapply Forall_impl; [exact Hes|]. simpl. intros e ->. discriminate.
Qed.

Lemma page_load_inv base cookie href : coordinator_inv (page_load base cookie href).
Proof. split; simpl; constructor. Qed.

Lemma Forall_lt_S {A} (f : A -> nat) (n : nat) (l : list A) :
  Forall (fun a => f a < n) l -> Forall (fun a => f a < S n) l.
Proof. intros H. eapply Forall_impl; [exact H|]. intros a. simpl. lia. Qed.

Lemma trace_bound_S (n : nat) (t : list Effect) :
  Forall (fun e => forall p, settles e = Some p -> p < n) t ->
  Forall (fun e => forall p, settles e = Some p -> p < S n) t.
Proof.
  intros H. eapply Forall_impl; [exact H|]. intros e He p Hp.
  specialize (He p Hp). lia.
Qed.

Lemma pending_after (p : nat) (t es : list Effect) :
  settled p t = false -> Forall (fun e => settles e ≠ Some p) es ->
  settled p (t ++ es) = false.
Proof. intros Ht Hes. rewrite settled_app, Ht. simpl. by apply settled_false. Qed.

Lemma onRejected_inv error w :
  coordinator_inv w -> coordinator_inv (snd (AxiosInstance.onRejected error w)).
Proof.
  intros [Hsf Hqb Hab Htb Hqp Hqa Hret].
  assert (Hfresh : settled (promises w) (trace w) = false).
  { apply settled_false. eapply Forall_impl; [exact Htb|]. simpl.
    intros e He Heq. specialize (He _ Heq). lia. }
  unfold AxiosInstance.onRejected.
  destruct (_ && _ && _); [wsimpl; destruct (isRefreshing w) eqn:Hr|]; wsimpl.
  - (* queued *)
    split; wsimpl; rewrite ?Hr; try done.
    + apply Forall_app. split; [by apply (Forall_lt_S id)|].
      apply Forall_singleton. lia.
    + by apply (Forall_lt_S handler_promise).
    + by apply trace_bound_S.
    + apply Forall_app. split; [done | by apply Forall_singleton].
    + rewrite Forall_forall in Hqa, Hab |- *.
      intros s Hs [Hin|Hin%list_elem_of_singleton]%elem_of_app.
      * by apply (Hqa s).
      * specialize (Hab s Hs). lia.
  - (* the refresh call is made *)
    assert (awaiting_refresh w = []) as Hnil by (by apply nil_length_inv).
    split; wsimpl; rewrite ?Hnil; simpl; try done.
    + by apply (Forall_lt_S id).
    + apply Forall_singleton. simpl. lia.
    + apply Forall_app. split; [by apply trace_bound_S|].
      by apply Forall_singleton.
    + eapply Forall_impl; [exact Hqp|]. simpl. intros p Hs.
      apply pending_after; [done|]. by apply Forall_singleton.
    + apply Forall_singleton. simpl. intros Hin.
      rewrite Forall_forall in Hqb. specialize (Hqb _ Hin). lia.
    + by apply Forall_singleton.
  - (* rejected at once *)
    split; wsimpl; try done.
    + by apply (Forall_lt_S id).
    + by apply (Forall_lt_S handler_promise).
    + apply Forall_app. split; [by apply trace_bound_S|].
      apply Forall_singleton. simpl. intros ? [= <-]. lia.
    + rewrite Forall_forall in Hqp, Hqb |- *.
      intros p Hin. apply pending_after; [by apply Hqp|].
      apply Forall_singleton. simpl. intros [= Heq].
      specialize (Hqb p Hin). lia.
Qed.

Lemma flat_map_one {A B} (f : A -> list B) (g : A -> B) (l : list A) :
  (forall a, f a = [g a]) -> flat_map f l = map g l.
Proof.
  intros Hf. induction l as [|a l IH]; [done|].
  cbn [flat_map map]. by rewrite Hf, IH.
Qed.

(** [processQueue] with a token resolves the queue in order, with an error and
    no token it rejects the queue in order; either way the queue is emptied. *)
Lemma processQueue_resolve error t w :
  t ≠ "" ->
  AxiosInstance.processQueue error (Some t) w
  = set_failedQueue [] (emit_all (map (fun p => Resolved p t) (failedQueue w)) w).
Proof.
  intros Ht. unfold AxiosInstance.processQueue. do 2 f_equal.
  apply flat_map_one. intros p. by rewrite (if_truthy_true _ t).
Qed.

Lemma processQueue_reject e w :
  AxiosInstance.processQueue (Some e) None w
  = set_failedQueue [] (emit_all (map (fun p => Rejected p e) (failedQueue w)) w).
Proof.
  unfold AxiosInstance.processQueue.
  by rewrite (flat_map_one _ (fun p => Rejected p e)).
Qed.

(** The three ways the awaited refresh call can end. *)
Lemma resume_token s t w :
  t ≠ "" ->
  AxiosInstance.resume s (PostFulfilled (DataObject (Some t))) w
  = set_isRefreshing false
      (emit (Replayed (handler_promise s)
               (set_header "Authorization" ("Bearer " +:+ t)
                  (config (handler_error s))))
         (set_failedQueue []
            (emit_all (map (fun p => Resolved p t) (failedQueue w))
               (set_defaults_headers
                  (<["Authorization" := "Bearer " +:+ t]> (defaults_headers w)) w)))).
Proof.
  intros Ht. unfold AxiosInstance.resume.
  rewrite (if_truthy_true _ t) by done. by rewrite processQueue_resolve.
Qed.

Lemma resume_no_token s token w :
  Js.truthy token = false ->
  AxiosInstance.resume s (PostFulfilled (DataObject token)) w
  = emit (Rejected (handler_promise s) (handler_error s)) (set_isRefreshing false w).
Proof. intros Ht. unfold AxiosInstance.resume. by rewrite if_truthy_false. Qed.

Lemma resume_failure s result w :
  refresh_fails result = true ->
  AxiosInstance.resume s result w
  = emit (Rejected (handler_promise s) (handler_error s))
      (set_isRefreshing false
         (emit (LocationAssign "/login")
            (set_location_href "/login"
               (emit (ConsoleError "Token refresh failed:")
                  (set_failedQueue []
                     (emit_all
                        (map (fun p => Rejected p (handler_error s)) (failedQueue w))
                        w)))))).
Proof.
  intros Hf. unfold AxiosInstance.resume, AxiosInstance.on_refresh_error.
  destruct result as [|[|token]]; try discriminate; by rewrite processQueue_reject.
Qed.

Lemma resume_cases (result : PostResult) :
  (exists t, t ≠ "" /\ result = PostFulfilled (DataObject (Some t)))
  \/ (exists token, Js.truthy token = false /\ result = PostFulfilled (DataObject token))
  \/ refresh_fails result = true.
Proof.
  destruct result as [|[|token]]; [by right; right..|].
  destruct (Js.truthy token) eqn:Ht.
  - left. destruct (truthy_inv _ Ht) as (t & -> & Hne). eauto.
  - right. left. eauto.
Qed.

Lemma step_RefreshSettled (w : World) (k : nat) (s : Suspended) (result : PostResult) :
  awaiting_refresh w !! k = Some s ->
  step (RefreshSettled k result) w
  = Some (AxiosInstance.resume s result
            (set_awaiting_refresh (delete k (awaiting_refresh w)) w)).
Proof. intros Hk. simpl. by rewrite Hk. Qed.

(** While a refresh call is awaited, it is the only one. *)
Lemma awaiting_single (w : World) (k : nat) (s : Suspended) :
  coordinator_inv w -> awaiting_refresh w !! k = Some s ->
  k = 0 /\ awaiting_refresh w = [s] /\ isRefreshing w = true.
Proof.
  intros [Hsf _ _ _ _ _ _] Hk.
  destruct (isRefreshing w), (awaiting_refresh w) as [|s0 [|s1 l]];
    simpl in *; try discriminate.
  destruct k; simpl in *; [by injection Hk as -> | discriminate].
Qed.

Lemma resume_inv (w : World) (k : nat) (s : Suspended) (result : PostResult) :
  coordinator_inv w -> awaiting_refresh w !! k = Some s ->
  coordinator_inv
    (AxiosInstance.resume s result
       (set_awaiting_refresh (delete k (awaiting_refresh w)) w)).
Proof.
  intros Hinv Hk. destruct (awaiting_single _ _ _ Hinv Hk) as (-> & Hs & Hr).
  destruct Hinv as [Hsf Hqb Hab Htb Hqp Hqa Hret]. rewrite Hs in *. simpl.
  apply Forall_inv in Hab, Hqa.
  assert (Hmine : forall e,
             Forall (fun e' => forall p, settles e' = Some p -> p < promises w)
               [Rejected (handler_promise s) e]).
  { intros e. apply Forall_singleton. simpl. intros q [= Hq]. by subst q. }
  assert (Hqueue : forall f : nat -> Effect,
             (forall p, settles (f p) = Some p) ->
             Forall (fun e' => forall p, settles e' = Some p -> p < promises w)
               (map f (failedQueue w))).
  { intros f Hf. apply List.Forall_map. eapply Forall_impl; [exact Hqb|]. simpl.
    intros x Hx q. rewrite Hf. intros [= Hq]. by subst q. }
  destruct (resume_cases result) as [(t & Ht & ->)|[(token & Ht & ->)|Hf]].
  - rewrite resume_token by done.
    split; wsimpl;
      [reflexivity | constructor | constructor | | constructor | constructor
      | constructor].
    apply Forall_app. split; [apply Forall_app; split; [exact Htb|]|].
    + by apply Hqueue.
    + apply Forall_singleton. simpl. intros q [= Hq]. by subst q.
  - rewrite resume_no_token by done.
    split; wsimpl;
      [reflexivity | exact Hqb | constructor | | | constructor | constructor].
    + apply Forall_app. split; [exact Htb | apply Hmine].
    + rewrite Forall_forall in Hqp |- *. intros p Hin.
      apply pending_after; [by apply Hqp|]. apply Forall_singleton. simpl.
      intros [= Heq]. by subst.
  - rewrite resume_failure by done.
    split; wsimpl;
      [reflexivity | constructor | constructor | | constructor | constructor
      | constructor].
    rewrite <- !app_assoc. apply Forall_app. split; [exact Htb|].
    apply Forall_app. split; [by apply Hqueue|].
    apply Forall_cons. split; [by intros p|].
    apply Forall_cons. split; [by intros p|].
    apply Hmine.
Qed.

Lemma step_inv ev w w' :
  step ev w = Some w' -> coordinator_inv w -> coordinator_inv w'.
Proof.
  destruct (is_coordinator_event ev) eqn:Hev;
    [|intros Hs; by apply token_frame_inv, (token_step_frame ev)].
  destruct ev as [error|k result| | | | | | |]; try discriminate; simpl.
  - intros [= <-]. apply onRejected_inv.
  - destruct (awaiting_refresh w !! k) as [s|] eqn:Hk; [|done].
    intros [= <-] Hinv. by apply resume_inv.
Qed.

Lemma run_inv evs : forall w w',
  run evs w = Some w' -> coordinator_inv w -> coordinator_inv w'.
Proof.
  induction evs as [|ev evs IH]; intros w w'; simpl.
  - by intros [= <-].
  - destruct (step ev w) as [w1|] eqn:Hs; [|done]. intros Hr Hinv.
    eapply IH; [exact Hr|]. by eapply step_inv.
Qed.

Lemma reachable_inv w : reachable w -> coordinator_inv w.
Proof.
  intros (base & cookie & href & evs & Hrun).
  eapply run_inv; [exact Hrun | apply page_load_inv].
Qed.

(** *** While a refresh is in flight *)

(** The two ways the handler starts when its condition holds. *)
Lemma onRejected_queues error w :
  refresh_condition error = true -> isRefreshing w = true ->
  AxiosInstance.onRejected error w
  = (promises w,
     set_failedQueue (failedQueue w ++ [promises w]) (set_promises (S (promises w)) w)).
Proof.
  unfold refresh_condition, AxiosInstance.onRejected. intros -> Hr. wsimpl.
  by rewrite Hr.
Qed.

Lemma onRejected_triggers error w :
  refresh_condition error = true -> isRefreshing w = false ->
  AxiosInstance.onRejected error w
  = (promises w,
     set_awaiting_refresh
       (awaiting_refresh w
          ++ [{| handler_promise := promises w;
                 handler_error := set_config (set_retry true (config error)) error |}])
       (emit (Post (baseURL w +:+ "/auth/refresh-token"))
          (set_isRefreshing true (set_promises (S (promises w)) w)))).
Proof.
  unfold refresh_condition, AxiosInstance.onRejected. intros -> Hr. wsimpl.
  by rewrite Hr.
Qed.

Lemma onRejected_passes error w :
  refresh_condition error = false ->
  AxiosInstance.onRejected error w
  = (promises w,
     emit (Rejected (promises w) error) (set_promises (S (promises w)) w)).
Proof. unfold refresh_condition, AxiosInstance.onRejected. by intros ->. Qed.

(** Until the refresh call settles, nothing leaves the queue, no refresh call
    is added and the flag stays set. *)
Lemma quiet_step ev w w' :
  step ev w = Some w' -> is_refresh_settled ev = false -> isRefreshing w = true ->
  isRefreshing w' = true
  /\ (exists later, failedQueue w' = failedQueue w ++ later)
  /\ count is_post (trace w') = count is_post (trace w)
  /\ awaiting_refresh w' = awaiting_refresh w.
Proof.
  intros Hs Hev Hr.
  assert (Htoken : token_frame w w' ->
            isRefreshing w' = true
            /\ (exists later, failedQueue w' = failedQueue w ++ later)
            /\ count is_post (trace w') = count is_post (trace w)
            /\ awaiting_refresh w' = awaiting_refresh w).
  { intros (_ & _ & _ & Hr' & Hq & _ & Ha & _ & es & Ht & Hes).
    split; [congruence|]. split; [exists []; by rewrite app_nil_r|].
    split; [|done]. rewrite Ht, count_app, (count_token_effects is_post es); auto.
    by intros []. }
  destruct (is_coordinator_event ev) eqn:Hco;
    [|by apply Htoken, (token_step_frame ev)].
  destruct ev as [error|k result| | | | | | |]; try discriminate; simpl in Hs;
    injection Hs as <-.
  destruct (refresh_condition error) eqn:Hc.
  - rewrite onRejected_queues by done. wsimpl. eauto.
  - rewrite onRejected_passes by done. wsimpl. rewrite count_app.
    split; [done|]. split; [exists []; by rewrite app_nil_r|].
    split; [|done]. unfold count at 2. simpl. lia.
Qed.

Lemma quiet_run evs : forall w w',
  Forall (fun ev => is_refresh_settled ev = false) evs ->
  run evs w = Some w' -> isRefreshing w = true ->
  isRefreshing w' = true
  /\ (exists later, failedQueue w' = failedQueue w ++ later)
  /\ count is_post (trace w') = count is_post (trace w)
  /\ awaiting_refresh w' = awaiting_refresh w.
Proof.
  induction evs as [|ev evs IH]; intros w w' Hq; simpl.
  - intros [= <-] Hr. split; [done|]. split; [exists []; by rewrite app_nil_r|]. done.
  - apply Forall_cons in Hq as [Hev Hq].
    destruct (step ev w) as [w1|] eqn:Hs; [|done]. intros Hrun Hr.
    destruct (quiet_step _ _ _ Hs Hev Hr) as (Hr1 & [l1 Hq1] & Hp1 & Ha1).
    destruct (IH _ _ Hq Hrun Hr1) as (Hr2 & [l2 Hq2] & Hp2 & Ha2).
    split; [done|]. split; [|split; congruence].
    exists (l1 ++ l2). by rewrite Hq2, Hq1, app_assoc.
Qed.

(** C1, as amended.  In a world the page can reach and in which a refresh is
    in flight ([isRefreshing] is set), the response interceptor makes no second
    refresh call, whatever error it is handed: the trace gains no [Post] and
    exactly one handler keeps awaiting the refresh.  If the error carries status
    498 and its request is not yet marked as retried, the handler's promise is
    pushed at the end of [failedQueue] and not settled; it stays queued and
    pending, with the refresh still the only one, through every later event
    up to the settlement of the refresh call. *)
Theorem single_flight_while_refreshing (w : World) (error : AxiosError) :
  reachable w -> isRefreshing w = true ->
  let (promise, w') := AxiosInstance.onRejected error w in
  count is_post (trace w') = count is_post (trace w)
  /\ awaiting_refresh w' = awaiting_refresh w
  /\ length (awaiting_refresh w') = 1
  /\ (refresh_condition error = true ->
      failedQueue w' = failedQueue w ++ [promise]
      /\ trace w' = trace w
      /\ forall evs w'',
           Forall (fun ev => is_refresh_settled ev = false) evs ->
           run evs w' = Some w'' ->
           promise ∈ failedQueue w''
           /\ settled promise (trace w'') = false
           /\ length (awaiting_refresh w'') = 1
           /\ count is_post (trace w'') = count is_post (trace w)).
Proof.
  intros Hreach Hr.
  pose proof (reachable_inv _ Hreach) as Hinv.
  pose proof (inv_single_flight _ Hinv) as Hone. rewrite Hr in Hone.
  destruct (AxiosInstance.onRejected error w) as [promise w'] eqn:Hcall.
  assert (Hstep : step (ResponseError error) w = Some w') by (simpl; by rewrite Hcall).
  destruct (quiet_step _ _ _ Hstep eq_refl Hr) as (Hr' & _ & Hposts & Ha).
  split; [done|]. split; [done|]. split; [congruence|].
  intros Hc. rewrite onRejected_queues in Hcall by done.
  injection Hcall as <- <-. wsimpl. split; [done|]. split; [done|].
  intros evs w'' Hquiet Hrun.
  destruct (quiet_run _ _ _ Hquiet Hrun Hr') as (_ & [later Hq] & Hp & Ha').
  assert (Hin : promises w ∈ failedQueue w'').
  { rewrite Hq. wsimpl. set_solver. }
  split; [done|].
  assert (Hinv'' : coordinator_inv w'').
  { eapply run_inv; [exact Hrun|]. by eapply step_inv. }
  pose proof (inv_queue_pending _ Hinv'') as Hpending.
  rewrite Forall_forall in Hpending. split; [by apply Hpending|].
  rewrite Ha'. wsimpl. done.
Qed.

(** Three requests meet a 498 at once: the first makes the refresh call, the
    second is queued, and a third one is queued behind it without a second
    refresh call. *)
Lemma single_flight_scenario :
  let request u := {| url := u; method := "get"; headers := ∅; _retry := false |} in
  let expired u :=
    {| isAxiosError := true; response_status := Some 498%Z; config := request u |} in
  let w0 := page_load "http://localhost:3000" "" "/" in
  exists w,
    run [ResponseError (expired "/a"); ResponseError (expired "/b")] w0 = Some w
    /\ isRefreshing w = true
    /\ fst (AxiosInstance.onRejected (expired "/c") w) = 2
    /\ failedQueue (snd (AxiosInstance.onRejected (expired "/c") w)) = [1; 2]
    /\ count is_post (trace (snd (AxiosInstance.onRejected (expired "/c") w))) = 1.
Proof.
  cbv zeta. run_scenario Hreach.
  match goal with
  | |- isRefreshing ?w = true /\ fst (AxiosInstance.onRejected ?e ?w) = _ /\ _ =>
      pose proof (single_flight_while_refreshing w e Hreach eq_refl) as H
  end.
  destruct (AxiosInstance.onRejected _ _) as [promise w'] eqn:Hcall.
  destruct H as (Hposts & _ & _ & Hqueued).
  destruct (Hqueued eq_refl) as (Hq & _).
  cbn [fst snd]. rewrite Hq, Hposts.
  vm_compute in Hcall. injection Hcall as <- _.
  split; [reflexivity|]. split; [reflexivity|]. split; reflexivity.
Defined.

(** C1 as stated fails for a request already marked as retried.  Request [/a]
    meets a 498, the refresh succeeds and [/a] is replayed (now with [_retry]
    set); request [/b] meets a 498 and starts a second refresh; while that one
    is in flight the replay of [/a] meets a 498 again: it is neither queued nor
    left pending, its promise is rejected at once. *)
Lemma retried_request_is_not_queued :
  let request u := {| url := u; method := "get"; headers := ∅; _retry := false |} in
  let expired r :=
    {| isAxiosError := true; response_status := Some 498%Z; config := r |} in
  let replayed :=
    set_header "Authorization" "Bearer T2" (set_retry true (request "/a")) in
  let w0 := page_load "http://localhost:3000" "" "/" in
  exists w,
    run [ ResponseError (expired (request "/a"));
          RefreshSettled 0 (PostFulfilled (DataObject (Some "T2")));
          ResponseError (expired (request "/b")) ] w0 = Some w
    /\ In (Replayed 0 replayed) (trace w)
    /\ isRefreshing w = true
    /\ response_status (expired replayed) = Some 498%Z
    /\ let (promise, w') := AxiosInstance.onRejected (expired replayed) w in
       promise = 2
       /\ failedQueue w' = []
       /\ (promise ∉ failedQueue w')
       /\ trace w' = trace w ++ [Rejected promise (expired replayed)]
       /\ settled promise (trace w') = true.
Proof.
  cbv zeta. run_scenario Hreach.
  split; [vm_compute; tauto|]. split; [reflexivity|]. split; [reflexivity|].
  destruct (AxiosInstance.onRejected _ _) as [promise w'] eqn:Hcall.
  vm_compute in Hcall. injection Hcall as <- <-.
  split; [reflexivity|]. split; [reflexivity|]. split; [apply not_elem_of_nil|].
  split; vm_compute; reflexivity.
Qed.

(** *** When the refresh call settles *)

(** C3.  When the awaited refresh call fails, the coordinator rejects every
    entry of the pending queue, in queue order, with the error of the handler
    that made the call (the triggering error), logs, assigns [/login] to the
    location exactly once, rejects the triggering request's own promise with the
    same error, and makes no further refresh call.  And whatever the outcome of
    the refresh call -- success or failure -- [isRefreshing] is cleared (the
    [finally] block). *)
Theorem refresh_failure_rejects_queue_and_redirects
    (w : World) (k : nat) (s : Suspended) :
  awaiting_refresh w !! k = Some s ->
  (forall failure, refresh_fails failure = true ->
     exists w',
       step (RefreshSettled k failure) w = Some w'
       /\ trace w'
          = trace w
            ++ map (fun p => Rejected p (handler_error s)) (failedQueue w)
            ++ [ ConsoleError "Token refresh failed:";
                 LocationAssign "/login";
                 Rejected (handler_promise s) (handler_error s) ]
       /\ failedQueue w' = []
       /\ location_href w' = "/login"
       /\ awaiting_refresh w' = delete k (awaiting_refresh w)
       /\ count is_post (trace w') = count is_post (trace w))
  /\ (forall result,
        exists w', step (RefreshSettled k result) w = Some w'
                   /\ isRefreshing w' = false).
Proof.
  intros Hk. split.
  - intros failure Hf. eexists. split; [by apply step_RefreshSettled|].
    rewrite resume_failure by done. wsimpl.
    split; [by rewrite <- !app_assoc|]. split; [done|]. split; [done|].
    split; [done|]. rewrite <- !app_assoc, !count_app.
    assert (count is_post (map (fun p => Rejected p (handler_error s)) (failedQueue w))
            = 0) as ->.
    { unfold count. induction (failedQueue w); simpl; auto. }
    unfold count at 2 3 4. simpl. lia.
  - intros result. eexists. split; [by apply step_RefreshSettled|].
    destruct (resume_cases result) as [(t & Ht & ->)|[(token & Ht & ->)|Hf]].
    + by rewrite resume_token.
    + by rewrite resume_no_token.
    + by rewrite resume_failure.
Qed.

(** The spec's scenario: three requests meet a 498 at once and the refresh
    endpoint fails.  All three are rejected with the first request's error, and
    the redirect to [/login] happens once. *)
Lemma refresh_failure_scenario :
  let request u := {| url := u; method := "get"; headers := ∅; _retry := false |} in
  let expired r :=
    {| isAxiosError := true; response_status := Some 498%Z; config := r |} in
  let triggering := expired (set_retry true (request "/a")) in
  let w0 := page_load "http://localhost:3000" "" "/" in
  exists w,
    run [ ResponseError (expired (request "/a"));
          ResponseError (expired (request "/b"));
          ResponseError (expired (request "/c")) ] w0 = Some w
    /\ exists w',
    step (RefreshSettled 0 PostRejected) w = Some w'
    /\ trace w'
       = [ Post "http://localhost:3000/auth/refresh-token";
           Rejected 1 triggering; Rejected 2 triggering;
           ConsoleError "Token refresh failed:"; LocationAssign "/login";
           Rejected 0 triggering ]
    /\ failedQueue w' = [] /\ isRefreshing w' = false.
Proof.
  cbv zeta. run_scenario Hreach.
  match goal with
  | |- exists w', step _ ?w = Some w' /\ _ =>
      destruct (refresh_failure_rejects_queue_and_redirects w 0 _ eq_refl)
        as [Hfail Hclean]
  end.
  destruct (Hfail PostRejected eq_refl) as (w' & Hstep & Htrace & Hq & _).
  destruct (Hclean PostRejected) as (w'' & Hstep' & Hflag).
  exists w'. split; [exact Hstep|].
  split; [rewrite Htrace; reflexivity|]. split; [exact Hq|].
  rewrite Hstep in Hstep'. by injection Hstep' as ->.
Defined.

(** C10, as amended.  When the refresh call is answered without a token (the
    [token] field is absent or empty), the pending queue is not processed on
    that path: it is left as it was, none of its promises is settled, and only
    the triggering request's promise is rejected, with its original 498 error;
    [isRefreshing] is cleared all the same.  The entries stay in [failedQueue],
    where the next refresh cycle that ends with a token or with a failure
    finds them. *)
Theorem refresh_without_token_leaves_queue
    (w : World) (k : nat) (s : Suspended) (token : option string) :
  reachable w ->
  awaiting_refresh w !! k = Some s ->
  Js.truthy token = false ->
  exists w',
    step (RefreshSettled k (PostFulfilled (DataObject token))) w = Some w'
    /\ failedQueue w' = failedQueue w
    /\ trace w' = trace w ++ [Rejected (handler_promise s) (handler_error s)]
    /\ Forall (fun p => settled p (trace w') = false) (failedQueue w')
    /\ isRefreshing w' = false
    /\ awaiting_refresh w' = [].
Proof.
  intros Hreach Hk Ht. pose proof (reachable_inv _ Hreach) as Hinv.
  pose proof (step_RefreshSettled w k s (PostFulfilled (DataObject token)) Hk)
    as Hstep.
  pose proof (step_inv _ _ _ Hstep Hinv) as Hinv'.
  destruct (awaiting_single _ _ _ Hinv Hk) as (-> & Hs & _).
  eexists. split; [exact Hstep|].
  split; [by rewrite resume_no_token|].
  split; [by rewrite resume_no_token|].
  split; [apply (inv_queue_pending _ Hinv')|].
  rewrite resume_no_token by done. wsimpl. by rewrite Hs.
Qed.

Lemma refresh_without_token_scenario :
  let request u := {| url := u; method := "get"; headers := ∅; _retry := false |} in
  let expired r :=
    {| isAxiosError := true; response_status := Some 498%Z; config := r |} in
  let w0 := page_load "http://localhost:3000" "" "/" in
  exists w,
    run [ ResponseError (expired (request "/a"));
          ResponseError (expired (request "/b")) ] w0 = Some w
    /\ exists w',
    step (RefreshSettled 0 (PostFulfilled (DataObject None))) w = Some w'
    /\ failedQueue w' = [1]
    /\ trace w'
       = [ Post "http://localhost:3000/auth/refresh-token";
           Rejected 0 (expired (set_retry true (request "/a"))) ]
    /\ isRefreshing w' = false.
Proof.
  cbv zeta. run_scenario Hreach.
  match goal with
  | |- exists w', step _ ?w = Some w' /\ _ =>
      destruct (refresh_without_token_leaves_queue w 0 _ None Hreach eq_refl eq_refl)
        as (w' & Hstep & Hq & Htrace & _ & Hflag & _)
  end.
  exists w'. split; [exact Hstep|].
  split; [rewrite Hq; reflexivity|]. split; [rewrite Htrace; reflexivity|]. exact Hflag.
Defined.

(** C10 as stated fails in its "never" and "forever": the queue left behind by
    a refresh without token is processed by the next refresh cycle.  Request
    [/b] is queued behind [/a]; the refresh for [/a] is answered without a
    token, and [/b] stays queued; later request [/c] meets a 498 and makes a
    refresh call that returns [T3]: [processQueue] then resolves the promise of
    [/b]. *)
Lemma queue_left_by_tokenless_refresh_is_settled_later :
  let request u := {| url := u; method := "get"; headers := ∅; _retry := false |} in
  let expired r :=
    {| isAxiosError := true; response_status := Some 498%Z; config := r |} in
  let w0 := page_load "http://localhost:3000" "" "/" in
  exists w1,
    run [ ResponseError (expired (request "/a"));
          ResponseError (expired (request "/b"));
          RefreshSettled 0 (PostFulfilled (DataObject None)) ] w0 = Some w1
    /\ failedQueue w1 = [1] /\ settled 1 (trace w1) = false
    /\ exists w2,
    run [ ResponseError (expired (request "/c"));
          RefreshSettled 0 (PostFulfilled (DataObject (Some "T3"))) ] w1 = Some w2
    /\ In (Resolved 1 "T3") (trace w2)
    /\ settled 1 (trace w2) = true
    /\ failedQueue w2 = [].
Proof.
  cbv zeta. run_scenario Hreach.
  split; [reflexivity|]. split; [reflexivity|].
  eexists. split; [vm_compute; reflexivity|].
  split; [vm_compute; tauto|]. split; reflexivity.
Qed.

(** What a successful refresh does (the part of C2 the code carries out): the
    new token becomes the default [Authorization] header and that of the
    original request, which is marked as retried; the queue is resolved with
    the token in queue order and emptied; then the original request is
    replayed; [isRefreshing] is cleared. *)
Lemma refresh_success_resolves_queue_and_replays
    (w : World) (k : nat) (s : Suspended) (t : string) :
  reachable w ->
  awaiting_refresh w !! k = Some s ->
  t ≠ "" ->
  exists w',
    step (RefreshSettled k (PostFulfilled (DataObject (Some t)))) w = Some w'
    /\ defaults_headers w' !! "Authorization" = Some ("Bearer " +:+ t)
    /\ trace w'
       = trace w
         ++ map (fun p => Resolved p t) (failedQueue w)
         ++ [ Replayed (handler_promise s)
                (set_header "Authorization" ("Bearer " +:+ t)
                   (config (handler_error s))) ]
    /\ _retry (config (handler_error s)) = true
    /\ failedQueue w' = []
    /\ isRefreshing w' = false
    /\ count is_post (trace w') = count is_post (trace w).
Proof.
  intros Hreach Hk Ht. pose proof (reachable_inv _ Hreach) as Hinv.
  destruct (awaiting_single _ _ _ Hinv Hk) as (-> & Hs & _).
  pose proof (inv_awaiting_retried _ Hinv) as Hret. rewrite Hs in Hret.
  apply Forall_inv in Hret.
  eexists. split; [by apply step_RefreshSettled|].
  rewrite resume_token by done. wsimpl.
  split; [by rewrite lookup_insert_eq|].
  split; [by rewrite <- app_assoc|].
  split; [done|]. split; [done|]. split; [done|].
  rewrite !count_app.
  assert (count is_post (map (fun p => Resolved p t) (failedQueue w)) = 0) as ->.
  { unfold count. induction (failedQueue w); simpl; auto. }
  unfold count at 2. simpl. lia.
Qed.

(** C6, as amended.  After a successful refresh the new token is the default
    [Authorization] header of the client and the header of the original
    request; the cached auth token ([authTokenCache]) is left as it was.  No
    step of the response interceptor changes [authTokenCache]: an event changes
    it only by running [getAuthToken]. *)
Theorem refresh_sets_header_not_cache :
  (forall w k s t,
      awaiting_refresh w !! k = Some s -> t ≠ "" ->
      exists w',
        step (RefreshSettled k (PostFulfilled (DataObject (Some t)))) w = Some w'
        /\ defaults_headers w' !! "Authorization" = Some ("Bearer " +:+ t)
        /\ In (Replayed (handler_promise s)
                 (set_header "Authorization" ("Bearer " +:+ t)
                    (config (handler_error s))))
              (trace w')
        /\ authTokenCache w' = authTokenCache w)
  /\ (forall ev w w',
         step ev w = Some w' ->
         authTokenCache w' ≠ authTokenCache w -> calls_getAuthToken ev = true).
Proof.
  split.
  - intros w k s t Hk Ht. eexists. split; [by apply step_RefreshSettled|].
    rewrite resume_token by done. wsimpl.
    split; [by rewrite lookup_insert_eq|]. split; [|done].
    apply in_or_app. right. by left.
  - intros ev w w' Hs Hne.
    destruct (step_token_caches _ _ _ Hs) as (_ & _ & Hsame).
    destruct (calls_getAuthToken ev); [done|]. by destruct Hne; auto.
Qed.

Lemma refresh_sets_header_scenario :
  let request u := {| url := u; method := "get"; headers := ∅; _retry := false |} in
  let expired r :=
    {| isAxiosError := true; response_status := Some 498%Z; config := r |} in
  let w0 := page_load "http://localhost:3000" "" "/" in
  exists w,
    run [ResponseError (expired (request "/a"))] w0 = Some w
    /\ exists w',
    step (RefreshSettled 0 (PostFulfilled (DataObject (Some "T2")))) w = Some w'
    /\ defaults_headers w' !! "Authorization" = Some "Bearer T2"
    /\ authTokenCache w' = None.
Proof.
  cbv zeta. run_scenario Hreach.
  match goal with
  | |- exists w', step _ ?w = Some w' /\ _ =>
      destruct (proj1 refresh_sets_header_not_cache w 0 _ "T2" eq_refl
                  ltac:(discriminate))
        as (w' & Hstep & Hdefault & _ & Hcache)
  end.
  exists w'. split; [exact Hstep|].
  split; [exact Hdefault|]. rewrite Hcache. reflexivity.
Defined.

(** C6 as stated fails: the refresh does not update [authTokenCache].  The
    page has fetched and cached ["T1"]; a request meets a 498 and the refresh
    returns ["T2"]: the default header becomes [Bearer T2], the cache still
    holds ["T1"]. *)
Lemma refresh_leaves_authTokenCache_stale :
  let request u := {| url := u; method := "get"; headers := ∅; _retry := false |} in
  let expired r :=
    {| isAxiosError := true; response_status := Some 498%Z; config := r |} in
  let server := fun _ : nat => FetchResponse true (JsonObject (Some "T1")) in
  let w0 := page_load "http://localhost:3000" "XSRF-TOKEN=abc123" "/" in
  exists w,
    run [ CallGetAuthToken 1000 server;
          ResponseError (expired (request "/a"));
          RefreshSettled 0 (PostFulfilled (DataObject (Some "T2"))) ] w0 = Some w
    /\ defaults_headers w !! "Authorization" = Some "Bearer T2"
    /\ authTokenCache w = Some "T1"
    /\ authTokenCache w ≠ Some "T2".
Proof.
  cbv zeta. run_scenario Hreach. split; [reflexivity|].
  split; [reflexivity|]. discriminate.
Qed.

(** In that world the replayed request, passing through the request
    interceptor again, leaves with the stale cached token. *)
Lemma replay_carries_cached_token :
  let request u := {| url := u; method := "get"; headers := ∅; _retry := false |} in
  let expired r :=
    {| isAxiosError := true; response_status := Some 498%Z; config := r |} in
  let server := fun _ : nat => FetchResponse true (JsonObject (Some "T1")) in
  let replayed :=
    set_header "Authorization" "Bearer T2" (set_retry true (request "/a")) in
  let w0 := page_load "http://localhost:3000" "XSRF-TOKEN=abc123" "/" in
  exists w,
    run [ CallGetAuthToken 1000 server;
          ResponseError (expired (request "/a"));
          RefreshSettled 0 (PostFulfilled (DataObject (Some "T2"))) ] w0 = Some w
    /\ In (Replayed 0 replayed) (trace w)
    /\ exists sent,
    fst (AxiosInstance.onRequest replayed (fun _ => FetchRejected) w) = Normal sent
    /\ headers sent !! "Authorization" = Some "Bearer T1".
Proof.
  cbv zeta. run_scenario Hreach.
  split; [vm_compute; tauto|].
  eexists. split; [vm_compute; reflexivity|]. vm_compute. reflexivity.
Qed.

(** C8 fails on the code.  Two requests meet a 498, the second while the
    refresh for the first is in flight; the refresh endpoint answers
    [{token: ""}].  The flag is cleared but [processQueue] is not called: the
    queue is non-empty while no refresh is in flight, and its entry was neither
    resolved nor rejected in this cycle. *)
Lemma queue_outlives_tokenless_refresh :
  let request u := {| url := u; method := "get"; headers := ∅; _retry := false |} in
  let expired r :=
    {| isAxiosError := true; response_status := Some 498%Z; config := r |} in
  let w0 := page_load "http://localhost:3000" "" "/" in
  exists w,
    run [ ResponseError (expired (request "/a"));
          ResponseError (expired (request "/b"));
          RefreshSettled 0 (PostFulfilled (DataObject (Some ""))) ] w0 = Some w
    /\ isRefreshing w = false
    /\ failedQueue w = [1]
    /\ settled 1 (trace w) = false.
Proof. cbv zeta. run_scenario Hreach. vm_compute. repeat split; reflexivity. Qed.

(** Apart from that case the invariant of C8 holds: if no refresh call is
    answered without a token, the queue is empty whenever no refresh is in
    flight. *)
Lemma queue_only_while_refreshing base cookie href evs : forall w,
  Forall (fun ev => tokenless ev = false) evs ->
  run evs (page_load base cookie href) = Some w ->
  isRefreshing w = false -> failedQueue w = [].
Proof.
  assert (Hstep : forall ev w w',
             tokenless ev = false -> step ev w = Some w' ->
             (isRefreshing w = false -> failedQueue w = []) ->
             isRefreshing w' = false -> failedQueue w' = []).
  { intros ev w w' Hev Hs Hw.
    assert (Htoken : token_frame w w' -> isRefreshing w' = false -> failedQueue w' = []).
    { intros (_ & _ & _ & Hr & Hq & _). rewrite Hr, Hq. exact Hw. }
    destruct (is_coordinator_event ev) eqn:Hco;
      [|by apply Htoken, (token_step_frame ev)].
    destruct ev as [error|k result| | | | | | |]; try discriminate; simpl in Hs.
    - injection Hs as <-. destruct (refresh_condition error) eqn:Hc.
      + destruct (isRefreshing w) eqn:Hr.
        * rewrite onRejected_queues by done. wsimpl. congruence.
        * rewrite onRejected_triggers by done. wsimpl. discriminate.
      + rewrite onRejected_passes by done. wsimpl. exact Hw.
    - destruct (awaiting_refresh w !! k) as [s|]; [|done]. injection Hs as <-.
      intros _.
      destruct (resume_cases result) as [(t & Ht & ->)|[(token & Ht & ->)|Hf]].
      + by rewrite resume_token.
      + simpl in Hev. by rewrite Ht in Hev.
      + by rewrite resume_failure. }
  assert (Hrun : forall evs w w',
             Forall (fun ev => tokenless ev = false) evs -> run evs w = Some w' ->
             (isRefreshing w = false -> failedQueue w = []) ->
             isRefreshing w' = false -> failedQueue w' = []).
  { clear evs. induction evs as [|ev evs IH]; intros w w' Hq; simpl.
    - by intros [= <-].
    - apply Forall_cons in Hq as [Hev Hq].
      destruct (step ev w) as [w1|] eqn:Hs; [|done]. intros Hr Hw.
      eapply IH; eauto. }
  intros w Hq Hr. eapply Hrun; eauto.
Qed.

(** C2 fails on the code in its last part.  Three requests meet a 498 at once
    and the refresh returns ["T2"].  One refresh call is made and the promises
    of the two queued requests are resolved in arrival order after it -- but
    with the bare token: only the first request is sent again, the queued ones
    never are. *)
Lemma queued_requests_are_not_replayed :
  let request u := {| url := u; method := "get"; headers := ∅; _retry := false |} in
  let expired r :=
    {| isAxiosError := true; response_status := Some 498%Z; config := r |} in
  let w0 := page_load "http://localhost:3000" "" "/" in
  exists w,
    run [ ResponseError (expired (request "/a"));
          ResponseError (expired (request "/b"));
          ResponseError (expired (request "/c"));
          RefreshSettled 0 (PostFulfilled (DataObject (Some "T2"))) ] w0 = Some w
    /\ trace w
       = [ Post "http://localhost:3000/auth/refresh-token";
           Resolved 1 "T2"; Resolved 2 "T2";
           Replayed 0
             (set_header "Authorization" "Bearer T2" (set_retry true (request "/a"))) ]
    /\ count is_post (trace w) = 1
    /\ count is_replay (trace w) = 1.
Proof. cbv zeta. run_scenario Hreach. vm_compute. repeat split; reflexivity. Qed.

(** ** The session guard *)

Lemma fetchToken_logs_only r g :
  let g' := snd (PrivateRoute.fetchToken r g) in
  PrivateRoute.isAuthenticated g' = PrivateRoute.isAuthenticated g
  /\ PrivateRoute.isMounted g' = PrivateRoute.isMounted g
  /\ PrivateRoute.phase g' = PrivateRoute.phase g
  /\ List.filter is_navigate (PrivateRoute.actions g')
     = List.filter is_navigate (PrivateRoute.actions g)
  /\ List.filter is_get (PrivateRoute.actions g')
     = List.filter is_get (PrivateRoute.actions g).
Proof.
  destruct r as [[]|status []]; simpl; try destruct (bool_decide _); simpl;
    rewrite ?List.filter_app, ?app_nil_r; done.
Qed.

Lemma guard_step_unmounted ev g :
  PrivateRoute.isMounted g = false ->
  PrivateRoute.isMounted (PrivateRoute.guard_step ev g) = false
  /\ PrivateRoute.isAuthenticated (PrivateRoute.guard_step ev g)
     = PrivateRoute.isAuthenticated g.
Proof.
  intros Hm. destruct ev as [r|r|], (PrivateRoute.phase g) eqn:Hp; simpl;
    rewrite ?Hp; try done.
  - unfold PrivateRoute.on_token.
    pose proof (fetchToken_logs_only r g) as (Ha & Hm' & _).
    destruct (PrivateRoute.fetchToken r g) as [authToken g1]. simpl in *.
    unfold Js.if_truthy. destruct authToken as [t|]; [destruct (Js.truthy _)|];
      simpl; rewrite ?Hm'; rewrite ?Hm; simpl; by rewrite ?Hm'.
  - destruct r; simpl; rewrite Hm; done.
Qed.

(** [fetchToken] returns a token only for an answer with status 200 whose body
    has a non-empty [token]. *)
Lemma fetchToken_without_token r g :
  (forall t, t ≠ "" -> r ≠ token_answer t) ->
  Js.truthy (fst (PrivateRoute.fetchToken r g)) = false.
Proof.
  intros Hr. destruct r as [[]|status [|token]]; simpl; try done;
    destruct (bool_decide (status = 200%Z)) eqn:Hs; try done.
  apply bool_decide_eq_true_1 in Hs as ->. cbn [fst].
  destruct (Js.truthy token) eqn:Ht; [|done].
  destruct (truthy_inv _ Ht) as (t & -> & Hne). by destruct (Hr t Hne).
Qed.

(** Once the token request has ended, an unmounted guard neither changes its
    state, nor navigates, nor sends a request. *)
Lemma guard_step_after_teardown ev g :
  PrivateRoute.isMounted g = false ->
  PrivateRoute.phase g ≠ PrivateRoute.AwaitingToken ->
  let g' := PrivateRoute.guard_step ev g in
  PrivateRoute.isMounted g' = false
  /\ PrivateRoute.phase g' ≠ PrivateRoute.AwaitingToken
  /\ PrivateRoute.isAuthenticated g' = PrivateRoute.isAuthenticated g
  /\ List.filter is_navigate (PrivateRoute.actions g')
     = List.filter is_navigate (PrivateRoute.actions g)
  /\ List.filter is_get (PrivateRoute.actions g')
     = List.filter is_get (PrivateRoute.actions g).
Proof.
  intros Hm Hp. cbv zeta.
  destruct ev as [r|r|], (PrivateRoute.phase g) eqn:Hphase; try done;
    cbn [PrivateRoute.guard_step]; rewrite ?Hphase; try done.
  - destruct r; cbn; rewrite ?Hm; cbn; rewrite ?Hm, ?List.filter_app, ?app_nil_r;
      done.
  - cbn. by rewrite Hphase.
  - cbn. by rewrite Hphase.
Qed.

(** C9.  The guard starts in [Loading] with the token request sent.  When that
    request is answered with status 200 and a non-empty token, the check
    endpoint is called with [Authorization: Bearer <token>]; when that call
    succeeds the guard shows its children ([Authenticated]) and does not
    navigate.  When the token request ends in any other way (rejected, another
    status, no body, no token or an empty one), or when the check call fails,
    the guard shows nothing ([Unauthenticated]) and navigates to [/login]
    once.  After deactivation nothing that still completes changes
    [isAuthenticated] or what is rendered; a check request that completes then
    causes no navigation and no request either.  The redirect of a token
    request that ends without token is not behind the [isMounted] test: it
    takes place after deactivation too, with [isAuthenticated] unchanged. *)
Theorem session_guard_outcomes :
  (PrivateRoute.render PrivateRoute.activate = PrivateRoute.Loading
   /\ PrivateRoute.actions PrivateRoute.activate = [PrivateRoute.Get "/auth/get-token" ∅])
  /\ (forall t, t ≠ "" ->
        let g := PrivateRoute.guard_run
                   [PrivateRoute.TokenSettled (token_answer t)] PrivateRoute.activate in
        PrivateRoute.render g = PrivateRoute.Loading
        /\ PrivateRoute.actions g
           = [ PrivateRoute.Get "/auth/get-token" ∅;
               PrivateRoute.Get "/account/check-auth"
                 {[ "Authorization" := "Bearer " +:+ t ]} ])
  /\ (forall t status data, t ≠ "" ->
        let g := PrivateRoute.guard_run
                   [ PrivateRoute.TokenSettled (token_answer t);
                     PrivateRoute.CheckSettled (PrivateRoute.GetFulfilled status data) ]
                   PrivateRoute.activate in
        PrivateRoute.render g = PrivateRoute.Children
        /\ List.filter is_navigate (PrivateRoute.actions g) = [])
  /\ (forall r,
        (forall t, t ≠ "" -> r ≠ token_answer t) ->
        let g := PrivateRoute.guard_run [PrivateRoute.TokenSettled r]
                   PrivateRoute.activate in
        PrivateRoute.render g = PrivateRoute.Nothing
        /\ List.filter is_navigate (PrivateRoute.actions g)
           = [PrivateRoute.Navigate "/login"]
        /\ List.filter is_get (PrivateRoute.actions g)
           = [PrivateRoute.Get "/auth/get-token" ∅])
  /\ (forall t axiosError, t ≠ "" ->
        let g := PrivateRoute.guard_run
                   [ PrivateRoute.TokenSettled (token_answer t);
                     PrivateRoute.CheckSettled (PrivateRoute.GetRejected axiosError) ]
                   PrivateRoute.activate in
        PrivateRoute.render g = PrivateRoute.Nothing
        /\ List.filter is_navigate (PrivateRoute.actions g)
           = [PrivateRoute.Navigate "/login"])
  /\ (forall evs g,
        PrivateRoute.isMounted g = false ->
        let g' := PrivateRoute.guard_run evs g in
        PrivateRoute.isAuthenticated g' = PrivateRoute.isAuthenticated g
        /\ PrivateRoute.render g' = PrivateRoute.render g
        /\ (PrivateRoute.phase g ≠ PrivateRoute.AwaitingToken ->
            List.filter is_navigate (PrivateRoute.actions g')
            = List.filter is_navigate (PrivateRoute.actions g)
            /\ List.filter is_get (PrivateRoute.actions g')
               = List.filter is_get (PrivateRoute.actions g)))
  /\ (forall r g,
        PrivateRoute.isMounted g = false ->
        PrivateRoute.phase g = PrivateRoute.AwaitingToken ->
        (forall t, t ≠ "" -> r ≠ token_answer t) ->
        let g' := PrivateRoute.guard_step (PrivateRoute.TokenSettled r) g in
        PrivateRoute.isAuthenticated g' = PrivateRoute.isAuthenticated g
        /\ List.filter is_navigate (PrivateRoute.actions g')
           = List.filter is_navigate (PrivateRoute.actions g)
             ++ [PrivateRoute.Navigate "/login"]).
Proof.
  assert (Hcheck : forall t, t ≠ "" ->
            PrivateRoute.guard_run [PrivateRoute.TokenSettled (token_answer t)]
              PrivateRoute.activate
            = PrivateRoute.set_phase PrivateRoute.AwaitingCheck
                (PrivateRoute.act
                   (PrivateRoute.Get "/account/check-auth"
                      {[ "Authorization" := "Bearer " +:+ t ]})
                   PrivateRoute.activate)).
  { intros t Ht.
    change (PrivateRoute.guard_run [?ev] ?g) with (PrivateRoute.guard_step ev g).
    cbn [PrivateRoute.guard_step PrivateRoute.activate PrivateRoute.phase].
    unfold PrivateRoute.on_token, PrivateRoute.fetchToken, token_answer.
    rewrite bool_decide_eq_true_2 by done.
    by rewrite (if_truthy_true _ t). }
  assert (Hmissing : forall r g,
            (forall t, t ≠ "" -> r ≠ token_answer t) ->
            let g' := PrivateRoute.on_token r g in
            PrivateRoute.isAuthenticated g'
            = (if PrivateRoute.isMounted g then Some false
               else PrivateRoute.isAuthenticated g)
            /\ List.filter is_navigate (PrivateRoute.actions g')
               = List.filter is_navigate (PrivateRoute.actions g)
                 ++ [PrivateRoute.Navigate "/login"]
            /\ List.filter is_get (PrivateRoute.actions g')
               = List.filter is_get (PrivateRoute.actions g)).
  { intros r g Hr. cbv zeta. unfold PrivateRoute.on_token.
    pose proof (fetchToken_without_token r g Hr) as Hnone.
    pose proof (fetchToken_logs_only r g) as (Ha & Hm & _ & Hn & Hg).
    destruct (PrivateRoute.fetchToken r g) as [authToken g1].
    cbn [fst snd] in *. rewrite if_truthy_false by done.
    cbn. rewrite Hm. destruct (PrivateRoute.isMounted g); cbn;
      rewrite !List.filter_app, Hn, Hg, ?Ha, ?app_nil_r; done. }
  split; [done|]. split; [|split; [|split; [|split; [|split]]]].
  - intros t Ht. cbv zeta. by rewrite Hcheck.
  - intros t status data Ht. cbv zeta.
    change (PrivateRoute.guard_run [?a; ?b] ?g)
      with (PrivateRoute.guard_step b (PrivateRoute.guard_run [a] g)).
    by rewrite Hcheck.
  - intros r Hr. cbv zeta.
    change (PrivateRoute.guard_run [?ev] ?g) with (PrivateRoute.guard_step ev g).
    cbn [PrivateRoute.guard_step PrivateRoute.activate PrivateRoute.phase].
    destruct (Hmissing r PrivateRoute.activate Hr) as (Ha & Hn & Hg).
    unfold PrivateRoute.render. rewrite Ha, Hn, Hg. done.
  - intros t axiosError Ht. cbv zeta.
    change (PrivateRoute.guard_run [?a; ?b] ?g)
      with (PrivateRoute.guard_step b (PrivateRoute.guard_run [a] g)).
    by rewrite Hcheck.
  - intros evs g Hm. cbv zeta.
    assert (Hstate : PrivateRoute.isAuthenticated (PrivateRoute.guard_run evs g)
                     = PrivateRoute.isAuthenticated g).
    { revert g Hm. induction evs as [|ev evs IH]; intros g Hm; [done|].
      destruct (guard_step_unmounted ev g Hm) as [Hm' Ha].
      cbn. unfold PrivateRoute.guard_run in IH. by rewrite IH. }
    split; [exact Hstate|]. split; [unfold PrivateRoute.render; by rewrite Hstate|].
    clear Hstate. revert g Hm. induction evs as [|ev evs IH]; intros g Hm Hp; [done|].
    destruct (guard_step_after_teardown ev g Hm Hp) as (Hm' & Hp' & Ha & Hn & Hg).
    cbn. unfold PrivateRoute.guard_run in IH.
    destruct (IH _ Hm' Hp') as [Hn' Hg']. by rewrite Hn', Hg'.
  - intros r g Hm Hp Hr. cbv zeta.
    cbn [PrivateRoute.guard_step]. rewrite Hp.
    destruct (Hmissing r g Hr) as (Ha & Hn & _). by rewrite Ha, Hn, Hm.
Qed.

(** Token requests that end without a token, a check that succeeds and one that
    fails, and a guard that is deactivated while a request is still on the
    way. *)
Lemma session_guard_scenario :
  let run := fun evs => PrivateRoute.guard_run evs PrivateRoute.activate in
  let navigations :=
    fun g => List.filter is_navigate (PrivateRoute.actions g) in
  let ok := PrivateRoute.GetFulfilled 200 DataNullish in
  (PrivateRoute.render (run [PrivateRoute.TokenSettled (PrivateRoute.GetRejected true)])
   = PrivateRoute.Nothing
   /\ navigations (run [PrivateRoute.TokenSettled (PrivateRoute.GetRejected true)])
      = [PrivateRoute.Navigate "/login"])
  /\ (PrivateRoute.render
        (run [PrivateRoute.TokenSettled
                (PrivateRoute.GetFulfilled 401 (DataObject (Some "T1")))])
      = PrivateRoute.Nothing)
  /\ (PrivateRoute.render
        (run [PrivateRoute.TokenSettled
                (PrivateRoute.GetFulfilled 200 (DataObject (Some "")))])
      = PrivateRoute.Nothing)
  /\ (PrivateRoute.render
        (run [PrivateRoute.TokenSettled (token_answer "T1");
              PrivateRoute.CheckSettled ok])
      = PrivateRoute.Children)
  /\ (PrivateRoute.render
        (run [PrivateRoute.TokenSettled (token_answer "T1");
              PrivateRoute.CheckSettled (PrivateRoute.GetRejected true)])
      = PrivateRoute.Nothing)
  /\ (PrivateRoute.render
        (run [PrivateRoute.TokenSettled (token_answer "T1"); PrivateRoute.Unmount;
              PrivateRoute.CheckSettled ok])
      = PrivateRoute.Loading
      /\ navigations
           (run [PrivateRoute.TokenSettled (token_answer "T1"); PrivateRoute.Unmount;
                 PrivateRoute.CheckSettled (PrivateRoute.GetRejected true)])
         = [])
  /\ (PrivateRoute.render
        (run [PrivateRoute.Unmount;
              PrivateRoute.TokenSettled (PrivateRoute.GetRejected true)])
      = PrivateRoute.Loading
      /\ navigations
           (run [PrivateRoute.Unmount;
                 PrivateRoute.TokenSettled (PrivateRoute.GetRejected true)])
         = [PrivateRoute.Navigate "/login"]).
Proof.
  cbv zeta.
  destruct session_guard_outcomes
    as (_ & _ & Hauth & Hmissing & Hfails & Hafter & Hredirect).
  assert (Hne : "T1" ≠ "") by discriminate.
  split; [|split; [|split; [|split; [|split; [|split]]]]].
  - destruct (Hmissing (PrivateRoute.GetRejected true)) as (Hr & Hn & _);
      [discriminate|]. by split.
  - destruct (Hmissing (PrivateRoute.GetFulfilled 401 (DataObject (Some "T1"))))
      as (Hr & _); [discriminate|]. exact Hr.
  - destruct (Hmissing (PrivateRoute.GetFulfilled 200 (DataObject (Some ""))))
      as (Hr & _); [|exact Hr]. intros t Ht [= Heq]. by destruct Ht.
  - exact (proj1 (Hauth "T1" 200%Z DataNullish Hne)).
  - exact (proj1 (Hfails "T1" true Hne)).
  - pose (g := PrivateRoute.guard_run
                 [PrivateRoute.TokenSettled (token_answer "T1"); PrivateRoute.Unmount]
                 PrivateRoute.activate).
    split.
    + destruct (Hafter [PrivateRoute.CheckSettled (PrivateRoute.GetFulfilled 200 DataNullish)]
                  g eq_refl) as (_ & Hr & _).
      exact Hr.
    + destruct (Hafter [PrivateRoute.CheckSettled (PrivateRoute.GetRejected true)]
                  g eq_refl) as (_ & _ & Hn).
      destruct Hn as [Hn _]; [discriminate|]. exact Hn.
  - pose (g := PrivateRoute.guard_run [PrivateRoute.Unmount] PrivateRoute.activate).
    split.
    + destruct (Hafter [PrivateRoute.TokenSettled (PrivateRoute.GetRejected true)]
                  g eq_refl) as (_ & Hr & _).
      exact Hr.
    + destruct (Hredirect (PrivateRoute.GetRejected true) g eq_refl eq_refl)
        as (_ & Hn); [discriminate|]. exact Hn.
Defined.


(** ** A whole refresh cycle *)

Lemma run_app evs1 evs2 w :
  run (evs1 ++ evs2) w
  = match run evs1 w with Some w1 => run evs2 w1 | None => None end.
Proof.
  revert w. induction evs1 as [|ev evs1 IH]; intros w; simpl; [done|].
  destruct (step ev w); auto.
Qed.

(** Requests that meet a 498 while a refresh is in flight line up in the
    queue in the order in which they arrive, and nothing else happens. *)
Lemma expiries_line_up errors : forall w,
  isRefreshing w = true ->
  Forall (fun e => refresh_condition e = true) errors ->
  exists w',
    run (map ResponseError errors) w = Some w'
    /\ failedQueue w' = failedQueue w ++ seq (promises w) (length errors)
    /\ promises w' = promises w + length errors
    /\ trace w' = trace w
    /\ awaiting_refresh w' = awaiting_refresh w
    /\ defaults_headers w' = defaults_headers w
    /\ isRefreshing w' = true.
Proof.
  induction errors as [|e errors IH]; intros w Hr Hc.
  - exists w. simpl. rewrite app_nil_r, Nat.add_0_r. done.
  - apply Forall_cons in Hc as [He Hc]. cbn [map run step].
    rewrite onRejected_queues by done. cbn [snd].
    destruct (IH (set_failedQueue (failedQueue w ++ [promises w])
                    (set_promises (S (promises w)) w)) Hr Hc)
      as (w' & Hrun & Hq & Hp & Ht & Ha & Hd & Hr').
    exists w'. split; [exact Hrun|]. revert Hq Hp Ht Ha Hd. wsimpl.
    intros -> -> -> -> ->. rewrite <- app_assoc. cbn [length seq app].
    repeat split; [lia | done].
Qed.

(** One refresh call serves any number of requests that meet a 498 together:
    the first makes the call, the others wait in the queue; when the call
    returns a token, the waiting promises are resolved with it in their order of
    arrival, after the call, and the first request is replayed. *)
Theorem concurrent_expiries_share_one_refresh
    (w : World) (first : AxiosError) (others : list AxiosError) (t : string) :
  reachable w -> isRefreshing w = false ->
  refresh_condition first = true ->
  Forall (fun e => refresh_condition e = true) others ->
  t ≠ "" ->
  exists w',
    run (ResponseError first :: map ResponseError others
           ++ [RefreshSettled 0 (PostFulfilled (DataObject (Some t)))]) w = Some w'
    /\ trace w'
       = trace w
         ++ [Post (baseURL w +:+ "/auth/refresh-token")]
         ++ map (fun p => Resolved p t)
              (failedQueue w ++ seq (S (promises w)) (length others))
         ++ [ Replayed (promises w)
                (set_header "Authorization" ("Bearer " +:+ t)
                   (set_retry true (config first))) ]
    /\ count is_post (trace w') = count is_post (trace w) + 1
    /\ defaults_headers w' !! "Authorization" = Some ("Bearer " +:+ t)
    /\ failedQueue w' = []
    /\ isRefreshing w' = false.
Proof.
  intros Hreach Hidle Hfirst Hothers Ht.
  pose proof (inv_single_flight _ (reachable_inv _ Hreach)) as Hnone.
  rewrite Hidle in Hnone. apply nil_length_inv in Hnone.
  cbn [run step]. rewrite onRejected_triggers by done. cbn [snd].
  set (w1 := set_awaiting_refresh _ _).
  destruct (expiries_line_up others w1 eq_refl Hothers)
    as (w2 & Hrun & Hq & Hp & Htr & Ha & Hd & Hr).
  rewrite run_app, Hrun. cbn [run].
  assert (Hk : awaiting_refresh w2 !! 0
               = Some {| handler_promise := promises w;
                         handler_error :=
                           set_config (set_retry true (config first)) first |}).
  { rewrite Ha. subst w1. wsimpl. by rewrite Hnone. }
  rewrite (step_RefreshSettled _ _ _ _ Hk), resume_token by done.
  eexists. split; [reflexivity|]. revert Hq Htr Hd. subst w1. wsimpl.
  intros -> -> ->.
  split; [by rewrite <- !app_assoc|].
  split; [|split; [by rewrite lookup_insert_eq | done]].
  rewrite !count_app.
  assert (forall l, count is_post (map (fun p => Resolved p t) l) = 0) as ->.
  { intros l. unfold count. induction l; simpl; auto. }
  unfold count at 2 3. simpl. lia.
Qed.

(** The spec's scenario: three requests meet a 498 at once and the refresh
    endpoint returns ["T2"]. *)
Lemma concurrent_expiries_scenario :
  let request u := {| url := u; method := "get"; headers := ∅; _retry := false |} in
  let expired r :=
    {| isAxiosError := true; response_status := Some 498%Z; config := r |} in
  let w0 := page_load "http://localhost:3000" "" "/" in
  exists w,
    run [ ResponseError (expired (request "/a"));
          ResponseError (expired (request "/b"));
          ResponseError (expired (request "/c"));
          RefreshSettled 0 (PostFulfilled (DataObject (Some "T2"))) ] w0 = Some w
    /\ count is_post (trace w) = 1
    /\ defaults_headers w !! "Authorization" = Some "Bearer T2".
Proof.
  cbv zeta.
  destruct (concurrent_expiries_share_one_refresh
              (page_load "http://localhost:3000" "" "/")
              {| isAxiosError := true; response_status := Some 498%Z;
                 config := {| url := "/a"; method := "get"; headers := ∅;
                              _retry := false |} |}
              [ {| isAxiosError := true; response_status := Some 498%Z;
                   config := {| url := "/b"; method := "get"; headers := ∅;
                                _retry := false |} |};
                {| isAxiosError := true; response_status := Some 498%Z;
                   config := {| url := "/c"; method := "get"; headers := ∅;
                                _retry := false |} |} ]
              "T2")
    as (w & Hrun & _ & Hposts & Hdefault & _).
  - by exists "http://localhost:3000", "", "/", [].
  - reflexivity.
  - reflexivity.
  - repeat constructor.
  - discriminate.
  - exists w. split; [exact Hrun|]. split; [exact Hposts | exact Hdefault].
Defined.

(** At any time at most one refresh call is in flight, and one is exactly
    while [isRefreshing] is set. *)
Theorem at_most_one_refresh_in_flight (w : World) :
  reachable w ->
  length (awaiting_refresh w) = (if isRefreshing w then 1 else 0)
  /\ length (awaiting_refresh w) <= 1.
Proof.
  intros Hreach. pose proof (inv_single_flight _ (reachable_inv _ Hreach)) as H.
  split; [exact H|]. destruct (isRefreshing w); lia.
Qed.

Lemma at_most_one_refresh_scenario :
  let request u := {| url := u; method := "get"; headers := ∅; _retry := false |} in
  let expired r :=
    {| isAxiosError := true; response_status := Some 498%Z; config := r |} in
  let w0 := page_load "http://localhost:3000" "" "/" in
  exists w,
    run [ ResponseError (expired (request "/a"));
          ResponseError (expired (request "/b")) ] w0 = Some w
    /\ length (awaiting_refresh w) <= 1.
Proof.
  cbv zeta. run_scenario Hreach.
  exact (proj2 (at_most_one_refresh_in_flight _ Hreach)).
Defined.

Lemma refresh_success_scenario :
  let request u := {| url := u; method := "get"; headers := ∅; _retry := false |} in
  let expired r :=
    {| isAxiosError := true; response_status := Some 498%Z; config := r |} in
  let w0 := page_load "http://localhost:3000" "" "/" in
  exists w,
    run [ ResponseError (expired (request "/a"));
          ResponseError (expired (request "/b")) ] w0 = Some w
    /\ exists w',
    step (RefreshSettled 0 (PostFulfilled (DataObject (Some "T2")))) w = Some w'
    /\ defaults_headers w' !! "Authorization" = Some "Bearer T2"
    /\ failedQueue w' = [].
Proof.
  cbv zeta. run_scenario Hreach.
  match goal with
  | |- exists w', step _ ?w = Some w' /\ _ =>
      destruct (refresh_success_resolves_queue_and_replays w 0 _ "T2" Hreach
                  eq_refl ltac:(discriminate))
        as (w' & Hstep & Hdefault & _ & _ & Hq & _)
  end.
  exists w'. split; [exact Hstep|]. split; [exact Hdefault | exact Hq].
Defined.

Lemma queue_only_while_refreshing_scenario :
  let request u := {| url := u; method := "get"; headers := ∅; _retry := false |} in
  let expired r :=
    {| isAxiosError := true; response_status := Some 498%Z; config := r |} in
  exists w,
    run [ ResponseError (expired (request "/a"));
          ResponseError (expired (request "/b"));
          RefreshSettled 0 PostRejected ] (page_load "http://localhost:3000" "" "/")
    = Some w
    /\ failedQueue w = [].
Proof.
  cbv zeta.
  match goal with
  | |- exists w, run ?evs (page_load ?b ?c ?h) = Some w /\ _ =>
      pose proof (queue_only_while_refreshing b c h evs) as Hempty
  end.
  run_scenario Hreach.
  apply Hempty; [repeat constructor | vm_compute; reflexivity | reflexivity].
Defined.

(** ** Cookie strings *)

Lemma append_cons a (s1 s2 : string) : String a s1 +:+ s2 = String a (s1 +:+ s2).
Proof. reflexivity. Qed.

Lemma append_nil_l (s : string) : "" +:+ s = s.
Proof. reflexivity. Qed.

Lemma append_assoc (s1 s2 s3 : string) : (s1 +:+ s2) +:+ s3 = s1 +:+ s2 +:+ s3.
Proof.
  induction s1 as [|a s1 IH]; rewrite ?append_nil_l, ?append_cons; [done | by f_equal].
Qed.

Lemma append_nil_r (s : string) : s +:+ "" = s.
Proof.
  induction s as [|a s IH]; rewrite ?append_nil_l, ?append_cons; [done | by f_equal].
Qed.

Lemma lacks_app c s1 s2 : lacks c (s1 +:+ s2) = lacks c s1 && lacks c s2.
Proof.
  induction s1 as [|a s1 IH]; rewrite ?append_nil_l, ?append_cons; cbn [lacks];
    [done|].
  by rewrite IH, andb_assoc.
Qed.

Lemma prefix_one c a rest :
  String.prefix (String c "") (String a rest) = Ascii.eqb a c.
Proof.
  cbn [String.prefix]. destruct (ascii_dec c a) as [->|Hne].
  - rewrite Ascii.eqb_refl. by destruct rest.
  - symmetry. apply Ascii.eqb_neq. congruence.
Qed.

(** Splitting at a character: a string without it is one piece, and the
    first occurrence ends the first piece. *)
Lemma split_from_lacks c s : forall cur,
  lacks c s = true -> Js.split_from (String c "") 0 cur s = [cur +:+ s].
Proof.
  induction s as [|a s IH]; intros cur; cbn [Js.split_from].
  - by rewrite append_nil_r.
  - cbn [lacks]. intros [Ha Hs]%andb_true_iff.
    rewrite prefix_one. apply negb_true_iff in Ha. rewrite Ha.
    rewrite IH by done. by rewrite append_assoc.
Qed.

Lemma split_from_first c s rest : forall cur,
  lacks c s = true ->
  Js.split_from (String c "") 0 cur (s +:+ String c rest)
  = (cur +:+ s) :: Js.split_from (String c "") 0 "" rest.
Proof.
  induction s as [|a s IH]; intros cur.
  - intros _. rewrite append_nil_l. cbn [Js.split_from].
    rewrite prefix_one, Ascii.eqb_refl. by rewrite append_nil_r.
  - cbn [lacks]. intros [Ha Hs]%andb_true_iff.
    rewrite append_cons. cbn [Js.split_from].
    rewrite prefix_one. apply negb_true_iff in Ha. rewrite Ha.
    rewrite IH by done. by rewrite append_assoc.
Qed.

(** The same for the separator of cookies, ["; "], and pieces without [";"]. *)
Lemma split_cookies_last s : forall cur,
  lacks ";" s = true -> Js.split_from "; " 0 cur s = [cur +:+ s].
Proof.
  induction s as [|a s IH]; intros cur; cbn [Js.split_from String.prefix].
  - by rewrite append_nil_r.
  - cbn [lacks]. intros [Ha Hs]%andb_true_iff.
    apply negb_true_iff, Ascii.eqb_neq in Ha.
    destruct (ascii_dec ";" a) as [<-|_]; [done|].
    rewrite IH by done. by rewrite append_assoc.
Qed.

Lemma prefix_separator rest : String.prefix "; " ("; " +:+ rest) = true.
Proof. by destruct rest. Qed.

Lemma split_cookies_first s rest : forall cur,
  lacks ";" s = true ->
  Js.split_from "; " 0 cur (s +:+ "; " +:+ rest)
  = (cur +:+ s) :: Js.split_from "; " 0 "" rest.
Proof.
  induction s as [|a s IH]; intros cur.
  - intros _. rewrite append_nil_l, append_nil_r.
    change ("; " +:+ rest) with (String ";" (String " " rest)) at 1.
    cbn [Js.split_from].
    change (String ";" (String " " rest)) with ("; " +:+ rest).
    by rewrite prefix_separator.
  - cbn [lacks]. intros [Ha Hs]%andb_true_iff.
    apply negb_true_iff, Ascii.eqb_neq in Ha.
    rewrite append_cons. cbn [Js.split_from String.prefix].
    destruct (ascii_dec ";" a) as [<-|_]; [done|].
    rewrite IH by done. by rewrite append_assoc.
Qed.

(** [document.cookie] is the cookies joined by ["; "]; splitting gives them
    back. *)
Lemma split_concat_cookies (cookies : list string) :
  cookies ≠ [] -> Forall (fun c => lacks ";" c = true) cookies ->
  Js.split "; " (String.concat "; " cookies) = cookies.
Proof.
  unfold Js.split. intros Hne Hall.
  induction Hall as [|c cookies Hc Hall IH]; [done|].
  destruct cookies as [|c' cookies].
  - cbn [String.concat]. by rewrite split_cookies_last.
  - change (String.concat "; " (c :: c' :: cookies))
      with (c +:+ "; " +:+ String.concat "; " (c' :: cookies)).
    rewrite split_cookies_first by done. by rewrite IH.
Qed.

Lemma cookie_with_value name v :
  lacks "=" name = true -> lacks "=" v = true ->
  Js.split "=" (name +:+ "=" +:+ v) = [name; v].
Proof.
  intros Hn Hv. unfold Js.split.
  change (name +:+ "=" +:+ v) with (name +:+ String "=" v).
  rewrite (split_from_first "=") by done. by rewrite (split_from_lacks "=").
Qed.

Lemma cookie_with_longer_value name v rest :
  lacks "=" name = true -> lacks "=" v = true ->
  exists more, Js.split "=" (name +:+ "=" +:+ v +:+ "=" +:+ rest) = name :: v :: more.
Proof.
  intros Hn Hv. unfold Js.split.
  change (name +:+ "=" +:+ v +:+ "=" +:+ rest)
    with (name +:+ String "=" (v +:+ String "=" rest)).
  rewrite (split_from_first "="), (split_from_first "=") by done. eauto.
Qed.

Lemma decode_plain s : lacks "%" s = true -> Js.decode 0 128 191 s = Some s.
Proof.
  induction s as [|c s IH]; [done|].
  cbn [lacks]. intros [Hc Hs]%andb_true_iff. specialize (IH Hs).
  destruct c as [[] [] [] [] [] [] [] []]; try discriminate Hc;
    cbn [Js.decode]; by rewrite IH.
Qed.

(** ** getCookieByName *)

Lemma getCookieByName_unfold name w :
  getCookieByName name w
  = (find_cookie name (Js.split "; " (document_cookie w)), emit CookieRead w).
Proof. reflexivity. Qed.

(** The first cookie named [name] decides, whatever follows it: its value is
    percent-decoded, and returned as it is when it has no escape. *)
Theorem getCookieByName_first_cookie_decides
    (name v : string) (before after : list string) (w : World) :
  document_cookie w
  = String.concat "; " (before ++ (name +:+ "=" +:+ v) :: after) ->
  Forall (fun c => lacks ";" c = true) (before ++ (name +:+ "=" +:+ v) :: after) ->
  Forall (fun c => cookie_key c ≠ Some name) before ->
  lacks "=" name = true -> lacks "=" v = true ->
  fst (getCookieByName name w)
  = match Js.decodeURIComponent v with
    | Some t => Normal (Some t)
    | None => Throw Js.URIError
    end
  /\ (lacks "%" v = true -> fst (getCookieByName name w) = Normal (Some v)).
Proof.
  intros Hcookie Hsemi Hbefore Hname Hv.
  assert (Hfind : fst (getCookieByName name w)
                  = match Js.decodeURIComponent v with
                    | Some t => Normal (Some t)
                    | None => Throw Js.URIError
                    end).
  { rewrite getCookieByName_unfold, Hcookie, split_concat_cookies;
      [|by destruct before|done].
    cbn [fst]. rewrite find_cookie_present; [|done|].
    - unfold cookie_value. by rewrite cookie_with_value.
    - unfold cookie_key. by rewrite cookie_with_value. }
  split; [exact Hfind|]. intros Hplain. rewrite Hfind.
  unfold Js.decodeURIComponent. by rewrite decode_plain.
Qed.

Lemma getCookieByName_first_cookie_scenario :
  let w := page_load "http://localhost:3000"
             "theme=dark; XSRF-TOKEN=abc%20123; XSRF-TOKEN=other" "/" in
  fst (getCookieByName "XSRF-TOKEN" w) = Normal (Some "abc 123").
Proof.
  cbv zeta.
  apply (proj1 (getCookieByName_first_cookie_decides "XSRF-TOKEN" "abc%20123"
                  ["theme=dark"] ["XSRF-TOKEN=other"]
                  (page_load "http://localhost:3000"
                     "theme=dark; XSRF-TOKEN=abc%20123; XSRF-TOKEN=other" "/")
                  eq_refl ltac:(repeat constructor)
                  ltac:(repeat constructor; discriminate) eq_refl eq_refl)).
Defined.

(** The value of a cookie is read up to its first ["="]: what follows is
    dropped (the padding of a base64 value, for one). *)
Theorem getCookieByName_cuts_value_at_equals
    (name v rest : string) (before after : list string) (w : World) :
  document_cookie w
  = String.concat "; " (before ++ (name +:+ "=" +:+ v +:+ "=" +:+ rest) :: after) ->
  Forall (fun c => lacks ";" c = true)
    (before ++ (name +:+ "=" +:+ v +:+ "=" +:+ rest) :: after) ->
  Forall (fun c => cookie_key c ≠ Some name) before ->
  lacks "=" name = true -> lacks "=" v = true ->
  fst (getCookieByName name w)
  = match Js.decodeURIComponent v with
    | Some t => Normal (Some t)
    | None => Throw Js.URIError
    end.
Proof.
  intros Hcookie Hsemi Hbefore Hname Hv.
  rewrite getCookieByName_unfold, Hcookie, split_concat_cookies;
    [|by destruct before|done].
  destruct (cookie_with_longer_value name v rest Hname Hv) as [more Hsplit].
  cbn [fst]. rewrite find_cookie_present; [|done|].
  - unfold cookie_value. by rewrite Hsplit.
  - unfold cookie_key. by rewrite Hsplit.
Qed.

Lemma getCookieByName_cuts_value_scenario :
  let w := page_load "http://localhost:3000" "XSRF-TOKEN=YWJjZA==" "/" in
  fst (getCookieByName "XSRF-TOKEN" w) = Normal (Some "YWJjZA").
Proof.
  cbv zeta.
  apply (getCookieByName_cuts_value_at_equals "XSRF-TOKEN" "YWJjZA" "=" [] []
           (page_load "http://localhost:3000" "XSRF-TOKEN=YWJjZA==" "/")
           eq_refl ltac:(repeat constructor) ltac:(constructor) eq_refl eq_refl).
Defined.

(** A cookie that is only a name has the value [undefined], which
    [decodeURIComponent] turns into the string ["undefined"]: that string is
    what the lookup returns. *)
Theorem getCookieByName_without_value
    (name : string) (before after : list string) (w : World) :
  document_cookie w = String.concat "; " (before ++ name :: after) ->
  Forall (fun c => lacks ";" c = true) (before ++ name :: after) ->
  Forall (fun c => cookie_key c ≠ Some name) before ->
  lacks "=" name = true ->
  fst (getCookieByName name w) = Normal (Some "undefined").
Proof.
  intros Hcookie Hsemi Hbefore Hname.
  rewrite getCookieByName_unfold, Hcookie, split_concat_cookies;
    [|by destruct before|done].
  assert (Hsplit : Js.split "=" name = [name])
    by (unfold Js.split; by rewrite (split_from_lacks "=")).
  cbn [fst]. rewrite find_cookie_present; [|done|].
  - unfold cookie_value. by rewrite Hsplit.
  - unfold cookie_key. by rewrite Hsplit.
Qed.

Lemma getCookieByName_without_value_scenario :
  let w := page_load "http://localhost:3000" "a=1; XSRF-TOKEN" "/" in
  fst (getCookieByName "XSRF-TOKEN" w) = Normal (Some "undefined")
  /\ fst (AuthTokenUtils.getCsrfToken w) = Normal (Some "undefined").
Proof.
  cbv zeta. split; [|reflexivity].
  apply (getCookieByName_without_value "XSRF-TOKEN" ["a=1"] []
           (page_load "http://localhost:3000" "a=1; XSRF-TOKEN" "/")
           eq_refl ltac:(repeat constructor)
           ltac:(repeat constructor; discriminate) eq_refl).
Defined.

(** ** A CSRF cookie the lookup cannot use *)

Lemma find_cookie_malformed cookie_string :
  cookie_malformed cookie_string ->
  find_cookie "XSRF-TOKEN" (Js.split "; " cookie_string) = Throw Js.URIError.
Proof.
  intros (before & c & after & -> & Hb & Hc & Hv).
  by rewrite (find_cookie_present _ _ _ _ Hb Hc), Hv.
Qed.

(** A malformed escape in the CSRF cookie makes the lookup throw.  Then
    [getAuthToken] does not return [null]: it rejects, before any request to the
    backend; and the request interceptor rejects every request with the same
    error.  Nothing is cached, so this happens at every call. *)
Theorem malformed_csrf_cookie_fails_every_request (w : World) :
  cookie_malformed (document_cookie w) ->
  (Js.truthy (csrfTokenCache_utils w) = false ->
   AuthTokenUtils.getCsrfToken w = (Throw Js.URIError, emit CookieRead w)
   /\ (Js.truthy (authTokenCache w) = false ->
       forall retryDelay server,
         AuthTokenUtils.getAuthToken retryDelay server w
         = (Throw Js.URIError, emit CookieRead w)))
  /\ (Js.truthy (csrfTokenCache_axios w) = false ->
      forall config server,
        AxiosInstance.onRequest config server w
        = (Throw Js.URIError,
           emit_all [CookieRead; ConsoleError "Error in request interceptor:"] w)).
Proof.
  intros Hbad. pose proof (find_cookie_malformed _ Hbad) as Hfind. split.
  - intros Hu.
    assert (Hcsrf : AuthTokenUtils.getCsrfToken w
                    = (Throw Js.URIError, emit CookieRead w))
      by (by rewrite utils_getCsrfToken_miss, Hfind).
    split; [exact Hcsrf|]. intros Ha retryDelay server.
    by rewrite getAuthToken_uncached, Hcsrf.
  - intros Hx config server.
    rewrite onRequest_unfold, axios_getCsrfToken_miss, Hfind by done.
    by rewrite !emit_as_emit_all, emit_all_emit_all.
Qed.

Lemma malformed_csrf_cookie_scenario :
  let w := page_load "http://localhost:3000" "XSRF-TOKEN=100%" "/" in
  fst (AuthTokenUtils.getAuthToken 1000 (fun _ => FetchRejected) w)
  = Throw Js.URIError
  /\ count is_fetch
       (trace (snd (AuthTokenUtils.getAuthToken 1000 (fun _ => FetchRejected) w)))
     = 0.
Proof.
  cbv zeta.
  assert (Hbad : cookie_malformed "XSRF-TOKEN=100%").
  { exists [], "XSRF-TOKEN=100%", [].
    split; [reflexivity|]. split; [constructor|]. split; reflexivity. }
  destruct (malformed_csrf_cookie_fails_every_request
              (page_load "http://localhost:3000" "XSRF-TOKEN=100%" "/") Hbad)
    as [Hutils _].
  destruct (Hutils eq_refl) as [_ Hauth].
  rewrite (Hauth eq_refl 1000%Z (fun _ => FetchRejected)). split; reflexivity.
Defined.

(** A CSRF cookie that is missing, or empty, is not remembered as such: every
    call of either copy of [getCsrfToken] reads [document.cookie] again, logs
    the error and returns [undefined]. *)
Theorem missing_csrf_cookie_is_read_at_every_call (w : World) (n : nat) :
  cookie_missing (document_cookie w) \/ cookie_holds (document_cookie w) "" ->
  (Js.truthy (csrfTokenCache_utils w) = false ->
   let w' := Nat.iter n (fun w => snd (AuthTokenUtils.getCsrfToken w)) w in
   cookie_reads w' = cookie_reads w + n
   /\ Js.truthy (csrfTokenCache_utils w') = false
   /\ fst (AuthTokenUtils.getCsrfToken w') = Normal None)
  /\ (Js.truthy (csrfTokenCache_axios w) = false ->
      let w' := Nat.iter n (fun w => snd (AxiosInstance.getCsrfToken w)) w in
      cookie_reads w' = cookie_reads w + n
      /\ Js.truthy (csrfTokenCache_axios w') = false
      /\ fst (AxiosInstance.getCsrfToken w') = Normal None).
Proof.
  intros Hcookie.
  assert (Hfind : exists v,
             find_cookie "XSRF-TOKEN" (Js.split "; " (document_cookie w)) = Normal v
             /\ Js.truthy v = false).
  { destruct Hcookie as [Hm|Hh].
    - exists None. by rewrite (find_cookie_absent _ _ Hm).
    - exists (Some ""). by rewrite (find_cookie_holds _ _ Hh). }
  destruct Hfind as (v & Hfind & Hv).
  split; intros Hc; cbv zeta.
  - assert (Hiter : forall n,
               let w' := Nat.iter n (fun w => snd (AuthTokenUtils.getCsrfToken w)) w in
               cookie_reads w' = cookie_reads w + n
               /\ Js.truthy (csrfTokenCache_utils w') = false
               /\ document_cookie w' = document_cookie w).
    { clear n. induction n as [|n (IHr & IHc & IHd)]; cbv zeta;
        [repeat split; first [lia | done]|].
      rewrite Nat.iter_succ, utils_getCsrfToken_miss, IHd, Hfind, Hv by done.
      unfold cookie_reads in *. wsimpl. rewrite !count_app, IHr.
      repeat split; [|done..]. unfold count at 2 3. simpl. lia. }
    destruct (Hiter n) as (Hr & Hc' & Hd). split; [done|]. split; [done|].
    by rewrite utils_getCsrfToken_miss, Hd, Hfind, Hv.
  - assert (Hiter : forall n,
               let w' := Nat.iter n (fun w => snd (AxiosInstance.getCsrfToken w)) w in
               cookie_reads w' = cookie_reads w + n
               /\ Js.truthy (csrfTokenCache_axios w') = false
               /\ document_cookie w' = document_cookie w).
    { clear n. induction n as [|n (IHr & IHc & IHd)]; cbv zeta;
        [repeat split; first [lia | done]|].
      rewrite Nat.iter_succ, axios_getCsrfToken_miss, IHd, Hfind, Hv by done.
      unfold cookie_reads in *. wsimpl. rewrite !count_app, IHr.
      repeat split; [|done..]. unfold count at 2 3. simpl. lia. }
    destruct (Hiter n) as (Hr & Hc' & Hd). split; [done|]. split; [done|].
    by rewrite axios_getCsrfToken_miss, Hd, Hfind, Hv.
Qed.

Lemma missing_csrf_cookie_scenario :
  let w := page_load "http://localhost:3000" "theme=dark" "/" in
  cookie_reads (Nat.iter 3 (fun w => snd (AxiosInstance.getCsrfToken w)) w) = 3.
Proof.
  cbv zeta.
  assert (Hmissing : cookie_missing "theme=dark")
    by (repeat constructor; discriminate).
  destruct (missing_csrf_cookie_is_read_at_every_call
              (page_load "http://localhost:3000" "theme=dark" "/") 3
              (or_introl Hmissing)) as [_ Haxios].
  destruct (Haxios eq_refl) as [Hreads _]. exact Hreads.
Defined.

(** ** The outcomes of getAuthToken *)

Lemma retry_loop_succeeds remaining attempt csrfToken retryDelay server token w :
  server attempt = FetchResponse true (JsonObject token) ->
  AuthTokenUtils.retry_loop (S remaining) attempt csrfToken retryDelay server w
  = (Normal token, set_authTokenCache token (emit (token_request csrfToken w) w)).
Proof. intros Hs. by rewrite retry_loop_unfold, Hs. Qed.

Lemma retry_loop_retries remaining attempt csrfToken retryDelay server w :
  attempt_fails (server attempt) = true ->
  (S attempt <? AuthTokenUtils.maxRetries)%nat = true ->
  AuthTokenUtils.retry_loop (S remaining) attempt csrfToken retryDelay server w
  = AuthTokenUtils.retry_loop remaining (S attempt) csrfToken retryDelay server
      (emit_all
         [ token_request csrfToken w;
           ConsoleError ("Attempt " +:+ pretty (S attempt)
                         +:+ " - Error fetching token:");
           ConsoleLog ("Retrying in " +:+ pretty retryDelay +:+ "ms...");
           SetTimeout retryDelay ] w).
Proof.
  intros Hf Hlt. rewrite retry_loop_unfold.
  destruct (receive_fetch_cases (server attempt) (emit (token_request csrfToken w) w))
    as [[_ [e ->]]|[token [Hs _]]]; [|by rewrite Hs in Hf].
  rewrite after_failure_retries by done.
  by rewrite emit_as_emit_all, emit_all_emit_all.
Qed.

Lemma retry_loop_stops remaining attempt csrfToken retryDelay server w :
  attempt_fails (server attempt) = true ->
  (S attempt <? AuthTokenUtils.maxRetries)%nat = false ->
  AuthTokenUtils.retry_loop (S remaining) attempt csrfToken retryDelay server w
  = AuthTokenUtils.retry_loop remaining (S attempt) csrfToken retryDelay server
      (emit_all
         [ token_request csrfToken w;
           ConsoleError ("Attempt " +:+ pretty (S attempt)
                         +:+ " - Error fetching token:") ] w).
Proof.
  intros Hf Hlt. rewrite retry_loop_unfold.
  destruct (receive_fetch_cases (server attempt) (emit (token_request csrfToken w) w))
    as [[_ [e ->]]|[token [Hs _]]]; [|by rewrite Hs in Hf].
  rewrite after_failure_stops by done.
  by rewrite !emit_as_emit_all, emit_all_emit_all.
Qed.

Lemma retry_loop_exhausted csrfToken retryDelay server w :
  AuthTokenUtils.retry_loop 0 AuthTokenUtils.maxRetries csrfToken retryDelay server w
  = (Normal None,
     emit (ConsoleError "Max retries reached. Could not fetch token.") w).
Proof. reflexivity. Qed.

(** The three ways the loop can go. *)
Lemma retry_loop_outcomes csrfToken retryDelay server w :
  let request := token_request csrfToken w in
  let failed k := ConsoleError ("Attempt " +:+ pretty k +:+ " - Error fetching token:") in
  let loop :=
    AuthTokenUtils.retry_loop AuthTokenUtils.maxRetries 0 csrfToken retryDelay
      server w in
  (exists token, server 0 = FetchResponse true (JsonObject token)
      /\ loop = (Normal token, set_authTokenCache token (emit request w)))
  \/ (exists token, attempt_fails (server 0) = true
        /\ server 1 = FetchResponse true (JsonObject token)
        /\ loop = (Normal token,
                   set_authTokenCache token
                     (emit_all
                        [ request; failed 1;
                          ConsoleLog ("Retrying in " +:+ pretty retryDelay +:+ "ms...");
                          SetTimeout retryDelay; request ] w)))
  \/ (attempt_fails (server 0) = true /\ attempt_fails (server 1) = true
      /\ loop = (Normal None,
                 emit_all
                   [ request; failed 1;
                     ConsoleLog ("Retrying in " +:+ pretty retryDelay +:+ "ms...");
                     SetTimeout retryDelay; request; failed 2;
                     ConsoleError "Max retries reached. Could not fetch token." ] w)).
Proof.
  cbv zeta. change AuthTokenUtils.maxRetries with 2.
  destruct (attempt_fails (server 0)) eqn:Hf0; cycle 1.
  { left. destruct (server 0) as [|[] [| |token]] eqn:Hs; try discriminate.
    exists token. split; [done|]. by apply retry_loop_succeeds. }
  right. rewrite retry_loop_retries by done.
  destruct (attempt_fails (server 1)) eqn:Hf1; cycle 1.
  { left. destruct (server 1) as [|[] [| |token]] eqn:Hs; try discriminate.
    exists token. split; [done|]. split; [done|].
    rewrite (retry_loop_succeeds _ _ _ _ _ token) by done.
    by rewrite emit_as_emit_all, emit_all_emit_all. }
  right. split; [done|]. split; [done|].
  rewrite retry_loop_stops by done.
  change 2 with AuthTokenUtils.maxRetries at 1. rewrite retry_loop_exhausted.
  by rewrite !emit_as_emit_all, !emit_all_emit_all.
Qed.

Lemma utils_getCsrfToken_no_timeout w :
  count is_timeout (trace (snd (AuthTokenUtils.getCsrfToken w)))
  = count is_timeout (trace w).
Proof.
  destruct (Js.truthy (csrfTokenCache_utils w)) eqn:Hc.
  - rewrite utils_getCsrfToken_hit by done. wsimpl. rewrite count_app.
    unfold count. simpl. lia.
  - rewrite utils_getCsrfToken_miss by done.
    destruct (find_cookie _ _) as [v|e]; [destruct (Js.truthy v)|]; wsimpl;
      rewrite !count_app; unfold count; simpl; lia.
Qed.

Lemma getAuthToken_bounds (retryDelay : Z) (server : nat -> FetchOutcome) (w : World) :
  let result := fst (AuthTokenUtils.getAuthToken retryDelay server w) in
  let w' := snd (AuthTokenUtils.getAuthToken retryDelay server w) in
  count is_fetch (trace w') <= count is_fetch (trace w) + 2
  /\ count is_timeout (trace w') <= count is_timeout (trace w) + 1
  /\ (forall e, result = Throw e ->
        AuthTokenUtils.getCsrfToken w = (Throw e, w')
        /\ count is_fetch (trace w') = count is_fetch (trace w)).
Proof.
  cbv zeta. destruct (Js.truthy (authTokenCache w)) eqn:Hc.
  - destruct (truthy_inv _ Hc) as (t & Ht & Hne).
    rewrite (getAuthToken_cached _ _ _ _ Ht Hne). cbn [fst snd].
    split; [lia|]. split; [lia | done].
  - rewrite getAuthToken_uncached by done.
    pose proof (utils_getCsrfToken_no_fetch w) as Hfetch.
    pose proof (utils_getCsrfToken_no_timeout w) as Htimer.
    destruct (AuthTokenUtils.getCsrfToken w) as [[csrfToken|e] w1];
      cbn [fst snd] in *.
    + destruct (retry_loop_outcomes csrfToken retryDelay server w1)
        as [(token & _ & ->)|[(token & _ & _ & ->)|(_ & _ & ->)]];
        cbn [fst snd]; wsimpl; rewrite !count_app, Hfetch, Htimer;
        (split; [unfold count; simpl; lia|]);
        (split; [unfold count; simpl; lia | done]).
    + split; [lia|]. split; [lia|]. by intros e' [= <-].
Qed.

(** Whatever the backend answers, a call of [getAuthToken] makes at most two
    requests and sets at most one timer; it ends by returning, and throws only
    when the CSRF lookup throws, in which case it has made no request. *)
Theorem getAuthToken_swallows_fetch_failures
    (retryDelay : Z) (server : nat -> FetchOutcome) (w : World) :
  let result := fst (AuthTokenUtils.getAuthToken retryDelay server w) in
  let w' := snd (AuthTokenUtils.getAuthToken retryDelay server w) in
  count is_fetch (trace w') <= count is_fetch (trace w) + 2
  /\ count is_timeout (trace w') <= count is_timeout (trace w) + 1
  /\ (forall e, result = Throw e ->
        AuthTokenUtils.getCsrfToken w = (Throw e, w')
        /\ count is_fetch (trace w') = count is_fetch (trace w)).
Proof. apply getAuthToken_bounds. Qed.

(** When the first request fails and the second is answered with a token, the
    call returns that token and caches it, after one retry delay. *)
Theorem getAuthToken_second_attempt_succeeds
    (retryDelay : Z) (server : nat -> FetchOutcome) (token : option string)
    (w : World) :
  Js.truthy (authTokenCache w) = false ->
  attempt_fails (server 0) = true ->
  server 1 = FetchResponse true (JsonObject token) ->
  match AuthTokenUtils.getCsrfToken w with
  | (Normal csrfToken, w1) =>
      AuthTokenUtils.getAuthToken retryDelay server w
      = (Normal token,
         set_authTokenCache token
           (emit_all
              [ token_request csrfToken w1;
                ConsoleError "Attempt 1 - Error fetching token:";
                ConsoleLog ("Retrying in " +:+ pretty retryDelay +:+ "ms...");
                SetTimeout retryDelay;
                token_request csrfToken w1 ] w1))
  | (Throw e, w1) => AuthTokenUtils.getAuthToken retryDelay server w = (Throw e, w1)
  end.
Proof.
  intros Hc Hf0 Hs1. rewrite getAuthToken_uncached by done.
  destruct (AuthTokenUtils.getCsrfToken w) as [[csrfToken|e] w1]; [|done].
  destruct (retry_loop_outcomes csrfToken retryDelay server w1)
    as [(t & Hs0 & _)|[(t & _ & Hs & ->)|(_ & Hf1 & _)]].
  - by rewrite Hs0 in Hf0.
  - rewrite Hs1 in Hs. by injection Hs as <-.
  - by rewrite Hs1 in Hf1.
Qed.

Lemma getAuthToken_second_attempt_scenario :
  let w := page_load "http://localhost:3000" "XSRF-TOKEN=abc123" "/" in
  let server k :=
    match k with
    | O => FetchResponse false NotJson
    | _ => FetchResponse true (JsonObject (Some "T1"))
    end in
  fst (AuthTokenUtils.getAuthToken 250 server w) = Normal (Some "T1")
  /\ authTokenCache (snd (AuthTokenUtils.getAuthToken 250 server w)) = Some "T1"
  /\ count is_fetch (trace (snd (AuthTokenUtils.getAuthToken 250 server w))) = 2
  /\ count is_timeout (trace (snd (AuthTokenUtils.getAuthToken 250 server w))) = 1.
Proof.
  cbv zeta.
  pose proof (getAuthToken_second_attempt_succeeds 250
                (fun k => match k with
                          | O => FetchResponse false NotJson
                          | _ => FetchResponse true (JsonObject (Some "T1"))
                          end)
                (Some "T1")
                (page_load "http://localhost:3000" "XSRF-TOKEN=abc123" "/")
                eq_refl eq_refl eq_refl) as H.
  rewrite utils_getCsrfToken_miss in H by reflexivity.
  change (find_cookie "XSRF-TOKEN"
            (Js.split "; "
               (document_cookie
                  (page_load "http://localhost:3000" "XSRF-TOKEN=abc123" "/"))))
    with (@Normal (option string) (Some "abc123")) in H.
  cbv iota in H. rewrite H. repeat split; reflexivity.
Defined.

(** A lookup that returned once returns the same again, whatever was traced
    or done to the other caches meanwhile; it then changes no cache and makes
    no request. *)
Lemma utils_getCsrfToken_again w csrfToken w1 w2 :
  AuthTokenUtils.getCsrfToken w = (Normal csrfToken, w1) ->
  csrfTokenCache_utils w2 = csrfTokenCache_utils w1 ->
  document_cookie w2 = document_cookie w ->
  exists es,
    AuthTokenUtils.getCsrfToken w2 = (Normal csrfToken, emit_all es w2)
    /\ count is_fetch es = 0.
Proof.
  intros Hcall Hcache Hcookie.
  destruct (Js.truthy (csrfTokenCache_utils w)) eqn:Hc.
  - rewrite utils_getCsrfToken_hit in Hcall by done. injection Hcall as <- <-.
    revert Hcache. wsimpl. intros Hcache.
    rewrite utils_getCsrfToken_hit by (by rewrite Hcache).
    rewrite Hcache. by eexists [_].
  - rewrite utils_getCsrfToken_miss in Hcall by done.
    destruct (find_cookie _ _) as [v|e] eqn:Hfind; [|done].
    destruct (Js.truthy v) eqn:Hv; injection Hcall as <- <-; revert Hcache; wsimpl;
      intros Hcache.
    + rewrite utils_getCsrfToken_hit by (by rewrite Hcache).
      rewrite Hcache. by eexists [_].
    + rewrite utils_getCsrfToken_miss, Hcookie, Hfind, Hv by (by rewrite Hcache).
      rewrite !emit_as_emit_all, emit_all_emit_all. by eexists.
Qed.




(** [getAuthToken] has no guard against overlapping calls: two calls that
    start while the cache is empty each send their own request, and both are
    left waiting for an answer. *)
Theorem overlapping_calls_each_fetch
    (retryDelay1 retryDelay2 : Z) (csrfToken : option string) (w w1 : World) :
  Js.truthy (authTokenCache w) = false ->
  AuthTokenUtils.getCsrfToken w = (Normal csrfToken, w1) ->
  exists w2,
    run [TokenCallBegins retryDelay1; TokenCallBegins retryDelay2] w = Some w2
    /\ count is_fetch (trace w2) = count is_fetch (trace w) + 2
    /\ awaiting_token w2
       = awaiting_token w
         ++ [ {| call_attempt := 0; call_csrfToken := csrfToken;
                 call_retryDelay := retryDelay1; call_waiting := ForFetch |};
              {| call_attempt := 0; call_csrfToken := csrfToken;
                 call_retryDelay := retryDelay2; call_waiting := ForFetch |} ]
    /\ authTokenCache w2 = authTokenCache w.
Proof.
  intros Hc Hcsrf.
  pose proof (utils_getCsrfToken_frame w) as (Hframe & Hauth & _).
  pose proof (utils_getCsrfToken_no_fetch w) as Hfetch.
  rewrite Hcsrf in Hframe, Hauth, Hfetch.
  cbv zeta in Hframe, Hauth. cbn [snd] in Hframe, Hauth, Hfetch.
  unfold auth_frame in Hauth. destruct Hframe as (_ & Hcookie & _).
  cbn [run step]. rewrite begin_uncached, Hcsrf, loop_head_unfold by done.
  change (0 <? AuthTokenUtils.maxRetries)%nat with true. cbv iota.
  cbn [suspend_or_finish].
  set (wa := set_awaiting_token _ _).
  assert (Hca : Js.truthy (authTokenCache wa) = false) by (by rewrite <- Hauth in Hc).
  destruct (utils_getCsrfToken_again w csrfToken w1 wa Hcsrf eq_refl Hcookie)
    as (es & Hagain & Hes).
  rewrite begin_uncached, Hagain, loop_head_unfold by done.
  change (0 <? AuthTokenUtils.maxRetries)%nat with true. cbv iota.
  cbn [suspend_or_finish]. eexists. split; [reflexivity|].
  subst wa. wsimpl. rewrite !count_app, Hfetch, Hes, Hauth, <- app_assoc.
  split; [|done].
  change (count is_fetch [token_request csrfToken w1]) with 1.
  match goal with |- context [count is_fetch [?e]] =>
    change (count is_fetch [e]) with 1 end.
  lia.
Qed.

Lemma overlapping_calls_scenario :
  let w := page_load "http://localhost:3000" "XSRF-TOKEN=abc123" "/" in
  exists w2,
    run [TokenCallBegins 1000; TokenCallBegins 1000] w = Some w2
    /\ count is_fetch (trace w2) = 2.
Proof.
  cbv zeta.
  destruct (overlapping_calls_each_fetch 1000 1000 (Some "abc123")
              (page_load "http://localhost:3000" "XSRF-TOKEN=abc123" "/") _
              eq_refl eq_refl) as (w2 & Hrun & Hfetch & _).
  exists w2. split; [exact Hrun | exact Hfetch].
Defined.

(** ** The request interceptor *)

(** A call that returns no token leaves no token in the cache. *)
Lemma getAuthToken_no_result retryDelay server w v w' :
  AuthTokenUtils.getAuthToken retryDelay server w = (Normal v, w') ->
  Js.truthy v = false -> Js.truthy (authTokenCache w') = false.
Proof.
  destruct (Js.truthy (authTokenCache w)) eqn:Hc.
  - destruct (truthy_inv _ Hc) as (t & Ht & Hne).
    rewrite (getAuthToken_cached _ _ _ _ Ht Hne). intros [= <- <-].
    by rewrite Ht, truthy_Some.
  - rewrite getAuthToken_uncached by done.
    pose proof (utils_getCsrfToken_frame w) as (_ & Hauth & _).
    destruct (AuthTokenUtils.getCsrfToken w) as [[csrfToken|e] w1]; [|done].
    cbv zeta in Hauth. cbn [snd] in Hauth. unfold auth_frame in Hauth.
    destruct (retry_loop_outcomes csrfToken retryDelay server w1)
      as [(token & _ & ->)|[(token & _ & _ & ->)|(_ & _ & ->)]];
      intros [= <- <-]; wsimpl; [done..|]. by rewrite Hauth.
Qed.

(** A request that the interceptor lets through leaves with the tokens the
    caches hold by then: [X-CSRF-Token] is the cached CSRF token of the client
    and [Authorization] is [Bearer] and the cached auth token; a header whose
    cache is empty is left as the caller set it, and so is everything else of
    the request. *)
Theorem onRequest_attaches_cached_tokens
    (config : ExtendedAxiosRequestConfig) (server : nat -> FetchOutcome) (w : World) :
  let w' := snd (AxiosInstance.onRequest config server w) in
  forall sent, fst (AxiosInstance.onRequest config server w) = Normal sent ->
    url sent = url config /\ method sent = method config
    /\ _retry sent = _retry config
    /\ (forall k, k ≠ "X-CSRF-Token" -> k ≠ "Authorization" ->
          headers sent !! k = headers config !! k)
    /\ headers sent !! "X-CSRF-Token"
       = (if Js.truthy (csrfTokenCache_axios w') then csrfTokenCache_axios w'
          else headers config !! "X-CSRF-Token")
    /\ headers sent !! "Authorization"
       = (if Js.truthy (authTokenCache w')
          then (fun t => "Bearer " +:+ t) <$> authTokenCache w'
          else headers config !! "Authorization").
Proof.
  cbv zeta. intros sent. rewrite onRequest_unfold.
  pose proof (axios_getCsrfToken_frame w) as (_ & _ & _).
  destruct (AxiosInstance.getCsrfToken w) as [[csrfToken|e] w1] eqn:Hcsrf; [|done].
  pose proof (getAuthToken_frame 1000 server w1) as (_ & Hax & _).
  destruct (AuthTokenUtils.getAuthToken 1000 server w1) as [[authToken|e] w2] eqn:Hauth;
    [|done].
  cbv zeta in Hax |- *. cbn [fst snd] in Hax |- *. intros [= <-]. rewrite Hax.
  assert (Hc : (csrfTokenCache_axios w1 = csrfToken /\ Js.truthy csrfToken = true)
               \/ (Js.truthy csrfToken = false
                   /\ Js.truthy (csrfTokenCache_axios w1) = false)).
  { destruct (Js.truthy (csrfTokenCache_axios w)) eqn:Hx.
    - rewrite axios_getCsrfToken_hit in Hcsrf by done. injection Hcsrf as <- <-.
      by left.
    - rewrite axios_getCsrfToken_miss in Hcsrf by done.
      destruct (find_cookie _ _) as [v|e]; [|done].
      destruct (Js.truthy v) eqn:Hv; injection Hcsrf as <- <-; [by left|].
      right. by wsimpl. }
  assert (Ha : (authTokenCache w2 = authToken /\ Js.truthy authToken = true)
               \/ (Js.truthy authToken = false
                   /\ Js.truthy (authTokenCache w2) = false)).
  { destruct (Js.truthy authToken) eqn:Ht.
    - left. split; [|done]. by apply (getAuthToken_result _ _ _ _ _ Hauth).
    - right. split; [done|]. by apply (getAuthToken_no_result _ _ _ _ _ Hauth). }
  assert (Hcsrf_header :
    forall c : ExtendedAxiosRequestConfig,
      let c' := Js.if_truthy csrfToken (fun t => set_header "X-CSRF-Token" t c) c in
      url c' = url c /\ method c' = method c /\ _retry c' = _retry c
      /\ (forall k, k ≠ "X-CSRF-Token" -> headers c' !! k = headers c !! k)
      /\ headers c' !! "X-CSRF-Token"
         = (if Js.truthy (csrfTokenCache_axios w1) then csrfTokenCache_axios w1
            else headers c !! "X-CSRF-Token")).
  { intros c. cbv zeta. destruct Hc as [[Hc Ht]|[Ht Hc]].
    - destruct (truthy_inv _ Ht) as (t & -> & Hne).
      rewrite (if_truthy_true _ t), Hc, Ht by done.
      cbn [set_header url method _retry headers].
      split; [done|]. split; [done|]. split; [done|].
      split; [|by rewrite lookup_insert_eq].
      intros k Hk. by rewrite lookup_insert_ne.
    - rewrite if_truthy_false, Hc by done. done. }
  assert (Hauth_header :
    forall c : ExtendedAxiosRequestConfig,
      let c' := Js.if_truthy authToken
                  (fun t => set_header "Authorization" ("Bearer " +:+ t) c) c in
      url c' = url c /\ method c' = method c /\ _retry c' = _retry c
      /\ (forall k, k ≠ "Authorization" -> headers c' !! k = headers c !! k)
      /\ headers c' !! "Authorization"
         = (if Js.truthy (authTokenCache w2)
            then (fun t => "Bearer " +:+ t) <$> authTokenCache w2
            else headers c !! "Authorization")).
  { intros c. cbv zeta. destruct Ha as [[Ha Ht]|[Ht Ha]].
    - destruct (truthy_inv _ Ht) as (t & -> & Hne).
      rewrite (if_truthy_true _ t), Ha, Ht by done.
      cbn [set_header url method _retry headers].
      split; [done|]. split; [done|]. split; [done|].
      split; [|by rewrite lookup_insert_eq].
      intros k Hk. by rewrite lookup_insert_ne.
    - rewrite if_truthy_false, Ha by done. done. }
  destruct (Hcsrf_header config) as (Hu1 & Hm1 & Hr1 & Hk1 & Hx1).
  destruct (Hauth_header
              (Js.if_truthy csrfToken (fun t => set_header "X-CSRF-Token" t config)
                 config)) as (Hu2 & Hm2 & Hr2 & Hk2 & Hx2).
  cbv zeta in *.
  split; [congruence|]. split; [congruence|]. split; [congruence|].
  split; [|split].
  - intros k Hkc Hka. by rewrite Hk2, Hk1.
  - by rewrite Hk2, Hx1.
  - rewrite Hx2. destruct (Js.truthy (authTokenCache w2)); [done|].
    by rewrite Hk1.
Qed.

Lemma onRequest_attaches_tokens_scenario :
  let w := page_load "http://localhost:3000" "XSRF-TOKEN=abc123" "/" in
  let config :=
    {| url := "/items"; method := "get";
       headers := {[ "Accept" := "application/json" ]}; _retry := false |} in
  let server := fun _ : nat => FetchResponse true (JsonObject (Some "T1")) in
  exists sent,
    fst (AxiosInstance.onRequest config server w) = Normal sent
    /\ headers sent !! "X-CSRF-Token" = Some "abc123"
    /\ headers sent !! "Authorization" = Some "Bearer T1"
    /\ headers sent !! "Accept" = Some "application/json".
Proof.
  cbv zeta.
  lazymatch goal with
  | |- exists sent, fst (AxiosInstance.onRequest ?c ?s ?w) = _ /\ _ =>
      let r := eval vm_compute in (fst (AxiosInstance.onRequest c s w)) in
      lazymatch r with
      | Normal ?sent =>
          exists sent;
          assert (Hsent : fst (AxiosInstance.onRequest c s w) = Normal sent)
            by (vm_compute; reflexivity);
          destruct (onRequest_attaches_cached_tokens c s w sent Hsent)
            as (_ & _ & _ & Hother & Hcsrf & Hauth);
          split; [exact Hsent|]
      end
  end.
  split; [rewrite Hcsrf; vm_compute; reflexivity|].
  split; [rewrite Hauth; vm_compute; reflexivity|].
  rewrite Hother by discriminate. reflexivity.
Defined.

(** Whatever [Authorization] header a request carries, the interceptor
    replaces it by the cached auth token when there is one.  So the request
    replayed after a refresh, to which the coordinator gave the new token,
    leaves with the token that was cached before the refresh. *)
Theorem interceptor_overwrites_authorization :
  (forall config server w t sent w',
      authTokenCache w = Some t -> t ≠ "" ->
      AxiosInstance.onRequest config server w = (Normal sent, w') ->
      headers sent !! "Authorization" = Some ("Bearer " +:+ t))
  /\ (forall w k s t1 t2,
         awaiting_refresh w !! k = Some s ->
         authTokenCache w = Some t1 -> t1 ≠ "" -> t2 ≠ "" ->
         exists w',
           step (RefreshSettled k (PostFulfilled (DataObject (Some t2)))) w = Some w'
           /\ let replayed :=
                set_header "Authorization" ("Bearer " +:+ t2)
                  (config (handler_error s)) in
              In (Replayed (handler_promise s) replayed) (trace w')
              /\ headers replayed !! "Authorization" = Some ("Bearer " +:+ t2)
              /\ forall server sent w'',
                   AxiosInstance.onRequest replayed server w' = (Normal sent, w'') ->
                   headers sent !! "Authorization" = Some ("Bearer " +:+ t1)).
Proof.
  assert (Hgeneral : forall config server w t sent w',
             authTokenCache w = Some t -> t ≠ "" ->
             AxiosInstance.onRequest config server w = (Normal sent, w') ->
             headers sent !! "Authorization" = Some ("Bearer " +:+ t)).
  { intros config server w t sent w' Hc Ht. rewrite onRequest_unfold.
    pose proof (axios_getCsrfToken_frame w) as (_ & Hauth & _).
    destruct (AxiosInstance.getCsrfToken w) as [[csrfToken|e] w1]; [|done].
    cbv zeta in Hauth. cbn [snd] in Hauth. unfold auth_frame in Hauth.
    rewrite (getAuthToken_cached 1000 server w1 t) by congruence.
    cbv beta iota zeta. rewrite (if_truthy_true (Some t) t) by done.
    intros [= <- <-].
    cbn [set_header headers]. by rewrite lookup_insert_eq. }
  split; [exact Hgeneral|].
  intros w k s t1 t2 Hk Hc Ht1 Ht2. eexists.
  split; [by apply step_RefreshSettled|]. cbv zeta.
  rewrite resume_token by done. split; [|split].
  - wsimpl. apply in_or_app. right. by left.
  - cbn [set_header headers]. by rewrite lookup_insert_eq.
  - intros server sent w''. apply Hgeneral; [|done]. by wsimpl.
Qed.

Lemma interceptor_overwrites_authorization_scenario :
  let request u := {| url := u; method := "get"; headers := ∅; _retry := false |} in
  let expired r :=
    {| isAxiosError := true; response_status := Some 498%Z; config := r |} in
  let server := fun _ : nat => FetchResponse true (JsonObject (Some "T1")) in
  let w0 := page_load "http://localhost:3000" "XSRF-TOKEN=abc123" "/" in
  exists w,
    run [ CallGetAuthToken 1000 server; ResponseError (expired (request "/a")) ] w0
    = Some w
    /\ exists w',
      step (RefreshSettled 0 (PostFulfilled (DataObject (Some "T2")))) w = Some w'
      /\ forall sent w'',
           AxiosInstance.onRequest
             (set_header "Authorization" "Bearer T2" (set_retry true (request "/a")))
             (fun _ => FetchRejected) w' = (Normal sent, w'') ->
           headers sent !! "Authorization" = Some "Bearer T1".
Proof.
  cbv zeta. run_scenario Hreach.
  match goal with
  | |- exists w', step _ ?w = Some w' /\ _ =>
      destruct (proj2 interceptor_overwrites_authorization w 0 _ "T1" "T2"
                  eq_refl eq_refl ltac:(discriminate) ltac:(discriminate))
        as (w' & Hstep & _ & _ & Hsent)
  end.
  exists w'. split; [exact Hstep|]. intros sent w''.
  apply (Hsent (fun _ => FetchRejected) sent w'').
Defined.

(** With both tokens cached the interceptor does no input or output beyond a
    log line: no cookie is read and no request is made, whatever the backend
    would answer.  Passing the request it returns through it again gives the
    same request. *)
Theorem onRequest_with_cached_tokens
    (config : ExtendedAxiosRequestConfig) (server : nat -> FetchOutcome)
    (w : World) (c t : string) :
  csrfTokenCache_axios w = Some c -> c ≠ "" ->
  authTokenCache w = Some t -> t ≠ "" ->
  let sent :=
    set_header "Authorization" ("Bearer " +:+ t)
      (set_header "X-CSRF-Token" c config) in
  let w' := emit (ConsoleLog "Returning cached CSRF token:") w in
  AxiosInstance.onRequest config server w = (Normal sent, w')
  /\ forall server', fst (AxiosInstance.onRequest sent server' w') = Normal sent.
Proof.
  intros Hc Hcne Ht Htne.
  assert (Hpass : forall config' server' w1,
             csrfTokenCache_axios w1 = Some c -> authTokenCache w1 = Some t ->
             AxiosInstance.onRequest config' server' w1
             = (Normal (set_header "Authorization" ("Bearer " +:+ t)
                          (set_header "X-CSRF-Token" c config')),
                emit (ConsoleLog "Returning cached CSRF token:") w1)).
  { intros config' server' w1 Hc1 Ht1.
    rewrite onRequest_unfold, axios_getCsrfToken_hit
      by (rewrite Hc1; by apply truthy_Some).
    rewrite (getAuthToken_cached 1000 server' _ t) by done.
    cbv zeta. rewrite Hc1.
    by rewrite (if_truthy_true (Some c) c), (if_truthy_true (Some t) t). }
  cbv zeta. split; [by apply Hpass|]. intros server'.
  rewrite Hpass by done. cbn [fst]. f_equal.
  unfold set_header. cbn [url method headers _retry]. f_equal.
  apply map_eq. intros k.
  destruct (decide (k = "Authorization")) as [->|Hka];
    [by rewrite !lookup_insert_eq|].
  rewrite !(lookup_insert_ne _ "Authorization") by done.
  destruct (decide (k = "X-CSRF-Token")) as [->|Hkc];
    [by rewrite !lookup_insert_eq|].
  rewrite !(lookup_insert_ne _ "X-CSRF-Token") by done.
  rewrite !(lookup_insert_ne _ "Authorization") by done.
  by rewrite !(lookup_insert_ne _ "X-CSRF-Token").
Qed.

Lemma onRequest_with_cached_tokens_scenario :
  let w0 := page_load "http://localhost:3000" "XSRF-TOKEN=abc123" "/" in
  let config := {| url := "/items"; method := "get"; headers := ∅; _retry := false |} in
  let server := fun _ : nat => FetchResponse true (JsonObject (Some "T1")) in
  exists w,
    run [CallOnRequest config server] w0 = Some w
    /\ count is_fetch
         (trace (snd (AxiosInstance.onRequest config (fun _ => FetchRejected) w)))
       = count is_fetch (trace w)
    /\ cookie_reads (snd (AxiosInstance.onRequest config (fun _ => FetchRejected) w))
       = cookie_reads w.
Proof.
  cbv zeta. run_scenario Hreach.
  match goal with
  | |- context [AxiosInstance.onRequest ?c ?s ?w] =>
      destruct (onRequest_with_cached_tokens c s w "abc123" "T1" eq_refl
                  ltac:(discriminate) eq_refl ltac:(discriminate)) as [Hcall _];
      rewrite Hcall
  end.
  split; reflexivity.
Defined.

(** ** Redirects *)

Lemma processQueue_redirects error token w :
  count is_redirect (trace (AxiosInstance.processQueue error token w))
  = count is_redirect (trace w).
Proof.
  unfold AxiosInstance.processQueue. wsimpl. rewrite count_app.
  match goal with |- _ + ?n = _ => assert (n = 0) as ->; [|lia] end.
  unfold count. induction (failedQueue w) as [|p q IH]; [done|].
  simpl. rewrite List.filter_app, length_app, IH.
  unfold Js.if_truthy. destruct token as [t|], error as [e|];
    try destruct (Js.truthy _); done.
Qed.

Lemma step_redirects ev w w' :
  step ev w = Some w' ->
  count is_redirect (trace w')
  = count is_redirect (trace w) + (if is_failed_refresh ev then 1 else 0)
  /\ location_href w' = (if is_failed_refresh ev then "/login" else location_href w).
Proof.
  intros Hs. destruct (is_coordinator_event ev) eqn:Hco.
  - destruct ev as [error|k result| | | | | | |]; try discriminate;
      simpl in Hs |- *.
    + injection Hs as <-. unfold AxiosInstance.onRejected.
      destruct (_ && _ && _); [destruct (isRefreshing _)|]; wsimpl;
        rewrite ?count_app; unfold count; simpl; split; (lia || done).
    + destruct (awaiting_refresh w !! k) as [s|]; [|done]. injection Hs as <-.
      destruct (resume_cases result) as [(t & Ht & ->)|[(token & Ht & ->)|Hf]].
      * rewrite resume_token by done. wsimpl. rewrite !count_app.
        split; [|done].
        assert (Hq : forall l : list nat,
                   count is_redirect (map (fun p => Resolved p t) l) = 0)
          by (intros l; unfold count; induction l; simpl; auto).
        rewrite Hq. unfold count. simpl. lia.
      * rewrite resume_no_token by done. wsimpl. rewrite !count_app.
        split; [unfold count; simpl; lia | done].
      * rewrite resume_failure by done. wsimpl. rewrite Hf, !count_app.
        split; [|done].
        assert (Hq : forall l : list nat,
                   count is_redirect
                     (map (fun p => Rejected p (handler_error s)) l) = 0)
          by (intros l; unfold count; induction l; simpl; auto).
        rewrite Hq. unfold count. simpl. lia.
  - destruct (token_step_frame ev w w' Hco Hs)
      as (_ & _ & Hl & _ & _ & _ & _ & _ & es & -> & Hes).
    assert (Hev : is_failed_refresh ev = false) by (by destruct ev).
    assert (Hz : count is_redirect es = 0)
      by (apply count_token_effects; [by intros []|done]).
    rewrite Hev, count_app, Hz. split; [lia | done].
Qed.

(** The page is sent to [/login] once for each refresh call that fails, and
    never otherwise: not by a token function, not by a refresh that is
    answered, with or without a token. *)
Theorem redirects_count_failed_refreshes (evs : list Event) : forall w w',
  run evs w = Some w' ->
  count is_redirect (trace w')
  = count is_redirect (trace w) + length (List.filter is_failed_refresh evs)
  /\ (List.filter is_failed_refresh evs = [] -> location_href w' = location_href w).
Proof.
  induction evs as [|ev evs IH]; intros w w'; simpl.
  - intros [= <-]. split; [lia | done].
  - destruct (step ev w) as [w1|] eqn:Hs; [|done]. intros Hr.
    destruct (step_redirects _ _ _ Hs) as [Hc Hl].
    destruct (IH _ _ Hr) as [Hc' Hl']. rewrite Hc', Hc.
    destruct (is_failed_refresh ev); simpl; split; try lia; try done.
    intros Hnone. rewrite Hl' by done. done.
Qed.

Lemma redirects_scenario :
  let request u := {| url := u; method := "get"; headers := ∅; _retry := false |} in
  let expired r :=
    {| isAxiosError := true; response_status := Some 498%Z; config := r |} in
  let server := fun _ : nat => FetchRejected in
  exists w,
    run [ CallOnRequest (request "/a") server;
          ResponseError (expired (request "/a"));
          ResponseError (expired (request "/b"));
          RefreshSettled 0 (PostFulfilled (DataObject (Some "T2")));
          ResponseError (expired (request "/c"));
          RefreshSettled 0 PostRejected ]
      (page_load "http://localhost:3000" "" "/") = Some w
    /\ count is_redirect (trace w) = 1.
Proof.
  cbv zeta.
  match goal with
  | |- exists w, run ?evs ?w0 = Some w /\ _ =>
      pose proof (redirects_count_failed_refreshes evs w0) as Hcount
  end.
  run_scenario Hreach.
  match goal with
  | |- count _ (trace ?w) = _ =>
      destruct (Hcount w ltac:(vm_compute; reflexivity)) as [-> _]
  end.
  reflexivity.
Defined.

(** ** Every promise is settled at most once *)

Lemma settlements_app p t1 t2 :
  settlements p (t1 ++ t2) = settlements p t1 + settlements p t2.
Proof. apply count_app. Qed.

Lemma settlements_cons p e t :
  settlements p (e :: t)
  = (if bool_decide (settles e = Some p) then 1 else 0) + settlements p t.
Proof.
  unfold settlements, count. simpl. by destruct (bool_decide _).
Qed.

Lemma settlements_none p t : settled p t = false <-> settlements p t = 0.
Proof.
  induction t as [|e t IH]; [done|].
  rewrite settlements_cons. unfold settled in *. simpl.
  destruct (bool_decide (settles e = Some p)); simpl; [split; [done | lia]|].
  exact IH.
Qed.

Lemma settlements_others p es :
  Forall (fun e => settles e ≠ Some p) es -> settlements p es = 0.
Proof. intros H. by apply settlements_none, settled_false. Qed.

(** Settling the queue settles each of its promises once, and no other. *)
Lemma settlements_queue (f : nat -> Effect) (l : list nat) (p : nat) :
  (forall q, settles (f q) = Some q) -> NoDup l ->
  settlements p (map f l) = if bool_decide (p ∈ l) then 1 else 0.
Proof.
  intros Hf. induction 1 as [|q l Hq Hl IH]; [done|].
  cbn [map]. rewrite settlements_cons, Hf, IH.
  destruct (decide (q = p)) as [->|Hne].
  - rewrite bool_decide_eq_true_2 by done.
    rewrite (bool_decide_eq_false_2 (p ∈ l)) by done.
    by rewrite bool_decide_eq_true_2 by (by left).
  - rewrite bool_decide_eq_false_2 by congruence.
    destruct (decide (p ∈ l)) as [Hin|Hnin].
    + rewrite !bool_decide_eq_true_2; [done | by right | done].
    + rewrite !bool_decide_eq_false_2; [done | | done].
      intros [->|Hin]%elem_of_cons; done.
Qed.

Lemma page_load_once base cookie href : settle_once_inv (page_load base cookie href).
Proof. split; simpl; [intros p; unfold settlements, count; simpl; lia | constructor..]. Qed.

Lemma token_frame_once w w' :
  token_frame w w' -> settle_once_inv w -> settle_once_inv w'.
Proof.
  intros (_ & _ & _ & _ & Hq & _ & Ha & _ & es & Ht & Hes) [Ht1 Hq1 Ha1].
  apply token_effects_settle_nothing in Hes.
  assert (Hnone : forall p, Forall (fun e => settles e ≠ Some p) es).
  { intros p. eapply Forall_impl; [exact Hes|]. simpl. by intros e ->. }
  split; rewrite ?Hq, ?Ha, ?Ht; [|done|].
  - intros p. rewrite settlements_app, (settlements_others p es) by done.
    specialize (Ht1 p). lia.
  - eapply Forall_impl; [exact Ha1|]. simpl. intros s Hs.
    by apply pending_after.
Qed.

Lemma onRejected_once error w :
  coordinator_inv w -> settle_once_inv w ->
  settle_once_inv (snd (AxiosInstance.onRejected error w)).
Proof.
  intros [Hsf Hqb Hab Htb Hqp Hqa Hret] [Ht1 Hq1 Ha1].
  assert (Hfresh : settled (promises w) (trace w) = false).
  { apply settled_false. eapply Forall_impl; [exact Htb|]. simpl.
    intros e He Heq. specialize (He _ Heq). lia. }
  destruct (refresh_condition error) eqn:Hc; [destruct (isRefreshing w) eqn:Hr|].
  - rewrite onRejected_queues by done. split; wsimpl; [done| |done].
    apply NoDup_app. split; [done|]. split; [|apply NoDup_singleton].
    intros p Hin ->%list_elem_of_singleton.
    rewrite Forall_forall in Hqb. specialize (Hqb _ Hin). lia.
  - rewrite onRejected_triggers by done. split; wsimpl.
    + intros p. rewrite settlements_app.
      rewrite (settlements_others p [_]) by (by apply Forall_singleton).
      specialize (Ht1 p). lia.
    + done.
    + apply Forall_app. split.
      * eapply Forall_impl; [exact Ha1|]. simpl. intros s Hs.
        apply pending_after; [done | by apply Forall_singleton].
      * apply Forall_singleton. simpl.
        apply pending_after; [done | by apply Forall_singleton].
  - rewrite onRejected_passes by done. split; wsimpl.
    + intros p. rewrite settlements_app, settlements_cons. simpl.
      destruct (decide (promises w = p)) as [<-|Hne].
      * apply settlements_none in Hfresh. rewrite Hfresh.
        rewrite bool_decide_eq_true_2 by done.
        unfold settlements, count. simpl. lia.
      * rewrite bool_decide_eq_false_2 by congruence.
        specialize (Ht1 p). unfold settlements at 2, count. simpl. lia.
    + done.
    + rewrite Forall_forall in Ha1, Hab |- *. intros s Hs.
      apply pending_after; [by apply Ha1|]. apply Forall_singleton. simpl.
      intros [= Heq]. specialize (Hab s Hs). lia.
Qed.

Lemma resume_once (w : World) (k : nat) (s : Suspended) (result : PostResult) :
  coordinator_inv w -> settle_once_inv w -> awaiting_refresh w !! k = Some s ->
  settle_once_inv
    (AxiosInstance.resume s result
       (set_awaiting_refresh (delete k (awaiting_refresh w)) w)).
Proof.
  intros Hinv [Ht1 Hq1 Ha1] Hk.
  destruct (awaiting_single _ _ _ Hinv Hk) as (-> & Hs & Hr).
  destruct Hinv as [Hsf Hqb Hab Htb Hqp Hqa Hret]. rewrite Hs in *. simpl.
  apply Forall_inv in Ha1, Hqa.
  apply settlements_none in Ha1.
  assert (Hsettle : forall f : nat -> Effect,
             (forall q, settles (f q) = Some q) ->
             forall (g : Effect), settles g = Some (handler_promise s) ->
             forall p,
               settlements p (trace w ++ map f (failedQueue w) ++ [g]) <= 1).
  { intros f Hf g Hg p.
    rewrite !settlements_app, (settlements_queue f _ p Hf Hq1), settlements_cons, Hg.
    unfold settlements at 2, count. simpl.
    destruct (decide (p ∈ failedQueue w)) as [Hin|Hnin].
    - rewrite bool_decide_eq_true_2 by done.
      rewrite bool_decide_eq_false_2 by (intros [= Heq]; apply Hqa; by rewrite Heq).
      rewrite Forall_forall in Hqp. specialize (Hqp _ Hin).
      apply settlements_none in Hqp. lia.
    - rewrite (bool_decide_eq_false_2 (p ∈ _)) by done.
      destruct (decide (handler_promise s = p)) as [<-|Hne].
      + rewrite bool_decide_eq_true_2 by done. lia.
      + rewrite bool_decide_eq_false_2 by congruence. specialize (Ht1 p). lia. }
  destruct (resume_cases result) as [(t & Ht & ->)|[(token & Ht & ->)|Hf]].
  - rewrite resume_token by done. split; wsimpl; [|constructor..].
    intros p. rewrite <- app_assoc. by apply Hsettle.
  - rewrite resume_no_token by done. split; wsimpl; [|done|constructor].
    intros p. rewrite settlements_app, settlements_cons. simpl.
    unfold settlements at 2, count. simpl.
    destruct (decide (handler_promise s = p)) as [<-|Hne].
    + rewrite bool_decide_eq_true_2 by done. lia.
    + rewrite bool_decide_eq_false_2 by congruence. specialize (Ht1 p). lia.
  - rewrite resume_failure by done. split; wsimpl; [|constructor..].
    intros p. rewrite <- !app_assoc.
    rewrite (app_assoc (map _ _)), settlements_app in *.
    rewrite settlements_app.
    pose proof (Hsettle (fun q => Rejected q (handler_error s)) ltac:(done)
                  (Rejected (handler_promise s) (handler_error s)) eq_refl p)
      as Hle.
    rewrite !settlements_app in Hle.
    rewrite (settlements_app p (map _ _)).
    rewrite !settlements_cons in *. simpl in *.
    rewrite !settlements_cons. simpl.
    change (settlements p []) with 0 in *. lia.
Qed.

Lemma step_once ev w w' :
  step ev w = Some w' -> coordinator_inv w -> settle_once_inv w ->
  settle_once_inv w'.
Proof.
  destruct (is_coordinator_event ev) eqn:Hev;
    [|intros Hs _; by apply token_frame_once, (token_step_frame ev)].
  destruct ev as [error|k result| | | | | | |]; try discriminate; simpl.
  - intros [= <-]. apply onRejected_once.
  - destruct (awaiting_refresh w !! k) as [s|] eqn:Hk; [|done].
    intros [= <-] Hinv Honce. by apply resume_once.
Qed.

Lemma run_once evs : forall w w',
  run evs w = Some w' -> coordinator_inv w -> settle_once_inv w ->
  settle_once_inv w'.
Proof.
  induction evs as [|ev evs IH]; intros w w'; simpl.
  - by intros [= <-].
  - destruct (step ev w) as [w1|] eqn:Hs; [|done]. intros Hr Hinv Honce.
    eapply IH; [exact Hr | by eapply step_inv | by eapply step_once].
Qed.

(** However requests fail and refresh calls end, the response interceptor
    settles no promise twice -- no request is both resolved and rejected, or
    replayed and rejected -- and a promise still in the queue, or still
    waiting for its refresh call, has not been settled. *)
Theorem no_promise_is_settled_twice (w : World) :
  reachable w ->
  (forall p, settlements p (trace w) <= 1)
  /\ Forall (fun p => settlements p (trace w) = 0) (failedQueue w)
  /\ Forall (fun s => settlements (handler_promise s) (trace w) = 0)
       (awaiting_refresh w)
  /\ NoDup (failedQueue w).
Proof.
  intros Hreach. pose proof (reachable_inv _ Hreach) as Hinv.
  destruct Hreach as (base & cookie & href & evs & Hrun).
  destruct (run_once _ _ _ Hrun (page_load_inv _ _ _) (page_load_once _ _ _))
    as [Ht Hq Ha].
  split; [exact Ht|]. split; [|split; [|exact Hq]].
  - eapply Forall_impl; [exact (inv_queue_pending _ Hinv)|]. simpl.
    intros p. apply settlements_none.
  - eapply Forall_impl; [exact Ha|]. simpl. intros s. apply settlements_none.
Qed.

Lemma no_promise_is_settled_twice_scenario :
  let request u := {| url := u; method := "get"; headers := ∅; _retry := false |} in
  let expired r :=
    {| isAxiosError := true; response_status := Some 498%Z; config := r |} in
  exists w,
    run [ ResponseError (expired (request "/a"));
          ResponseError (expired (request "/b"));
          RefreshSettled 0 (PostFulfilled (DataObject (Some "")));
          ResponseError (expired (request "/c"));
          RefreshSettled 0 PostRejected ]
      (page_load "http://localhost:3000" "" "/") = Some w
    /\ forall p, settlements p (trace w) <= 1.
Proof.
  cbv zeta. run_scenario Hreach.
  exact (proj1 (no_promise_is_settled_twice _ Hreach)).
Defined.

(** ** The default headers of the client *)

Lemma step_defaults ev w w' :
  step ev w = Some w' ->
  (exists t, refreshed_with t ev
             /\ defaults_headers w'
                = <["Authorization" := "Bearer " +:+ t]> (defaults_headers w))
  \/ defaults_headers w' = defaults_headers w.
Proof.
  intros Hs. destruct (is_coordinator_event ev) eqn:Hco.
  - destruct ev as [error|k result| | | | | | |]; try discriminate; simpl in Hs.
    + injection Hs as <-. right. unfold AxiosInstance.onRejected.
      destruct (_ && _ && _); [destruct (isRefreshing _)|]; done.
    + destruct (awaiting_refresh w !! k) as [s|]; [|done]. injection Hs as <-.
      destruct (resume_cases result) as [(t & Ht & ->)|[(token & Ht & ->)|Hf]].
      * left. exists t. rewrite resume_token by done.
        split; [split; eauto | done].
      * right. by rewrite resume_no_token.
      * right. by rewrite resume_failure.
  - right. by destruct (token_step_frame ev w w' Hco Hs) as (_ & _ & _ & _ & _ & Hd & _).
Qed.

(** The default headers of the client change only when a refresh call is
    answered with a token, and then only in their [Authorization] entry, which
    becomes [Bearer] and that token.  In particular the [Content-Type] set at
    creation stays, and until the first such refresh there is no default
    [Authorization]. *)
Theorem default_headers_change_only_by_refresh (evs : list Event) :
  forall w w', run evs w = Some w' ->
    (forall k, k ≠ "Authorization" ->
       defaults_headers w' !! k = defaults_headers w !! k)
    /\ (defaults_headers w' !! "Authorization" = defaults_headers w !! "Authorization"
        \/ exists t ev, In ev evs /\ refreshed_with t ev
             /\ defaults_headers w' !! "Authorization" = Some ("Bearer " +:+ t)).
Proof.
  induction evs as [|ev evs IH]; intros w w'; simpl.
  - intros [= <-]. split; [done | by left].
  - destruct (step ev w) as [w1|] eqn:Hs; [|done]. intros Hr.
    destruct (IH _ _ Hr) as [Hother Hauth].
    destruct (step_defaults _ _ _ Hs) as [(t & Ht & Hd)|Hd].
    + split.
      * intros k Hk. by rewrite Hother, Hd, lookup_insert_ne.
      * right. destruct Hauth as [Hauth|(t' & ev' & Hin & Ht' & Hauth)].
        -- exists t, ev. split; [by left|]. split; [done|].
           by rewrite Hauth, Hd, lookup_insert_eq.
        -- exists t', ev'. split; [by right | done].
    + split.
      * intros k Hk. by rewrite Hother, Hd.
      * destruct Hauth as [Hauth|(t' & ev' & Hin & Ht' & Hauth)].
        -- left. by rewrite Hauth, Hd.
        -- right. exists t', ev'. split; [by right | done].
Qed.

Lemma default_headers_scenario :
  let request u := {| url := u; method := "get"; headers := ∅; _retry := false |} in
  let expired r :=
    {| isAxiosError := true; response_status := Some 498%Z; config := r |} in
  exists w,
    run [ ResponseError (expired (request "/a"));
          RefreshSettled 0 (PostFulfilled (DataObject (Some "T2")));
          ResponseError (expired (request "/b"));
          RefreshSettled 0 PostRejected ]
      (page_load "http://localhost:3000" "" "/") = Some w
    /\ defaults_headers w !! "Content-Type" = Some "application/json".
Proof.
  cbv zeta.
  match goal with
  | |- exists w, run ?evs ?w0 = Some w /\ _ =>
      pose proof (default_headers_change_only_by_refresh evs w0) as Hsame
  end.
  run_scenario Hreach.
  match goal with
  | |- defaults_headers ?w !! _ = _ =>
      destruct (Hsame w ltac:(vm_compute; reflexivity)) as [Hother _]
  end.
  rewrite Hother by discriminate. reflexivity.
Defined.

(** ** A request is refreshed for at most once *)

(** The request replayed after a refresh is marked as retried: if it meets a
    498 again, or any other error, it is rejected at once -- no second refresh
    call is made for it and it is not queued. *)
Theorem replayed_request_is_not_refreshed_again
    (w : World) (k : nat) (s : Suspended) (t : string) :
  reachable w -> awaiting_refresh w !! k = Some s -> t ≠ "" ->
  exists w' replayed,
    step (RefreshSettled k (PostFulfilled (DataObject (Some t)))) w = Some w'
    /\ In (Replayed (handler_promise s) replayed) (trace w')
    /\ _retry replayed = true
    /\ forall (later : World) (axios : bool) (status : option Z),
         let error :=
           {| isAxiosError := axios; response_status := status;
              config := replayed |} in
         snd (AxiosInstance.onRejected error later)
         = emit (Rejected (promises later) error)
             (set_promises (S (promises later)) later).
Proof.
  intros Hreach Hk Ht.
  pose proof (inv_awaiting_retried _ (reachable_inv _ Hreach)) as Hret.
  rewrite Forall_forall in Hret.
  specialize (Hret s (list_elem_of_lookup_2 _ _ _ Hk)).
  eexists _, _. split; [by apply step_RefreshSettled|].
  rewrite resume_token by done. split; [|split].
  - wsimpl. apply in_or_app. right. by left.
  - done.
  - intros later axios status. cbv zeta. rewrite onRejected_passes; [done|].
    unfold refresh_condition. cbn [config set_header _retry]. rewrite Hret.
    by rewrite andb_false_r.
Qed.

Lemma replayed_request_scenario :
  let request u := {| url := u; method := "get"; headers := ∅; _retry := false |} in
  let expired r :=
    {| isAxiosError := true; response_status := Some 498%Z; config := r |} in
  exists w,
    run [ResponseError (expired (request "/a"))]
      (page_load "http://localhost:3000" "" "/") = Some w
    /\ exists w' replayed,
      step (RefreshSettled 0 (PostFulfilled (DataObject (Some "T2")))) w = Some w'
      /\ _retry replayed = true
      /\ count is_post (trace (snd (AxiosInstance.onRejected (expired replayed) w')))
         = count is_post (trace w').
Proof.
  cbv zeta. run_scenario Hreach.
  match goal with
  | |- exists w' replayed, step _ ?w = Some w' /\ _ =>
      destruct (replayed_request_is_not_refreshed_again w 0 _ "T2" Hreach eq_refl
                  ltac:(discriminate))
        as (w' & replayed & Hstep & _ & Hretry & Hlater)
  end.
  exists w', replayed. split; [exact Hstep|]. split; [exact Hretry|].
  rewrite (Hlater w' true (Some 498%Z)). wsimpl. rewrite count_app.
  unfold count at 2. simpl. lia.
Defined.

(** ** The session guard, whatever happens *)

Lemma guard_step_inv ev g : guard_inv g -> guard_inv (PrivateRoute.guard_step ev g).
Proof.
  unfold guard_inv. intros Hinv.
  destruct ev as [r|r|], (PrivateRoute.phase g) eqn:Hp;
    cbn [PrivateRoute.guard_step]; rewrite ?Hp; cbn [PrivateRoute.deactivate
      PrivateRoute.phase PrivateRoute.actions PrivateRoute.isAuthenticated];
    rewrite ?Hp; try done.
  - (* the token request settles *)
    destruct Hinv as (Hg & Hn & Ha).
    unfold PrivateRoute.on_token.
    pose proof (fetchToken_logs_only r g) as (Ha' & Hm' & _ & Hn' & Hg').
    destruct (PrivateRoute.fetchToken r g) as [authToken g1]. cbn [fst snd] in *.
    unfold Js.if_truthy.
    destruct authToken as [t|]; [destruct (Js.truthy (Some t))|];
      cbn [PrivateRoute.set_phase PrivateRoute.act PrivateRoute.phase
             PrivateRoute.actions PrivateRoute.isAuthenticated
             PrivateRoute.isMounted PrivateRoute.setIsAuthenticated];
      try (destruct (PrivateRoute.isMounted g1));
      cbn [PrivateRoute.set_phase PrivateRoute.act PrivateRoute.phase
             PrivateRoute.actions PrivateRoute.isAuthenticated
             PrivateRoute.isMounted PrivateRoute.setIsAuthenticated];
      rewrite ?List.filter_app, ?length_app, ?Hn', ?Hg', ?Hn, ?Hg, ?Ha', ?Ha;
      simpl; repeat split; try lia; done.
  - (* the check request settles *)
    destruct Hinv as (Hg & Hn & Ha).
    destruct r; cbn [PrivateRoute.on_check PrivateRoute.act PrivateRoute.isMounted];
      destruct (PrivateRoute.isMounted g);
      cbn [PrivateRoute.set_phase PrivateRoute.act PrivateRoute.phase
             PrivateRoute.actions PrivateRoute.isAuthenticated
             PrivateRoute.isMounted PrivateRoute.setIsAuthenticated];
      rewrite ?List.filter_app, ?length_app, ?Hn, ?Hg, ?Ha;
      simpl; repeat split; try lia; done.
Qed.

(** However the guard's requests end and whenever it is deactivated, it sends
    at most two requests and navigates at most once; it shows its children only
    after the check request, and never together with a redirect; it shows
    nothing only together with the redirect to [/login]. *)
Theorem session_guard_bounds (evs : list PrivateRoute.GuardEvent) :
  let g := PrivateRoute.guard_run evs PrivateRoute.activate in
  let gets := List.filter is_get (PrivateRoute.actions g) in
  let navigations := List.filter is_navigate (PrivateRoute.actions g) in
  length gets <= 2 /\ length navigations <= 1
  /\ (PrivateRoute.render g = PrivateRoute.Children ->
      length gets = 2 /\ navigations = [])
  /\ (PrivateRoute.render g = PrivateRoute.Nothing ->
      navigations = [PrivateRoute.Navigate "/login"]).
Proof.
  assert (Hrun : forall evs g, guard_inv g -> guard_inv (PrivateRoute.guard_run evs g)).
  { clear evs. induction evs as [|ev evs IH]; intros g Hg; [done|].
    cbn. apply IH. by apply guard_step_inv. }
  assert (Hstart : guard_inv PrivateRoute.activate) by done.
  pose proof (Hrun evs _ Hstart) as Hinv. cbv zeta.
  set (g := PrivateRoute.guard_run evs PrivateRoute.activate) in *.
  unfold guard_inv in Hinv. cbv zeta in Hinv. unfold PrivateRoute.render.
  destruct (PrivateRoute.phase g).
  - destruct Hinv as (-> & -> & ->). simpl. repeat split; (lia || done).
  - destruct Hinv as (-> & -> & ->). simpl. repeat split; (lia || done).
  - destruct Hinv as (Hg & Ha).
    destruct (PrivateRoute.isAuthenticated g) as [[]|].
    + destruct Ha as [-> ->]. simpl. repeat split; (lia || done).
    + rewrite Ha. simpl. repeat split; (lia || done).
    + repeat split; (lia || done).
Qed.

(** Deactivation guards the state but not every navigation: when the token
    request of a deactivated guard ends without a token, the guard still
    navigates to [/login]; when its check request fails, it does not. *)
Theorem unmounted_guard_still_redirects_without_token :
  (forall r g,
      PrivateRoute.isMounted g = false ->
      PrivateRoute.phase g = PrivateRoute.AwaitingToken ->
      Js.truthy (fst (PrivateRoute.fetchToken r g)) = false ->
      let g' := PrivateRoute.guard_step (PrivateRoute.TokenSettled r) g in
      List.filter is_navigate (PrivateRoute.actions g')
      = List.filter is_navigate (PrivateRoute.actions g)
        ++ [PrivateRoute.Navigate "/login"]
      /\ PrivateRoute.isAuthenticated g' = PrivateRoute.isAuthenticated g)
  /\ (forall r g,
         PrivateRoute.isMounted g = false ->
         PrivateRoute.phase g = PrivateRoute.AwaitingCheck ->
         let g' := PrivateRoute.guard_step (PrivateRoute.CheckSettled r) g in
         List.filter is_navigate (PrivateRoute.actions g')
         = List.filter is_navigate (PrivateRoute.actions g)
         /\ PrivateRoute.isAuthenticated g' = PrivateRoute.isAuthenticated g).
Proof.
  split.
  - intros r g Hm Hp Hr. cbv zeta. cbn [PrivateRoute.guard_step]. rewrite Hp.
    unfold PrivateRoute.on_token.
    pose proof (fetchToken_logs_only r g) as (Ha' & Hm' & _ & Hn' & _).
    destruct (PrivateRoute.fetchToken r g) as [authToken g1]. cbn [fst snd] in *.
    rewrite if_truthy_false by done.
    cbn [PrivateRoute.act PrivateRoute.isMounted]. rewrite Hm', Hm.
    cbn [PrivateRoute.set_phase PrivateRoute.act PrivateRoute.actions
           PrivateRoute.isAuthenticated].
    rewrite !List.filter_app, Hn'. simpl. by rewrite app_nil_r.
  - intros r g Hm Hp. cbv zeta. cbn [PrivateRoute.guard_step]. rewrite Hp.
    destruct r; cbn [PrivateRoute.on_check PrivateRoute.act PrivateRoute.isMounted];
      rewrite Hm;
      cbn [PrivateRoute.set_phase PrivateRoute.act PrivateRoute.actions
             PrivateRoute.isAuthenticated]; [|done].
    rewrite List.filter_app. simpl. by rewrite app_nil_r.
Qed.

Lemma unmounted_guard_scenario :
  let g := PrivateRoute.guard_run [PrivateRoute.Unmount] PrivateRoute.activate in
  let g' := PrivateRoute.guard_step
              (PrivateRoute.TokenSettled (PrivateRoute.GetRejected true)) g in
  List.filter is_navigate (PrivateRoute.actions g') = [PrivateRoute.Navigate "/login"]
  /\ PrivateRoute.render g' = PrivateRoute.Loading.
Proof.
  cbv zeta.
  destruct (proj1 unmounted_guard_still_redirects_without_token
              (PrivateRoute.GetRejected true)
              (PrivateRoute.guard_run [PrivateRoute.Unmount] PrivateRoute.activate)
              eq_refl eq_refl eq_refl) as [Hn Ha].
  split; [exact Hn|]. unfold PrivateRoute.render. by rewrite Ha.
Defined.

(** Only an answer with status 200 and a non-empty token makes the guard go on
    to the check request, which presents that token.  Any other end of the
    token request -- another status, even another 2xx, a body without token,
    a rejection -- is logged and sends a mounted guard to [/login] without a
    check request. *)
Theorem guard_checks_only_with_a_token (r : PrivateRoute.GetResult) :
  let g := PrivateRoute.guard_step (PrivateRoute.TokenSettled r) PrivateRoute.activate in
  (exists t, t ≠ "" /\ r = token_answer t
      /\ PrivateRoute.phase g = PrivateRoute.AwaitingCheck
      /\ PrivateRoute.actions g
         = [ PrivateRoute.Get "/auth/get-token" ∅;
             PrivateRoute.Get "/account/check-auth"
               {[ "Authorization" := "Bearer " +:+ t ]} ]
      /\ PrivateRoute.render g = PrivateRoute.Loading)
  \/ ((forall t, t ≠ "" -> r ≠ token_answer t)
      /\ PrivateRoute.phase g = PrivateRoute.Finished
      /\ PrivateRoute.render g = PrivateRoute.Nothing
      /\ List.filter is_get (PrivateRoute.actions g)
         = [PrivateRoute.Get "/auth/get-token" ∅]
      /\ List.filter is_navigate (PrivateRoute.actions g)
         = [PrivateRoute.Navigate "/login"]
      /\ exists message, In (PrivateRoute.LogError message) (PrivateRoute.actions g)).
Proof.
  cbv zeta. cbn [PrivateRoute.guard_step PrivateRoute.activate PrivateRoute.phase].
  unfold PrivateRoute.on_token, token_answer.
  destruct r as [axiosError|status data].
  - right. split; [by intros t _|].
    destruct axiosError; cbn; repeat split; eauto.
  - destruct (decide (status = 200%Z)) as [->|Hs]; cycle 1.
    { right. split; [intros t _ [= ? _]; done|].
      cbn [PrivateRoute.fetchToken]. rewrite bool_decide_eq_false_2 by done.
      cbn. repeat split; eauto. }
    cbn [PrivateRoute.fetchToken]. rewrite bool_decide_eq_true_2 by done.
    destruct data as [|token].
    { right. split; [by intros t _|]. cbn. repeat split; eauto. }
    destruct (Js.truthy token) eqn:Ht.
    + left. destruct (truthy_inv _ Ht) as (t & -> & Hne). exists t.
      split; [done|]. split; [done|]. by rewrite (if_truthy_true _ t).
    + right. split.
      { intros t Hne [= ->]. by rewrite truthy_Some in Ht. }
      rewrite if_truthy_false by done. cbn. repeat split; eauto.
Qed.

(** ** Requests to the token endpoint, however calls overlap *)

Lemma list_sum_delete {A} (f : A -> nat) (l : list A) : forall k x,
  l !! k = Some x -> list_sum (map f (delete k l)) + f x = list_sum (map f l).
Proof.
  induction l as [|a l IH]; intros [|k] x; simpl; try done.
  - intros [= ->]. lia.
  - intros Hk. specialize (IH k x Hk). lia.
Qed.

Lemma list_sum_snoc {A} (f : A -> nat) (l : list A) (x : A) :
  list_sum (map f (l ++ [x])) = list_sum (map f l) + f x.
Proof. rewrite map_app, list_sum_app. simpl. lia. Qed.

Lemma axios_getCsrfToken_no_fetch w :
  count is_fetch (trace (snd (AxiosInstance.getCsrfToken w)))
  = count is_fetch (trace w).
Proof.
  destruct (Js.truthy (csrfTokenCache_axios w)) eqn:Hc.
  - rewrite axios_getCsrfToken_hit by done. wsimpl. rewrite count_app.
    unfold count. simpl. lia.
  - rewrite axios_getCsrfToken_miss by done.
    destruct (find_cookie _ _) as [v|e]; [destruct (Js.truthy v)|]; wsimpl;
      rewrite !count_app; unfold count; simpl; lia.
Qed.

Lemma getAuthToken_awaiting retryDelay server w :
  awaiting_token (snd (AuthTokenUtils.getAuthToken retryDelay server w))
  = awaiting_token w.
Proof.
  destruct (Js.truthy (authTokenCache w)) eqn:Hc.
  - pose proof (getAuthToken_frame retryDelay server w) as (_ & _ & _ & Hsame).
    cbv zeta in Hsame. by rewrite (Hsame Hc).
  - rewrite getAuthToken_uncached by done.
    pose proof (utils_getCsrfToken_awaiting w) as Hw.
    destruct (AuthTokenUtils.getCsrfToken w) as [[csrfToken|e] w1];
      cbn [snd] in *; [|done].
    destruct (retry_loop_outcomes csrfToken retryDelay server w1)
      as [(token & _ & ->)|[(token & _ & _ & ->)|(_ & _ & ->)]]; by wsimpl.
Qed.

Lemma coordinator_step_fetches ev w w' :
  is_coordinator_event ev = true -> step ev w = Some w' ->
  count is_fetch (trace w') = count is_fetch (trace w)
  /\ awaiting_token w' = awaiting_token w.
Proof.
  destruct ev as [error|k result| | | | | | |]; try discriminate; intros _; simpl.
  - intros [= <-]. split; [|apply onRejected_awaiting].
    unfold AxiosInstance.onRejected.
    destruct (_ && _ && _); [destruct (isRefreshing _)|]; wsimpl;
      rewrite ?count_app; unfold count; simpl; lia.
  - destruct (awaiting_refresh w !! k) as [s|]; [|done]. intros [= <-].
    split; [|by rewrite resume_awaiting].
    assert (Hq : forall (f : nat -> Effect) (l : list nat),
               (forall p, is_fetch (f p) = false) ->
               count is_fetch (map f l) = 0).
    { intros f l Hf. unfold count. induction l as [|p l IH]; [done|].
      simpl. by rewrite Hf. }
    destruct (resume_cases result) as [(t & Ht & ->)|[(token & Ht & ->)|Hf]].
    + rewrite resume_token by done. wsimpl. rewrite !count_app, Hq by done.
      unfold count. simpl. lia.
    + rewrite resume_no_token by done. wsimpl. rewrite !count_app.
      unfold count. simpl. lia.
    + rewrite resume_failure by done. wsimpl. rewrite !count_app, Hq by done.
      unfold count. simpl. lia.
Qed.

Lemma step_fetches ev w w' :
  step ev w = Some w' ->
  count is_fetch (trace w') + fetches_due w'
  <= count is_fetch (trace w) + fetches_due w
     + (if starts_token_call ev then 2 else 0).
Proof.
  intros Hs. destruct (is_coordinator_event ev) eqn:Hco.
  { destruct (coordinator_step_fetches _ _ _ Hco Hs) as [Hf Ha].
    unfold fetches_due. rewrite Hf, Ha. fetch_lia. }
  unfold fetches_due. change AuthTokenUtils.maxRetries with 2 in *.
  destruct ev as [error|k result|retryDelay server|retryDelay|k answer|k| |
                  |config server]; try discriminate; simpl in Hs |- *.
  - injection Hs as <-.
    pose proof (getAuthToken_bounds retryDelay server w)
      as (Hf & _).
    cbv zeta in Hf. rewrite getAuthToken_awaiting. fetch_lia.
  - injection Hs as <-. destruct (Js.truthy (authTokenCache w)) eqn:Hc.
    + destruct (truthy_inv _ Hc) as (t & Ht & Hne).
      rewrite (begin_cached _ _ _ Ht Hne). cbn [suspend_or_finish]. wsimpl. fetch_lia.
    + rewrite begin_uncached by done.
      pose proof (utils_getCsrfToken_no_fetch w) as Hf.
      destruct (AuthTokenUtils.getCsrfToken w) as [[csrfToken|e] w1];
        cbn [snd] in Hf; cbn [suspend_or_finish]; wsimpl; [|fetch_lia].
      rewrite loop_head_unfold.
      change (0 <? AuthTokenUtils.maxRetries)%nat with true.
      cbn [suspend_or_finish]. wsimpl. change AuthTokenUtils.maxRetries with 2.
      rewrite list_sum_snoc, count_app, Hf.
      change (count is_fetch [token_request csrfToken w1]) with 1.
      fetch_lia.
  - destruct (awaiting_token w !! k) as [call|] eqn:Hk; [|done].
    destruct (call_waiting call) eqn:Hw; [|done]. injection Hs as <-.
    pose proof (list_sum_delete fetches_left _ _ _ Hk) as Hsum.
    destruct (fetch_settled_cases call answer w)
      as [(token & _ & ->)|(Hfail & _)].
    + cbn [suspend_or_finish]. wsimpl. fetch_lia.
    + destruct (S (call_attempt call) <? AuthTokenUtils.maxRetries)%nat eqn:Hlt.
      * rewrite fetch_settled_retries by done. cbn [suspend_or_finish]. wsimpl.
        rewrite list_sum_snoc, count_app.
        unfold fetches_left at 2 in Hsum. rewrite Hw in Hsum.
        unfold fetches_left at 2. cbn [call_waiting call_attempt].
        unfold count at 2. simpl. fetch_lia.
      * rewrite fetch_settled_gives_up by done. cbn [suspend_or_finish]. wsimpl.
        rewrite count_app. unfold count at 2. simpl. fetch_lia.
  - destruct (awaiting_token w !! k) as [call|] eqn:Hk; [|done].
    destruct (call_waiting call) eqn:Hw; [done|]. injection Hs as <-.
    pose proof (list_sum_delete fetches_left _ _ _ Hk) as Hsum.
    unfold fetches_left at 2 in Hsum. rewrite Hw in Hsum.
    unfold AuthTokenUtils.timer_fired. rewrite loop_head_unfold.
    destruct (call_attempt call <? AuthTokenUtils.maxRetries)%nat eqn:Hlt;
      cbn [suspend_or_finish]; wsimpl; rewrite ?list_sum_snoc, count_app.
    + apply Nat.ltb_lt in Hlt.
      match goal with |- context [count is_fetch [?e]] =>
        change (count is_fetch [e]) with 1 end.
      unfold fetches_left at 2. cbn [call_waiting call_attempt]. fetch_lia.
    + unfold count at 2. simpl. fetch_lia.
  - injection Hs as <-. rewrite utils_getCsrfToken_no_fetch,
      utils_getCsrfToken_awaiting. fetch_lia.
  - injection Hs as <-. rewrite axios_getCsrfToken_no_fetch,
      axios_getCsrfToken_awaiting. fetch_lia.
  - injection Hs as <-. rewrite onRequest_unfold.
    pose proof (axios_getCsrfToken_no_fetch w) as Hf.
    pose proof (axios_getCsrfToken_awaiting w) as Ha.
    destruct (AxiosInstance.getCsrfToken w) as [[csrfToken|e] w1]; cbn [snd] in *.
    + pose proof (getAuthToken_bounds 1000 server w1) as (Hf2 & _).
      pose proof (getAuthToken_awaiting 1000 server w1) as Ha2.
      cbv zeta in Hf2.
      destruct (AuthTokenUtils.getAuthToken 1000 server w1) as [[authToken|e] w2];
        cbn [snd] in *; wsimpl; rewrite ?count_app, Ha2, Ha;
        [|unfold count at 2; simpl]; fetch_lia.
    + wsimpl. rewrite count_app, Ha, Hf. unfold count at 2. simpl. fetch_lia.
Qed.

(** However calls of [getAuthToken] overlap with each other and with
    everything else on the page, the token endpoint is asked at most twice for
    each call that is started -- counting, for the calls still suspended, the
    requests they can still make. *)
Theorem token_endpoint_is_asked_at_most_twice_per_call (evs : list Event) :
  forall w w', run evs w = Some w' ->
    count is_fetch (trace w') + fetches_due w'
    <= count is_fetch (trace w) + fetches_due w
       + 2 * length (List.filter starts_token_call evs).
Proof.
  induction evs as [|ev evs IH]; intros w w'; simpl.
  - intros [= <-]. lia.
  - destruct (step ev w) as [w1|] eqn:Hs; [|done]. intros Hr.
    pose proof (step_fetches _ _ _ Hs) as Hstep. specialize (IH _ _ Hr).
    destruct (starts_token_call ev); simpl; lia.
Qed.

Lemma token_endpoint_scenario :
  exists w,
    run [ TokenCallBegins 1000; TokenCallBegins 1000;
          TokenFetchSettled 0 FetchRejected;
          TokenFetchSettled 0 (FetchResponse true (JsonObject (Some "TB")));
          TokenTimerFired 0;
          TokenFetchSettled 0 (FetchResponse false NotJson) ]
      (page_load "http://localhost:3000" "XSRF-TOKEN=abc123" "/") = Some w
    /\ count is_fetch (trace w) <= 4.
Proof.
  match goal with
  | |- exists w, run ?evs ?w0 = Some w /\ _ =>
      pose proof (token_endpoint_is_asked_at_most_twice_per_call evs w0) as Hbound
  end.
  run_scenario Hreach.
  match goal with
  | |- count _ (trace ?w) <= _ =>
      specialize (Hbound w ltac:(vm_compute; reflexivity))
  end.
  etransitivity; [|exact Hbound]. apply Nat.le_add_r.
Defined.

(** ** The requests the modules make *)

Lemma token_request_addressed errors csrfToken w :
  well_addressed (baseURL w) errors (token_request csrfToken w).
Proof.
  split; [done|]. destruct (Js.truthy csrfToken) eqn:Ht.
  - destruct (truthy_inv _ Ht) as (t & -> & Hne). right. exists t.
    by rewrite (if_truthy_true _ t).
  - left. by rewrite if_truthy_false.
Qed.

Lemma queue_addressed base errors (f : nat -> Effect) (l : list nat) :
  (forall p, well_addressed base errors (f p)) ->
  Forall (well_addressed base errors) (map f l).
Proof. intros Hf. induction l; constructor; auto. Qed.

Ltac addressed :=
  lazymatch goal with
  | |- Forall _ (_ ++ _) => apply Forall_app; split; addressed
  | |- Forall _ (_ :: _) =>
      apply Forall_cons; split;
      [first [ apply token_request_addressed
             | assumption
             | cbn [well_addressed]; first [exact I | reflexivity] ]
      | addressed]
  | |- Forall _ [] => constructor
  | |- Forall _ (map _ _) => apply queue_addressed; intros ?; exact I
  | |- Forall _ _ => assumption
  end.

Lemma utils_getCsrfToken_addressed errors w :
  let w' := snd (AuthTokenUtils.getCsrfToken w) in
  baseURL w' = baseURL w
  /\ (Forall (well_addressed (baseURL w) errors) (trace w) ->
      Forall (well_addressed (baseURL w) errors) (trace w')).
Proof.
  cbv zeta. destruct (Js.truthy (csrfTokenCache_utils w)) eqn:Hc.
  - rewrite utils_getCsrfToken_hit by done. wsimpl. split; [done|]. intros.
    addressed.
  - rewrite utils_getCsrfToken_miss by done.
    destruct (find_cookie _ _) as [v|e]; [destruct (Js.truthy v)|]; wsimpl;
      (split; [done|]); intros; addressed.
Qed.

Lemma axios_getCsrfToken_addressed errors w :
  let w' := snd (AxiosInstance.getCsrfToken w) in
  baseURL w' = baseURL w
  /\ (Forall (well_addressed (baseURL w) errors) (trace w) ->
      Forall (well_addressed (baseURL w) errors) (trace w')).
Proof.
  cbv zeta. destruct (Js.truthy (csrfTokenCache_axios w)) eqn:Hc.
  - rewrite axios_getCsrfToken_hit by done. wsimpl. split; [done|]. intros.
    addressed.
  - rewrite axios_getCsrfToken_miss by done.
    destruct (find_cookie _ _) as [v|e]; [destruct (Js.truthy v)|]; wsimpl;
      (split; [done|]); intros; addressed.
Qed.

Lemma response_errors_cons ev evs :
  response_errors (ev :: evs)
  = match ev with ResponseError error => [error] | _ => [] end
    ++ response_errors evs.
Proof. by destruct ev. Qed.

Lemma resume_awaiting_refresh s result w :
  awaiting_refresh (AxiosInstance.resume s result w) = awaiting_refresh w.
Proof.
  destruct (resume_cases result) as [(t & Ht & ->)|[(token & Ht & ->)|Hf]].
  - by rewrite resume_token.
  - by rewrite resume_no_token.
  - by rewrite resume_failure.
Qed.

(** Every handler that waits for a refresh call was started by an error handed
    to the response interceptor. *)
Lemma step_awaits errors ev w w' :
  step ev w = Some w' ->
  (forall error, ev = ResponseError error -> In error errors) ->
  Forall (awaits_for errors) (awaiting_refresh w) ->
  Forall (awaits_for errors) (awaiting_refresh w').
Proof.
  intros Hs Hev Hw. destruct (is_coordinator_event ev) eqn:Hc.
  - destruct ev as [error|k result| | | | | | |]; try discriminate; simpl in Hs.
    + injection Hs as <-. unfold AxiosInstance.onRejected.
      destruct (_ && _ && _); [destruct (isRefreshing _)|]; wsimpl; try done.
      apply Forall_app. split; [done|]. constructor; [|constructor].
      exists error. split; [by apply Hev|done].
    + destruct (awaiting_refresh w !! k) as [s|]; [|done]. injection Hs as <-.
      rewrite resume_awaiting_refresh. wsimpl. by apply Forall_delete.
  - destruct (token_step_frame _ _ _ Hc Hs) as (_ & _ & _ & _ & _ & _ & -> & _).
    done.
Qed.

Lemma step_addressed errors ev w w' :
  step ev w = Some w' ->
  Forall (awaits_for errors) (awaiting_refresh w) ->
  baseURL w' = baseURL w
  /\ (Forall (well_addressed (baseURL w) errors) (trace w) ->
      Forall (well_addressed (baseURL w) errors) (trace w')).
Proof.
  intros Hstep Hawaits. revert Hstep.
  pose proof (utils_getCsrfToken_addressed errors) as Hutils.
  pose proof (axios_getCsrfToken_addressed errors) as Haxios.
  assert (Hauth : forall retryDelay server w,
             let w' := snd (AuthTokenUtils.getAuthToken retryDelay server w) in
             baseURL w' = baseURL w
             /\ (Forall (well_addressed (baseURL w) errors) (trace w) ->
                 Forall (well_addressed (baseURL w) errors) (trace w'))).
  { intros retryDelay server w0. cbv zeta.
    destruct (Js.truthy (authTokenCache w0)) eqn:Hc.
    - pose proof (getAuthToken_frame retryDelay server w0) as (_ & _ & _ & Hsame).
      cbv zeta in Hsame. by rewrite (Hsame Hc).
    - rewrite getAuthToken_uncached by done.
      pose proof (Hutils w0) as [Hb Ht]. cbv zeta in Hb, Ht.
      destruct (AuthTokenUtils.getCsrfToken w0) as [[csrfToken|e] w1];
        cbn [snd] in *; [|done].
      destruct (retry_loop_outcomes csrfToken retryDelay server w1)
        as [(token & _ & ->)|[(token & _ & _ & ->)|(_ & _ & ->)]];
        wsimpl; (split; [done|]); intros Hw; specialize (Ht Hw);
        rewrite <- Hb in *; addressed. }
  assert (Hsuspend : forall others now w0,
             (baseURL (snd now) = baseURL w0
              /\ (Forall (well_addressed (baseURL w0) errors) (trace w0) ->
                  Forall (well_addressed (baseURL w0) errors) (trace (snd now)))) ->
             baseURL (suspend_or_finish others now) = baseURL w0
             /\ (Forall (well_addressed (baseURL w0) errors) (trace w0) ->
                 Forall (well_addressed (baseURL w0) errors)
                   (trace (suspend_or_finish others now))))
    by (by intros others [[result|call] w1] w0).
  assert (Hloop : forall attempt csrfToken retryDelay w0,
             let w' := snd (AuthTokenUtils.loop_head attempt csrfToken retryDelay w0) in
             baseURL w' = baseURL w0
             /\ (Forall (well_addressed (baseURL w0) errors) (trace w0) ->
                 Forall (well_addressed (baseURL w0) errors) (trace w'))).
  { intros attempt csrfToken retryDelay w0. cbv zeta. rewrite loop_head_unfold.
    destruct (_ <? _)%nat; wsimpl; (split; [done|]); intros; addressed. }
  destruct ev as [error|k result|retryDelay server|retryDelay|k answer|k| |
                  |config server]; simpl.
  - intros [= <-]. unfold AxiosInstance.onRejected, AxiosInstance.refresh_url.
    destruct (_ && _ && _); [destruct (isRefreshing _)|]; wsimpl;
      (split; [done|]); intros; addressed.
  - destruct (awaiting_refresh w !! k) as [s|] eqn:Hk; [|done]. intros [= <-].
    destruct (resume_cases result) as [(t & Ht & ->)|[(token & Ht & ->)|Hf]].
    + rewrite resume_token by done. wsimpl. split; [done|]. intros.
      assert (Hreplay : well_addressed (baseURL w) errors
                          (Replayed (handler_promise s)
                             (set_header "Authorization" ("Bearer " +:+ t)
                                (config (handler_error s))))).
      { destruct (Forall_lookup_1 _ _ _ _ Hawaits Hk) as (error & Hin & ->).
        by exists error, t. }
      addressed.
    + rewrite resume_no_token by done. wsimpl. split; [done|]. intros. addressed.
    + rewrite resume_failure by done. wsimpl. split; [done|]. intros. addressed.
  - intros [= <-]. apply Hauth.
  - intros [= <-]. apply Hsuspend.
    destruct (Js.truthy (authTokenCache w)) eqn:Hc.
    + destruct (truthy_inv _ Hc) as (t & Ht & Hne).
      by rewrite (begin_cached _ _ _ Ht Hne).
    + rewrite begin_uncached by done.
      pose proof (Hutils w) as [Hb Ht]. cbv zeta in Hb, Ht.
      destruct (AuthTokenUtils.getCsrfToken w) as [[csrfToken|e] w1];
        cbn [snd] in *; [|done].
      destruct (Hloop 0 csrfToken retryDelay w1) as [Hb' Ht'].
      rewrite Hb in Hb', Ht'. split; [done|]. intros Hw. by apply Ht', Ht.
  - destruct (awaiting_token w !! k) as [call|]; [|done].
    destruct (call_waiting call); [|done]. intros [= <-]. apply Hsuspend.
    destruct (fetch_settled_cases call answer w)
      as [(token & _ & ->)|(Hfail & _)]; [done|].
    destruct (S (call_attempt call) <? AuthTokenUtils.maxRetries)%nat eqn:Hlt.
    + rewrite fetch_settled_retries by done. wsimpl. split; [done|].
      intros. addressed.
    + rewrite fetch_settled_gives_up by done. wsimpl. split; [done|].
      intros. addressed.
  - destruct (awaiting_token w !! k) as [call|]; [|done].
    destruct (call_waiting call); [done|]. intros [= <-]. apply Hsuspend, Hloop.
  - intros [= <-]. apply Hutils.
  - intros [= <-]. apply Haxios.
  - intros [= <-]. rewrite onRequest_unfold.
    pose proof (Haxios w) as [Hb Ht]. cbv zeta in Hb, Ht.
    destruct (AxiosInstance.getCsrfToken w) as [[csrfToken|e] w1]; cbn [snd] in *.
    + pose proof (Hauth 1000%Z server w1) as [Hb' Ht']. cbv zeta in Hb', Ht'.
      rewrite Hb in Hb', Ht'.
      destruct (AuthTokenUtils.getAuthToken 1000 server w1) as [[authToken|e] w2];
        cbn [snd] in *; wsimpl; (split; [done|]); intros Hw;
        specialize (Ht' (Ht Hw)); addressed.
    + wsimpl. split; [done|]. intros Hw. specialize (Ht Hw). addressed.
Qed.

(** From page load on, whatever happens: every [fetch] goes to the token
    endpoint of the backend the page is configured with, with no header or with
    the CSRF token as [X-CSRF-Token]; every POST goes to its refresh endpoint;
    every request the response interceptor hands to [axiosInstance] again is
    the request of an error handed to the interceptor, marked as retried and
    with the token of a refresh as its [Authorization] (so it is addressed as
    that request was); and the page is sent nowhere but to [/login]. *)
Theorem own_requests_are_token_refresh_or_replay
    (base cookie href : string) (evs : list Event) (w : World) :
  run evs (page_load base cookie href) = Some w ->
  baseURL w = base
  /\ Forall (well_addressed base (response_errors evs)) (trace w).
Proof.
  assert (Hrun : forall errors evs w0 w1,
             run evs w0 = Some w1 ->
             Forall (fun error => In error errors) (response_errors evs) ->
             Forall (awaits_for errors) (awaiting_refresh w0) ->
             Forall (well_addressed (baseURL w0) errors) (trace w0) ->
             baseURL w1 = baseURL w0
             /\ Forall (well_addressed (baseURL w0) errors) (trace w1)).
  { clear. intros errors. induction evs as [|ev evs IH]; intros w0 w1; cbn [run].
    - by intros [= <-].
    - destruct (step ev w0) as [w'|] eqn:Hs; [|done]. intros Hr Hevs Ha Hw.
      rewrite response_errors_cons in Hevs. apply Forall_app in Hevs as [Hev Hevs].
      assert (Hin : forall error, ev = ResponseError error -> In error errors).
      { intros error ->. by apply Forall_cons in Hev as [Hin _]. }
      pose proof (step_awaits _ _ _ _ Hs Hin Ha) as Ha'.
      destruct (step_addressed errors _ _ _ Hs Ha) as [Hb Ht].
      destruct (IH _ _ Hr Hevs Ha') as [Hb' Ht']; rewrite Hb in *; auto. }
  intros Hr.
  destruct (Hrun (response_errors evs) _ _ _ Hr) as [Hb Ht];
    [by apply List.Forall_forall|constructor|constructor|done].
Qed.

(** A request gets its tokens, meets a 498 and is sent again after the
    refresh. *)
Lemma requests_scenario :
  let request u := {| url := u; method := "get"; headers := ∅; _retry := false |} in
  let expired r :=
    {| isAxiosError := true; response_status := Some 498%Z; config := r |} in
  exists w,
    run [ CallOnRequest (request "/a") (fun _ => FetchRejected);
          ResponseError (expired (request "/a"));
          RefreshSettled 0 (PostFulfilled (DataObject (Some "T2"))) ]
      (page_load "https://api.example" "XSRF-TOKEN=abc123" "/") = Some w
    /\ Forall (well_addressed "https://api.example" [expired (request "/a")])
         (trace w)
    /\ In (Replayed 0
             (set_header "Authorization" "Bearer T2"
                (set_retry true (request "/a"))))
         (trace w).
Proof.
  cbv zeta.
  match goal with
  | |- exists w, run ?evs (page_load ?b ?c ?h) = Some w /\ _ =>
      pose proof (own_requests_are_token_refresh_or_replay b c h evs) as Hok
  end.
  run_scenario Hreach.
  split.
  - match goal with
    | |- Forall _ (trace ?w) => exact (proj2 (Hok w ltac:(vm_compute; reflexivity)))
    end.
  - vm_compute. tauto.
Defined.

(** ** Errors that are not an expired session *)

Lemma rejections_token_effects t es :
  forallb token_effect es = true -> rejections (t ++ es) = rejections t.
Proof.
  intros Hes. unfold rejections. rewrite omap_app.
  assert (Hnone : omap (fun e => match e with
                                 | Rejected _ error => Some error
                                 | _ => None
                                 end) es = []).
  { induction es as [|e es IH]; [done|]. simpl in Hes.
    apply andb_true_iff in Hes as [He Hes]. specialize (IH Hes).
    destruct e; try discriminate; exact IH. }
  by rewrite Hnone, app_nil_r.
Qed.

(** As long as no request meets an expired session -- errors without
    response, other statuses than 498, errors of requests already retried, errors
    that are not axios errors -- the coordinator stays idle: each error is passed
    on to its caller unchanged, in order, and no refresh call is made, nothing
    is queued and the page is not redirected, whatever the token functions do
    meanwhile. *)
Theorem coordinator_idle_without_expiry (evs : list Event) : forall w w',
  isRefreshing w = false -> awaiting_refresh w = [] -> no_expiry evs ->
  run evs w = Some w' ->
  isRefreshing w' = false /\ awaiting_refresh w' = []
  /\ failedQueue w' = failedQueue w
  /\ count is_post (trace w') = count is_post (trace w)
  /\ location_href w' = location_href w
  /\ defaults_headers w' = defaults_headers w
  /\ rejections (trace w') = rejections (trace w) ++ response_errors evs.
Proof.
  unfold no_expiry.
  induction evs as [|ev evs IH]; intros w w' Hr Ha Hno; cbn [run].
  - intros [= <-]. change (response_errors []) with (@nil AxiosError).
    by rewrite app_nil_r.
  - destruct (step ev w) as [w1|] eqn:Hs; [|done]. intros Hrun.
    destruct (is_coordinator_event ev) eqn:Hco.
    + destruct ev as [error|k result| | | | | | |]; try discriminate;
        simpl in Hs.
      * change (response_errors (ResponseError error :: evs))
          with (error :: response_errors evs) in Hno |- *.
        apply Forall_cons in Hno as [Hc Hno]. injection Hs as <-.
        rewrite onRejected_passes in Hrun by done. cbn [snd] in Hrun.
        match type of Hrun with
        | run _ ?w0 = _ =>
            destruct (IH w0 w' Hr Ha Hno Hrun)
              as (Hr' & Ha' & Hq' & Hp' & Hl' & Hd' & Hj')
        end.
        revert Hq' Hp' Hl' Hd' Hj'. wsimpl. intros -> -> -> -> ->.
        rewrite count_app. unfold rejections. rewrite omap_app, <- app_assoc.
        repeat split; try done; unfold count at 2; simpl; lia.
      * by rewrite Ha in Hs.
    + assert (Hsame : response_errors (ev :: evs) = response_errors evs)
        by (by destruct ev).
      rewrite Hsame in *.
      destruct (token_step_frame ev w w1 Hco Hs)
        as (_ & _ & Hl & Hr1 & Hq & Hd & Ha1 & _ & es & Ht & Hes).
      destruct (IH w1 w') as (Hr' & Ha' & Hq' & Hp' & Hl' & Hd' & Hj');
        [congruence | congruence | done | done |].
      rewrite Hq', Hp', Hl', Hd', Hj', Ht, rejections_token_effects by done.
      rewrite count_app, (count_token_effects is_post es); [|by intros []|done].
      repeat split; try done; lia.
Qed.

Lemma coordinator_idle_scenario :
  let request u := {| url := u; method := "get"; headers := ∅; _retry := false |} in
  let failed status r :=
    {| isAxiosError := true; response_status := status; config := r |} in
  exists w,
    run [ ResponseError (failed (Some 401%Z) (request "/a"));
          CallOnRequest (request "/b") (fun _ => FetchRejected);
          ResponseError (failed None (request "/b"));
          ResponseError (failed (Some 498%Z) (set_retry true (request "/c"))) ]
      (page_load "http://localhost:3000" "" "/") = Some w
    /\ count is_post (trace w) = 0
    /\ rejections (trace w)
       = [ failed (Some 401%Z) (request "/a"); failed None (request "/b");
           failed (Some 498%Z) (set_retry true (request "/c")) ].
Proof.
  cbv zeta.
  match goal with
  | |- exists w, run ?evs ?w0 = Some w /\ _ =>
      pose proof (coordinator_idle_without_expiry evs w0) as Hidle
  end.
  run_scenario Hreach.
  match goal with
  | |- count _ (trace ?w) = _ /\ _ =>
      destruct (Hidle w eq_refl eq_refl ltac:(repeat constructor)
                  ltac:(vm_compute; reflexivity))
        as (_ & _ & _ & Hposts & _ & _ & Hrejected)
  end.
  split; [exact Hposts | exact Hrejected].
Defined.
